(** * mypy-protobuf: the stub writer of [python/mypy_protobuf.py]

    A shallow embedding of the protoc plugin that writes [.pyi] stubs.
    Python text is [string]; the descriptor messages of
    [google.protobuf.descriptor_pb2] are records holding the attributes the
    plugin reads; [PkgWriter] is a record threaded through a state and
    exception monad; [dict]s and [set]s whose iteration is sorted before use
    are [gmap]s and [gset]s, iterated through an unspecified hash order. *)

From stdpp Require Import base tactics option list sorting gmap strings pretty.
From Stdlib Require Import Ascii String.

Local Open Scope string_scope.
Local Open Scope list_scope.

(** ** Python text operations *)

Module Py.

(** [sep.join(l)] *)
Definition join (sep : string) (l : list string) : string :=
    String.concat sep l.

(** [s[n:]] for [0 <= n] *)
Fixpoint drop (n : nat) (s : string) : string :=
    match n, s with
    | O, _ => s
    | S _, EmptyString => EmptyString
    | S n', String _ s' => drop n' s'
    end.

(** [s[:n]] for [0 <= n] *)
Fixpoint take (n : nat) (s : string) : string :=
    match n, s with
    | O, _ => EmptyString
    | S _, EmptyString => EmptyString
    | S n', String c s' => String c (take n' s')
    end.

(** [s[:-n]] for [0 < n]: all but the last [n] characters, empty when the
      text is shorter than [n]. *)
Definition drop_last (n : nat) (s : string) : string :=
    take (String.length s - n) s.

Definition startswith (s p : string) : bool := String.prefix p s.

Definition endswith (s suffix : string) : bool :=
    bool_decide (drop (String.length s - String.length suffix) s = suffix).

(** [s.replace(c, r)] for a one-character pattern [c] *)
Fixpoint replace (c : ascii) (r : string) (s : string) : string :=
    match s with
    | EmptyString => EmptyString
    | String a s' =>
        if Ascii.eqb a c then r +:+ replace c r s' else String a (replace c r s')
    end.

(** [s.split(c)] for a one-character separator: never empty. *)
Fixpoint split (c : ascii) (s : string) : list string :=
    match s with
    | EmptyString => [EmptyString]
    | String a s' =>
        if Ascii.eqb a c then EmptyString :: split c s'
        else match split c s' with
             | [] => [String a EmptyString]
             | w :: ws => String a w :: ws
             end
    end.

(** [s.rsplit(c, 1)]: split once, at the last [c]; [[s]] when there is
      none. *)
Definition rsplit1 (c : ascii) (s : string) : list string :=
    match reverse (split c s) with
    | [] => [s]
    | [_] => [s]
    | last :: before => [join (String c EmptyString) (reverse before); last]
    end.

(** [tmpl.format] on positional arguments, for templates whose only
    replacement fields are the automatically numbered [{}]; every call of the
    plugin passes as many arguments as the template has fields. *)
Fixpoint format (tmpl : string) (args : list string) : string :=
    match tmpl with
    | EmptyString => EmptyString
    | String "{" (String "}" rest) =>
        match args with
        | a :: args' => a +:+ format rest args'
        | [] => format rest []
        end
    | String c rest => String c (format rest args)
    end.

(** [sub in s] *)
Fixpoint contains (sub s : string) : bool :=
  String.prefix sub s
  || match s with
     | EmptyString => false
     | String _ s' => contains sub s'
     end.

(** [sorted(l)] on text: ascending code-point order. *)
Definition sorted (l : list string) : list string :=
    merge_sort String.le l.

(** The order of Python on pairs of texts. *)
Definition pair_le (p q : string * string) : Prop :=
    String.le p.1 q.1 ∧ (p.1 = q.1 → String.le p.2 q.2).

Global Instance pair_le_dec : RelDecision pair_le.
Proof. intros p q. unfold pair_le. apply _. Defined.

Definition sorted_pairs (l : list (string * string)) : list (string * string) :=
    merge_sort pair_le l.

(** [sorted] on the items of a dict: its keys are distinct, so the order of
      the pairs is the order of the keys. *)
Definition key_le {V} (p q : string * V) : Prop := String.le p.1 q.1.

Global Instance key_le_dec {V} : RelDecision (@key_le V).
Proof. intros p q. unfold key_le. apply _. Defined.

Definition sorted_items {V} (l : list (string * V)) : list (string * V) :=
    merge_sort key_le l.

End Py.

(** The iteration order of a [set], and of a [dict] whose insertion order the
    model does not keep, is some enumeration of its elements: which one is
    up to the interpreter and its hash seed. *)
Class HashOrder := {
  set_iter : ∀ {A} `{Countable A}, gset A → list A;
  set_iter_perm : ∀ {A} `{Countable A} (s : gset A), set_iter s ≡ₚ elements s;
  dict_iter : ∀ {V}, gmap string V → list (string * V);
  dict_iter_perm : ∀ {V} (m : gmap string V), dict_iter m ≡ₚ map_to_list m
}.

(** One such order, to run the model. *)
Definition canonical_order : HashOrder :=
  {| set_iter := λ A _ _ s, elements s;
     set_iter_perm := λ A _ _ s, reflexivity _;
     dict_iter := λ V m, map_to_list m;
     dict_iter_perm := λ V m, reflexivity _ |}.

(** ** The descriptor messages ([descriptor_pb2], [plugin_pb2]) *)

Module FieldDescriptorProto.
(** [FieldDescriptorProto.Type] *)
Definition TYPE_DOUBLE : Z := 1.
Definition TYPE_FLOAT : Z := 2.
Definition TYPE_INT64 : Z := 3.
Definition TYPE_UINT64 : Z := 4.
Definition TYPE_INT32 : Z := 5.
Definition TYPE_FIXED64 : Z := 6.
Definition TYPE_FIXED32 : Z := 7.
Definition TYPE_BOOL : Z := 8.
Definition TYPE_STRING : Z := 9.
Definition TYPE_GROUP : Z := 10.
Definition TYPE_MESSAGE : Z := 11.
Definition TYPE_BYTES : Z := 12.
Definition TYPE_UINT32 : Z := 13.
Definition TYPE_ENUM : Z := 14.
Definition TYPE_SFIXED32 : Z := 15.
Definition TYPE_SFIXED64 : Z := 16.
Definition TYPE_SINT32 : Z := 17.
Definition TYPE_SINT64 : Z := 18.
(** [FieldDescriptorProto.Label] *)
Definition LABEL_OPTIONAL : Z := 1.
Definition LABEL_REQUIRED : Z := 2.
Definition LABEL_REPEATED : Z := 3.

(** [oneof_index] is [None] when [HasField("oneof_index")] is false. *)
Record t := mk {
    name : string;
    label : Z;
    type : Z;
    type_name : string;
    oneof_index : option Z
  }.
End FieldDescriptorProto.

Module EnumValueDescriptorProto.
Record t := mk { name : string; number : Z }.
End EnumValueDescriptorProto.

Module EnumDescriptorProto.
Record t := mk { name : string; value : list EnumValueDescriptorProto.t }.
End EnumDescriptorProto.

Module OneofDescriptorProto.
Record t := mk { name : string }.
End OneofDescriptorProto.

Module MessageOptions.
Record t := mk { map_entry : bool }.
End MessageOptions.

Module DescriptorProto.
#[warnings="-register-all"]
Inductive t := mk {
    name : string;
    field : list FieldDescriptorProto.t;
    nested_type : list t;
    enum_type : list EnumDescriptorProto.t;
    oneof_decl : list OneofDescriptorProto.t;
    options : MessageOptions.t
  }.
End DescriptorProto.

Module MethodDescriptorProto.
Record t := mk {
    name : string;
    input_type : string;
    output_type : string;
    server_streaming : bool
  }.
End MethodDescriptorProto.

Module ServiceDescriptorProto.
Record t := mk { name : string; method : list MethodDescriptorProto.t }.
End ServiceDescriptorProto.

Module FileOptions.
Record t := mk { py_generic_services : bool }.
End FileOptions.

Module FileDescriptorProto.
Record t := mk {
    name : string;
    package : string;
    message_type : list DescriptorProto.t;
    enum_type : list EnumDescriptorProto.t;
    service : list ServiceDescriptorProto.t;
    extension : list FieldDescriptorProto.t;
    options : FileOptions.t;
    syntax : string
  }.
End FileDescriptorProto.

Module CodeGeneratorRequest.
Record t := mk {
    file_to_generate : list string;
    parameter : string;
    proto_file : list FileDescriptorProto.t
  }.
End CodeGeneratorRequest.

Module CodeGeneratorResponse.
Module File.
Record t := mk { name : string; content : string }.
End File.
Record t := mk { file : list File.t }.
End CodeGeneratorResponse.

(** ** Exceptions and the monad of the writer's methods *)

Inductive exn :=
| AssertionError (msg : string)
| KeyError (key : string)
| IndexError (msg : string).

Inductive result (A : Type) :=
| Ok (a : A)
| Raise (e : exn).
Arguments Ok {A} a.
Arguments Raise {A} e.

(** The newline and the double quote of Python's literals. *)
Definition nl : string := String "010"%char EmptyString.
Definition dq : string := String "034"%char EmptyString.

Definition GENERATED : string := "@ge" +:+ "nerated".
Definition HEADER : string :=
  Py.format ("# {} by generate_proto_mypy_stubs.py.  Do not edit!" +:+ nl)
            [GENERATED].

Definition PYTHON_RESERVED : gset string :=
  list_to_set
    [ "False"; "None"; "True"; "and"; "as"; "async"; "await"; "assert";
      "break"; "class"; "continue"; "def"; "del"; "elif"; "else"; "except";
      "finally"; "for"; "from"; "global"; "if"; "import"; "in"; "is";
      "lambda"; "nonlocal"; "not"; "or"; "pass"; "raise"; "return"; "try";
      "while"; "with"; "yield" ].

Definition PY2_ONLY_BUILTINS : gset string :=
  list_to_set [ "buffer"; "unicode" ].

Definition reserved (name : string) : bool :=
  bool_decide (name ∈ PYTHON_RESERVED).

Definition _mangle_builtin (name : string) : string :=
  Py.format "builtin___{}" [name].

Definition _mangle_message (name : string) : string :=
  Py.format "type___{}" [name].

Definition is_scalar (fd : FieldDescriptorProto.t) : bool :=
  negb (bool_decide (FieldDescriptorProto.type fd = FieldDescriptorProto.TYPE_MESSAGE)
        || bool_decide (FieldDescriptorProto.type fd = FieldDescriptorProto.TYPE_GROUP)).

(** ** [class Descriptors] *)

Module Descriptors.

(** [to_generate] is walked in insertion order by [generate_mypy_stubs]: it
    is kept as the list of its items. *)
Record t := mk {
  files : gmap string FileDescriptorProto.t;
  to_generate : list (string * FileDescriptorProto.t);
  messages : gmap string DescriptorProto.t;
  message_to_fd : gmap string FileDescriptorProto.t
}.

(** [d[k] = v] on a dict kept in insertion order: a key already present
    keeps its place. *)
Fixpoint dict_set {V} (k : string) (v : V) (d : list (string * V)) : list (string * V) :=
  match d with
  | [] => [(k, v)]
  | (k', v') :: d' =>
      if decide (k = k') then (k, v) :: d' else (k', v') :: dict_set k v d'
  end.

(** The two indexes under construction: [(self.messages, self.message_to_fd)]. *)
Definition index : Type :=
  gmap string DescriptorProto.t * gmap string FileDescriptorProto.t.

Definition _add_enums (enums : list EnumDescriptorProto.t) (prefix : string)
    (_fd : FileDescriptorProto.t) (ix : index) : index :=
  foldl (λ ix enum,
           let to_fd := <[prefix +:+ EnumDescriptorProto.name enum := _fd]> ix.2 in
           (ix.1, <[prefix +:+ EnumDescriptorProto.name enum +:+ "Value" := _fd]> to_fd))
        ix enums.

Fixpoint _add_message (message : DescriptorProto.t) (prefix : string)
    (_fd : FileDescriptorProto.t) (ix : index) : index :=
  let ix := (<[prefix +:+ DescriptorProto.name message := message]> ix.1,
             <[prefix +:+ DescriptorProto.name message := _fd]> ix.2) in
  let sub_prefix := prefix +:+ DescriptorProto.name message +:+ "." in
  let ix := (fix _add_messages (messages : list DescriptorProto.t) (ix : index) : index :=
               match messages with
               | [] => ix
               | m :: messages' => _add_messages messages' (_add_message m sub_prefix _fd ix)
               end) (DescriptorProto.nested_type message) ix in
  _add_enums (DescriptorProto.enum_type message) sub_prefix _fd ix.

Definition _add_messages (messages : list DescriptorProto.t) (prefix : string)
    (_fd : FileDescriptorProto.t) (ix : index) : index :=
  foldl (λ ix message, _add_message message prefix _fd ix) ix messages.

(** [Descriptors.__init__]; [files[n]] raises [KeyError] for a file to
    generate that the request does not hold. *)
Definition __init__ (request : CodeGeneratorRequest.t) : result t :=
  let files : gmap string FileDescriptorProto.t :=
    foldl (λ files f, <[FileDescriptorProto.name f := f]> files) ∅
          (CodeGeneratorRequest.proto_file request) in
  let to_generate :=
    foldl (λ acc n,
             match acc with
             | Raise e => Raise e
             | Ok d => match files !! n with
                       | Some f => Ok (dict_set n f d)
                       | None => Raise (KeyError n)
                       end
             end)
          (Ok []) (CodeGeneratorRequest.file_to_generate request) in
  match to_generate with
  | Raise e => Raise e
  | Ok to_generate =>
      let ix :=
        foldl (λ ix fd,
                 let start_prefix :=
                   if bool_decide (FileDescriptorProto.package fd ≠ EmptyString)
                   then "." +:+ FileDescriptorProto.package fd +:+ "."
                   else "." in
                 let ix := _add_messages (FileDescriptorProto.message_type fd) start_prefix fd ix in
                 _add_enums (FileDescriptorProto.enum_type fd) start_prefix fd ix)
              (∅, ∅) (CodeGeneratorRequest.proto_file request) in
      Ok (mk files to_generate ix.1 ix.2)
  end.

End Descriptors.

(** ** [class PkgWriter] *)

Module PkgWriter.

Record t := mk {
  fd : FileDescriptorProto.t;
  descriptors : Descriptors.t;
  lines : list string;
  indent : string;
  imports : gmap string (gset (string * string));
  locals : gset string;
  builtin_vars : gset string;
  py2_builtin_vars : gset string
}.

Definition __init__ (fd : FileDescriptorProto.t) (descriptors : Descriptors.t) : t :=
  mk fd descriptors [] EmptyString ∅ ∅ ∅ ∅.

Definition set_lines (f : list string → list string) (w : t) : t :=
  mk (fd w) (descriptors w) (f (lines w)) (indent w) (imports w) (locals w)
     (builtin_vars w) (py2_builtin_vars w).
Definition set_indent (f : string → string) (w : t) : t :=
  mk (fd w) (descriptors w) (lines w) (f (indent w)) (imports w) (locals w)
     (builtin_vars w) (py2_builtin_vars w).
Definition set_imports
    (f : gmap string (gset (string * string)) → gmap string (gset (string * string)))
    (w : t) : t :=
  mk (fd w) (descriptors w) (lines w) (indent w) (f (imports w)) (locals w)
     (builtin_vars w) (py2_builtin_vars w).
Definition set_locals (f : gset string → gset string) (w : t) : t :=
  mk (fd w) (descriptors w) (lines w) (indent w) (imports w) (f (locals w))
     (builtin_vars w) (py2_builtin_vars w).
Definition set_builtin_vars (f : gset string → gset string) (w : t) : t :=
  mk (fd w) (descriptors w) (lines w) (indent w) (imports w) (locals w)
     (f (builtin_vars w)) (py2_builtin_vars w).
Definition set_py2_builtin_vars (f : gset string → gset string) (w : t) : t :=
  mk (fd w) (descriptors w) (lines w) (indent w) (imports w) (locals w)
     (builtin_vars w) (f (py2_builtin_vars w)).

(** A method of the writer: it returns a value and the writer as it left it,
    or raises. *)
Definition M (A : Type) : Type := t → result (A * t).

Definition ret {A} (a : A) : M A := λ w, Ok (a, w).
Definition bind {A B} (m : M A) (k : A → M B) : M B :=
  λ w, match m w with
       | Ok (a, w') => k a w'
       | Raise e => Raise e
       end.
Definition raise {A} (e : exn) : M A := λ _, Raise e.
Definition get : M t := λ w, Ok (w, w).
Definition modify (f : t → t) : M unit := λ w, Ok (tt, f w).

#[global] Instance M_ret : MRet M := @ret.
#[global] Instance M_bind : MBind M := λ A B k m, bind m k.

(** [for x in xs: body] *)
Fixpoint for_ {A} (xs : list A) (body : A → M unit) : M unit :=
  match xs with
  | [] => ret tt
  | x :: xs' => bind (body x) (λ _, for_ xs' body)
  end.

(** [d[k]] on a dict *)
Definition getitem {V} (d : gmap string V) (k : string) : M V :=
  match d !! k with
  | Some v => ret v
  | None => raise (KeyError k)
  end.

Definition assert (b : bool) (msg : string) : M unit :=
  if b then ret tt else raise (AssertionError msg).

Definition _import (path name : string) : M string :=
  let imp := Py.replace "/" "." path in
  let mangled_name := Py.replace "." "___" imp +:+ "___" +:+ name in
  _ ← modify (set_imports (λ imports,
         <[imp := default ∅ (imports !! imp) ∪ {[ (name, mangled_name) ]}]> imports));
  mret mangled_name.

Definition _import_message (name : string) : M string :=
  self ← get;
  message_fd ← getitem (Descriptors.message_to_fd (descriptors self)) name;
  _ ← assert (Py.endswith (FileDescriptorProto.name message_fd) ".proto") EmptyString;
  name ← (if bool_decide (FileDescriptorProto.package message_fd ≠ EmptyString) then
            let pfx := "." +:+ FileDescriptorProto.package message_fd +:+ "." in
            _ ← assert (Py.startswith name pfx) EmptyString;
            mret (Py.drop (String.length pfx) name)
          else
            _ ← assert (Py.startswith name ".") EmptyString;
            mret (Py.drop 1 name));
  if bool_decide (FileDescriptorProto.name message_fd = FileDescriptorProto.name (fd self))
  then mret (_mangle_message name)
  else
    let split := Py.split "." name in
    import_name ← _import
      (Py.replace "-" "_" (Py.drop_last 6 (FileDescriptorProto.name message_fd)) +:+ "_pb2")
      (default EmptyString (head split));
    let remains := Py.join "." (tail split) in
    if bool_decide (remains = EmptyString) then mret import_name
    else mret (import_name +:+ "." +:+ remains).

Definition _builtin (name : string) : M string :=
  _ ← (if bool_decide (name ∈ PY2_ONLY_BUILTINS)
       then modify (set_py2_builtin_vars (λ s, s ∪ {[ name ]}))
       else modify (set_builtin_vars (λ s, s ∪ {[ name ]})));
  mret (_mangle_builtin name).

(** [with self._indent(): body] *)
Definition _indent {A} (body : M A) : M A :=
  _ ← modify (set_indent (λ indent, indent +:+ "    "));
  r ← body;
  _ ← modify (set_indent (Py.drop_last 4));
  mret r.

Definition _write_line (line : string) (args : list string) : M unit :=
  if bool_decide (line = EmptyString)
  then modify (set_lines (λ lines, (lines ++ [line])%list))
  else modify (λ self, set_lines (λ lines, (lines ++ [indent self +:+ Py.format line args])%list) self).

Definition write_enum_values (enum : EnumDescriptorProto.t) (enum_full_name : string) : M unit :=
  for_ (EnumDescriptorProto.value enum) (λ val,
    if reserved (EnumValueDescriptorProto.name val) then mret tt
    else
      cast ← _import "typing" "cast";
      _write_line "{} = {}({}, {})"
        [EnumValueDescriptorProto.name val; cast; enum_full_name;
         pretty (EnumValueDescriptorProto.number val)]).

Definition write_module_attributes : M unit :=
  let l := _write_line in
  FileDescriptor ← _import "google.protobuf.descriptor" "FileDescriptor";
  _ ← l "DESCRIPTOR: {} = ..." [FileDescriptor];
  l EmptyString [].

(** [l[i]] on a list *)
Definition index {A} (l : list A) (i : nat) : M A :=
  match l !! i with
  | Some x => ret x
  | None => raise (IndexError "list index out of range")
  end.

Definition write_enums (enums : list EnumDescriptorProto.t) (prefix : string) : M unit :=
  let l := _write_line in
  for_ (filter (λ e, EnumDescriptorProto.name e ∉ PYTHON_RESERVED) enums) (λ enum,
    let enum_value_type := EnumDescriptorProto.name enum +:+ "Value" in
    NewType ← _import "typing" "NewType";
    b_int ← _builtin "int";
    _ ← l "{} = {}('{}', {})" [enum_value_type; NewType; enum_value_type; b_int];
    _ ← l "{} = {}" [_mangle_message enum_value_type; enum_value_type];
    let enum_value_full_type := prefix +:+ enum_value_type in
    _ ← l "{}: {}" [EnumDescriptorProto.name enum; "_" +:+ EnumDescriptorProto.name enum];
    _EnumTypeWrapper ← _import "google.protobuf.internal.enum_type_wrapper" "_EnumTypeWrapper";
    _ ← l "class {}({}[{}]):"
          ["_" +:+ EnumDescriptorProto.name enum; _EnumTypeWrapper; enum_value_full_type];
    _ ← _indent (
          EnumDescriptor ← _import "google.protobuf.descriptor" "EnumDescriptor";
          _ ← l "DESCRIPTOR: {} = ..." [EnumDescriptor];
          write_enum_values enum enum_value_full_type);
    _ ← write_enum_values enum enum_value_full_type;
    _ ← l "{} = {}" [_mangle_message (EnumDescriptorProto.name enum); EnumDescriptorProto.name enum];
    l EmptyString []).

Definition python_type (field : FieldDescriptorProto.t) : M string :=
  b_float ← _builtin "float";
  b_int ← _builtin "int";
  b_bool ← _builtin "bool";
  b_bytes ← _builtin "bytes";
  let mapping : gmap Z (M string) := list_to_map [
    (FieldDescriptorProto.TYPE_DOUBLE, mret b_float);
    (FieldDescriptorProto.TYPE_FLOAT, mret b_float);
    (FieldDescriptorProto.TYPE_INT64, mret b_int);
    (FieldDescriptorProto.TYPE_UINT64, mret b_int);
    (FieldDescriptorProto.TYPE_FIXED64, mret b_int);
    (FieldDescriptorProto.TYPE_SFIXED64, mret b_int);
    (FieldDescriptorProto.TYPE_SINT64, mret b_int);
    (FieldDescriptorProto.TYPE_INT32, mret b_int);
    (FieldDescriptorProto.TYPE_UINT32, mret b_int);
    (FieldDescriptorProto.TYPE_FIXED32, mret b_int);
    (FieldDescriptorProto.TYPE_SFIXED32, mret b_int);
    (FieldDescriptorProto.TYPE_SINT32, mret b_int);
    (FieldDescriptorProto.TYPE_BOOL, mret b_bool);
    (FieldDescriptorProto.TYPE_STRING, _import "typing" "Text");
    (FieldDescriptorProto.TYPE_BYTES, mret b_bytes);
    (FieldDescriptorProto.TYPE_ENUM,
       _import_message (FieldDescriptorProto.type_name field +:+ "Value"));
    (FieldDescriptorProto.TYPE_MESSAGE,
       _import_message (FieldDescriptorProto.type_name field));
    (FieldDescriptorProto.TYPE_GROUP,
       _import_message (FieldDescriptorProto.type_name field))
  ] in
  match mapping !! FieldDescriptorProto.type field with
  | None =>
      raise (AssertionError ("Unrecognized type: " +:+ pretty (FieldDescriptorProto.type field)))
  | Some thunk => thunk
  end.

(** The body of the loop over the scalar fields of a message. *)
Definition write_scalar_field (field : FieldDescriptorProto.t) : M unit :=
  let l := _write_line in
  if bool_decide (FieldDescriptorProto.label field = FieldDescriptorProto.LABEL_REPEATED) then
    container ← _import "google.protobuf.internal.containers" "RepeatedScalarFieldContainer";
    ty ← python_type field;
    l "{}: {}[{}] = ..." [FieldDescriptorProto.name field; container; ty]
  else
    ty ← python_type field;
    l "{}: {} = ..." [FieldDescriptorProto.name field; ty].

(** The body of the loop over the other fields: their getters. *)
Definition write_getter (field : FieldDescriptorProto.t) : M unit :=
  let l := _write_line in
  _ ← l "@property" [];
  _ ← (if bool_decide (FieldDescriptorProto.label field = FieldDescriptorProto.LABEL_REPEATED) then
         self ← get;
         msg ← getitem (Descriptors.messages (descriptors self))
                       (FieldDescriptorProto.type_name field);
         if MessageOptions.map_entry (DescriptorProto.options msg) then
           container ← _import "typing" "MutableMapping";
           key ← index (DescriptorProto.field msg) 0;
           key_ty ← python_type key;
           val ← index (DescriptorProto.field msg) 1;
           val_ty ← python_type val;
           l "def {}(self) -> {}[{}, {}]: ..."
             [FieldDescriptorProto.name field; container; key_ty; val_ty]
         else
           container ← _import "google.protobuf.internal.containers"
                               "RepeatedCompositeFieldContainer";
           ty ← python_type field;
           l "def {}(self) -> {}[{}]: ..." [FieldDescriptorProto.name field; container; ty]
       else
         ty ← python_type field;
         l "def {}(self) -> {}: ..." [FieldDescriptorProto.name field; ty]);
  l EmptyString [].

(** The body of the loop over the parameters of the constructor. *)
Definition write_init_arg (field : FieldDescriptorProto.t) : M unit :=
  let l := _write_line in
  if bool_decide (FieldDescriptorProto.label field = FieldDescriptorProto.LABEL_REPEATED) then
    self ← get;
    match Descriptors.messages (descriptors self) !! FieldDescriptorProto.type_name field with
    | Some msg =>
        if MessageOptions.map_entry (DescriptorProto.options msg) then
          Optional ← _import "typing" "Optional";
          Mapping ← _import "typing" "Mapping";
          key ← index (DescriptorProto.field msg) 0;
          key_ty ← python_type key;
          val ← index (DescriptorProto.field msg) 1;
          val_ty ← python_type val;
          l "{} : {}[{}[{}, {}]] = None,"
            [FieldDescriptorProto.name field; Optional; Mapping; key_ty; val_ty]
        else
          Optional ← _import "typing" "Optional";
          Iterable ← _import "typing" "Iterable";
          ty ← python_type field;
          l "{} : {}[{}[{}]] = None," [FieldDescriptorProto.name field; Optional; Iterable; ty]
    | None =>
        Optional ← _import "typing" "Optional";
        Iterable ← _import "typing" "Iterable";
        ty ← python_type field;
        l "{} : {}[{}[{}]] = None," [FieldDescriptorProto.name field; Optional; Iterable; ty]
    end
  else
    Optional ← _import "typing" "Optional";
    ty ← python_type field;
    l "{} : {}[{}] = None," [FieldDescriptorProto.name field; Optional; ty].

(** The attributes, getters and constructor of a message, from the
    comprehension that selects its fields to the end of [__init__]. *)
Definition write_fields (desc_field : list FieldDescriptorProto.t) : M unit :=
  let l := _write_line in
  let fields := filter (λ f, FieldDescriptorProto.name f ∉ PYTHON_RESERVED) desc_field in
  _ ← for_ (filter (λ f, is_scalar f) fields) write_scalar_field;
  _ ← l EmptyString [];
  _ ← for_ (filter (λ f, ¬ is_scalar f) fields) write_getter;
  _ ← l "def __init__(self," [];
  _indent (
    _ ← (if bool_decide (0 < List.length fields) then l "*," [] else mret tt);
    _ ← for_ fields write_init_arg;
    l ") -> None: ..." []).

Section hash_order.
Context `{HashOrder}.

(** The literal [u"{}",b"{}"] of a name, and its quoted form ["{}"]. *)
Definition literal_ub (name : string) : string :=
  Py.format ("u" +:+ dq +:+ "{}" +:+ dq +:+ ",b" +:+ dq +:+ "{}" +:+ dq) [name; name].
Definition literal_q (name : string) : string :=
  Py.format (dq +:+ "{}" +:+ dq) [name].

(** The three comprehensions of [write_stringly_typed_fields]. *)
Definition hf_fields_of (syntax : string) (desc : DescriptorProto.t) : list string :=
  FieldDescriptorProto.name <$>
    filter (λ f, is_Some (FieldDescriptorProto.oneof_index f)
                 ∨ (FieldDescriptorProto.label f ≠ FieldDescriptorProto.LABEL_REPEATED
                    ∧ (syntax ≠ "proto3"
                       ∨ FieldDescriptorProto.type f = FieldDescriptorProto.TYPE_MESSAGE)))
           (DescriptorProto.field desc).

Definition cf_fields_of (desc : DescriptorProto.t) : list string :=
  FieldDescriptorProto.name <$> DescriptorProto.field desc.

Definition wo_fields_of (desc : DescriptorProto.t) : gmap string (list string) :=
  foldl (λ (wo : gmap string (list string)) (io : nat * OneofDescriptorProto.t),
           <[OneofDescriptorProto.name io.2 :=
               FieldDescriptorProto.name <$>
                 filter (λ f, FieldDescriptorProto.oneof_index f = Some (Z.of_nat io.1))
                        (DescriptorProto.field desc)]> wo)
        ∅ (imap pair (DescriptorProto.oneof_decl desc)).

Definition write_stringly_typed_fields (desc : DescriptorProto.t) : M unit :=
  let l := _write_line in
  self ← get;
  let hf_fields := hf_fields_of (FileDescriptorProto.syntax (fd self)) desc in
  let cf_fields := cf_fields_of desc in
  let wo_fields := wo_fields_of desc in
  let hf_fields := (hf_fields ++ (dict_iter wo_fields).*1)%list in
  let cf_fields := (cf_fields ++ (dict_iter wo_fields).*1)%list in
  let hf_fields_text := Py.join "," (Py.sorted (literal_ub <$> hf_fields)) in
  let cf_fields_text := Py.join "," (Py.sorted (literal_ub <$> cf_fields)) in
  if bool_decide (hf_fields = [] ∧ cf_fields = [] ∧ wo_fields = ∅) then mret tt
  else
    _ ← (if bool_decide (hf_fields ≠ []) then
           Literal ← _import "typing_extensions" "Literal";
           b_bool ← _builtin "bool";
           l "def HasField(self, field_name: {}[{}]) -> {}: ..."
             [Literal; hf_fields_text; b_bool]
         else mret tt);
    _ ← (if bool_decide (cf_fields ≠ []) then
           Literal ← _import "typing_extensions" "Literal";
           l "def ClearField(self, field_name: {}[{}]) -> None: ..."
             [Literal; cf_fields_text]
         else mret tt);
    for_ (Py.sorted_items (dict_iter wo_fields)) (λ item,
      let wo_field := item.1 in
      let members := item.2 in
      _ ← (if bool_decide (1 < size wo_fields) then
             overload ← _import "typing" "overload";
             l "@{}" [overload]
           else mret tt);
      Literal ← _import "typing_extensions" "Literal";
      Literal' ← _import "typing_extensions" "Literal";
      l "def WhichOneof(self, oneof_group: {}[{}]) -> {}[{}]: ..."
        [Literal; literal_ub wo_field; Literal'; Py.join "," (literal_q <$> members)]).

(** The body of the loop of [write_messages], for one message; the inner
    [write_messages] is the call on the nested messages. *)
Fixpoint write_message (message_class prefix : string) (desc : DescriptorProto.t)
    {struct desc} : M unit :=
  let l := _write_line in
  _ ← modify (set_locals (λ s, s ∪ {[ DescriptorProto.name desc ]}));
  let qualified_name := prefix +:+ DescriptorProto.name desc in
  _ ← l "class {}({}):" [DescriptorProto.name desc; message_class];
  _ ← _indent (
        Descriptor ← _import "google.protobuf.descriptor" "Descriptor";
        _ ← l "DESCRIPTOR: {} = ..." [Descriptor];
        _ ← write_enums (DescriptorProto.enum_type desc) (qualified_name +:+ ".");
        _ ← (message_class ← _import "google.protobuf.message" "Message";
             (fix write_messages (messages : list DescriptorProto.t) : M unit :=
                match messages with
                | [] => ret tt
                | m :: messages' =>
                    bind (if reserved (DescriptorProto.name m) then ret tt
                          else write_message message_class (qualified_name +:+ ".") m)
                         (λ _, write_messages messages')
                end) (DescriptorProto.nested_type desc));
        _ ← write_fields (DescriptorProto.field desc);
        write_stringly_typed_fields desc);
  _ ← l "{} = {}" [_mangle_message (DescriptorProto.name desc); DescriptorProto.name desc];
  l EmptyString [].

Definition write_messages (messages : list DescriptorProto.t) (prefix : string) : M unit :=
  message_class ← _import "google.protobuf.message" "Message";
  for_ (filter (λ m, DescriptorProto.name m ∉ PYTHON_RESERVED) messages)
       (write_message message_class prefix).

Definition write_extensions (extensions : list FieldDescriptorProto.t) : M unit :=
  if bool_decide (extensions = []) then mret tt
  else
    let l := _write_line in
    field_descriptor_class ← _import "google.protobuf.descriptor" "FieldDescriptor";
    for_ extensions (λ extension,
      _ ← l "{}: {} = ..." [FieldDescriptorProto.name extension; field_descriptor_class];
      l EmptyString []).

Definition write_methods (service : ServiceDescriptorProto.t) (is_abstract : bool) : M unit :=
  let l := _write_line in
  let methods := filter (λ m, MethodDescriptorProto.name m ∉ PYTHON_RESERVED)
                        (ServiceDescriptorProto.method service) in
  _ ← (if bool_decide (methods = []) then l "pass" [] else mret tt);
  for_ methods (λ method,
    _ ← (if is_abstract then
           abstractmethod ← _import "abc" "abstractmethod";
           l "@{}" [abstractmethod]
         else mret tt);
    _ ← l "def {}(self," [MethodDescriptorProto.name method];
    _ ← _indent (
          RpcController ← _import "google.protobuf.service" "RpcController";
          _ ← l "rpc_controller: {}," [RpcController];
          request ← _import_message (MethodDescriptorProto.input_type method);
          _ ← l "request: {}," [request];
          Optional ← _import "typing" "Optional";
          Callable ← _import "typing" "Callable";
          response ← _import_message (MethodDescriptorProto.output_type method);
          l "done: {}[{}[[{}], None]]," [Optional; Callable; response]);
    Future ← _import "concurrent.futures" "Future";
    response ← _import_message (MethodDescriptorProto.output_type method);
    l ") -> {}[{}]: ..." [Future; response]).

Definition write_services (services : list ServiceDescriptorProto.t) : M unit :=
  let l := _write_line in
  for_ (filter (λ s, ServiceDescriptorProto.name s ∉ PYTHON_RESERVED) services) (λ service,
    Service ← _import "google.protobuf.service" "Service";
    ABCMeta ← _import "abc" "ABCMeta";
    _ ← l "class {}({}, metaclass={}):" [ServiceDescriptorProto.name service; Service; ABCMeta];
    _ ← _indent (write_methods service true);
    _ ← l "class {}({}):"
          [ServiceDescriptorProto.name service +:+ "_Stub"; ServiceDescriptorProto.name service];
    _indent (
      RpcChannel ← _import "google.protobuf.service" "RpcChannel";
      _ ← l "def __init__(self, rpc_channel: {}) -> None: ..." [RpcChannel];
      write_methods service false)).

Definition _output_type (method : MethodDescriptorProto.t) : M string :=
  result ← _import_message (MethodDescriptorProto.output_type method);
  if MethodDescriptorProto.server_streaming method then
    Generator ← _import "typing" "Generator";
    mret (Py.format "{}[{}, None, None]" [Generator; result])
  else mret result.

Definition write_grpc_methods (service : ServiceDescriptorProto.t) : M unit :=
  let l := _write_line in
  let methods := filter (λ m, MethodDescriptorProto.name m ∉ PYTHON_RESERVED)
                        (ServiceDescriptorProto.method service) in
  _ ← (if bool_decide (methods = []) then _ ← l "pass" []; l EmptyString [] else mret tt);
  for_ methods (λ method,
    abstractmethod ← _import "abc" "abstractmethod";
    _ ← l "@{}" [abstractmethod];
    _ ← l "def {}(self," [MethodDescriptorProto.name method];
    _ ← _indent (
          request ← _import_message (MethodDescriptorProto.input_type method);
          _ ← l "request: {}," [request];
          ServicerContext ← _import "grpc" "ServicerContext";
          l "context: {}," [ServicerContext]);
    output ← _output_type method;
    _ ← l ") -> {}: ..." [output];
    l EmptyString []).

Definition write_grpc_stub_methods (service : ServiceDescriptorProto.t) : M unit :=
  let l := _write_line in
  let methods := filter (λ m, MethodDescriptorProto.name m ∉ PYTHON_RESERVED)
                        (ServiceDescriptorProto.method service) in
  _ ← (if bool_decide (methods = []) then _ ← l "pass" []; l EmptyString [] else mret tt);
  for_ methods (λ method,
    _ ← l "def {}(self," [MethodDescriptorProto.name method];
    _ ← _indent (
          request ← _import_message (MethodDescriptorProto.input_type method);
          l "request: {}," [request]);
    output ← _output_type method;
    _ ← l ") -> {}: ..." [output];
    l EmptyString []).

Definition write_grpc_services (services : list ServiceDescriptorProto.t) : M unit :=
  let l := _write_line in
  self ← get;
  base ← index (Py.rsplit1 "/" (FileDescriptorProto.name (fd self))) 1;
  _ ← l "from .{} import *" [Py.replace "-" "_" (Py.drop_last 6 base) +:+ "_pb2"];
  for_ (filter (λ s, ServiceDescriptorProto.name s ∉ PYTHON_RESERVED) services) (λ service,
    ABCMeta ← _import "abc" "ABCMeta";
    _ ← l "class {}Servicer(metaclass={}):" [ServiceDescriptorProto.name service; ABCMeta];
    _ ← _indent (write_grpc_methods service);
    _ ← l EmptyString [];
    _ ← l "class {}Stub:" [ServiceDescriptorProto.name service];
    _ ← _indent (
          Channel ← _import "grpc" "Channel";
          _ ← l "def __init__(self, channel: {}) -> None: ..." [Channel];
          write_grpc_stub_methods service);
    l EmptyString []).

(** The import block of [write]: one group of lines per module. *)
Definition import_line (nm : string * string) : string :=
  Py.format "    {} as {}," [nm.1; nm.2].

Definition import_group (pkg_items : string * gset (string * string)) : list string :=
  [Py.format "from {} import (" [pkg_items.1]]
  ++ (import_line <$> Py.sorted_pairs (set_iter pkg_items.2))
  ++ [")" +:+ nl].

(** The list [imports] that [write] builds. *)
Definition import_lines (self : t) : list string :=
  (["import sys"]
   ++ mjoin (import_group <$> Py.sorted_items (dict_iter (imports self)))
   ++ [EmptyString])%list.

Definition write (self : t) : string :=
  let imports := import_lines self in
  let aliases :=
    (λ var, Py.format "{} = {}" [_mangle_builtin var; var])
      <$> Py.sorted (set_iter (builtin_vars self)) in
  let aliases :=
    if bool_decide (py2_builtin_vars self ≠ ∅) then
      (aliases ++ ["if sys.version_info < (3,):"]
       ++ ((λ var, Py.format "    {} = {}" [_mangle_builtin var; var])
             <$> Py.sorted (set_iter (py2_builtin_vars self))))%list
    else aliases in
  let aliases := if bool_decide (aliases ≠ []) then (aliases ++ [nl])%list else aliases in
  Py.join nl (imports ++ aliases ++ lines self)%list.

End hash_order.

End PkgWriter.

(** ** The two generators *)

Section generators.
Context `{HashOrder}.

(** One turn of the loop of [generate_mypy_stubs]: the entry added to
    [response.file]. *)
Definition generate_mypy_stub (name : string) (fd : FileDescriptorProto.t)
    (descriptors : Descriptors.t) : result CodeGeneratorResponse.File.t :=
  let pkg_writer := PkgWriter.__init__ fd descriptors in
  let body : PkgWriter.M unit :=
    _ ← PkgWriter.write_module_attributes;
    _ ← PkgWriter.write_enums (FileDescriptorProto.enum_type fd) EmptyString;
    _ ← PkgWriter.write_messages (FileDescriptorProto.message_type fd) EmptyString;
    _ ← PkgWriter.write_extensions (FileDescriptorProto.extension fd);
    _ ← (if FileOptions.py_generic_services (FileDescriptorProto.options fd)
         then PkgWriter.write_services (FileDescriptorProto.service fd)
         else mret tt);
    _ ← PkgWriter.assert (bool_decide (name = FileDescriptorProto.name fd)) EmptyString;
    PkgWriter.assert (Py.endswith (FileDescriptorProto.name fd) ".proto") EmptyString in
  match body pkg_writer with
  | Raise e => Raise e
  | Ok (_, pkg_writer) =>
      Ok (CodeGeneratorResponse.File.mk
            (Py.replace "." "/" (Py.replace "-" "_" (Py.drop_last 6 (FileDescriptorProto.name fd)))
               +:+ "_pb2.pyi")
            (HEADER +:+ PkgWriter.write pkg_writer))
  end.

Definition generate_mypy_grpc_stub (name : string) (fd : FileDescriptorProto.t)
    (descriptors : Descriptors.t) : result CodeGeneratorResponse.File.t :=
  let pkg_writer := PkgWriter.__init__ fd descriptors in
  let body : PkgWriter.M unit :=
    _ ← PkgWriter.write_grpc_services (FileDescriptorProto.service fd);
    _ ← PkgWriter.assert (bool_decide (name = FileDescriptorProto.name fd)) EmptyString;
    PkgWriter.assert (Py.endswith (FileDescriptorProto.name fd) ".proto") EmptyString in
  match body pkg_writer with
  | Raise e => Raise e
  | Ok (_, pkg_writer) =>
      Ok (CodeGeneratorResponse.File.mk
            (Py.replace "." "/" (Py.replace "-" "_" (Py.drop_last 6 (FileDescriptorProto.name fd)))
               +:+ "_pb2_grpc.pyi")
            (HEADER +:+ PkgWriter.write pkg_writer))
  end.

(** The loop over [descriptors.to_generate], adding to [response.file]; the
    report on [sys.stderr] that [quiet] silences is no part of the response. *)
Fixpoint generate_loop
    (one : string → FileDescriptorProto.t → Descriptors.t → result CodeGeneratorResponse.File.t)
    (items : list (string * FileDescriptorProto.t)) (descriptors : Descriptors.t)
    (response : CodeGeneratorResponse.t) : result CodeGeneratorResponse.t :=
  match items with
  | [] => Ok response
  | (name, fd) :: items' =>
      match one name fd descriptors with
      | Raise e => Raise e
      | Ok output =>
          generate_loop one items' descriptors
            (CodeGeneratorResponse.mk (CodeGeneratorResponse.file response ++ [output]))
      end
  end.

Definition generate_mypy_stubs (descriptors : Descriptors.t)
    (response : CodeGeneratorResponse.t) (quiet : bool) : result CodeGeneratorResponse.t :=
  generate_loop generate_mypy_stub (Descriptors.to_generate descriptors) descriptors response.

Definition generate_mypy_grpc_stubs (descriptors : Descriptors.t)
    (response : CodeGeneratorResponse.t) (quiet : bool) : result CodeGeneratorResponse.t :=
  generate_loop generate_mypy_grpc_stub (Descriptors.to_generate descriptors) descriptors response.

(** [main] and [grpc], between the parsing of the request and the
    serialisation of the response. *)
Definition main (request : CodeGeneratorRequest.t) : result CodeGeneratorResponse.t :=
  match Descriptors.__init__ request with
  | Raise e => Raise e
  | Ok descriptors =>
      generate_mypy_stubs descriptors (CodeGeneratorResponse.mk [])
        (Py.contains "quiet" (CodeGeneratorRequest.parameter request))
  end.

Definition grpc (request : CodeGeneratorRequest.t) : result CodeGeneratorResponse.t :=
  match Descriptors.__init__ request with
  | Raise e => Raise e
  | Ok descriptors =>
      generate_mypy_grpc_stubs descriptors (CodeGeneratorResponse.mk [])
        (Py.contains "quiet" (CodeGeneratorRequest.parameter request))
  end.

End generators.

(** * Properties *)

(** ** Text *)

Section text.
Implicit Types s t u : string.

Lemma text_app_cons c s t : String c s +:+ t = String c (s +:+ t).
Proof. reflexivity. Qed.

Lemma text_app_nil_l s : EmptyString +:+ s = s.
Proof. reflexivity. Qed.

Lemma text_app_nil_r s : s +:+ EmptyString = s.
Proof. induction s as [|c s IH]; [done|]. by rewrite text_app_cons, IH. Qed.

Lemma text_app_assoc s t u : (s +:+ t) +:+ u = s +:+ (t +:+ u).
Proof. induction s as [|c s IH]; [done|]. by rewrite !text_app_cons, IH. Qed.

Lemma text_length_app s t : String.length (s +:+ t) = String.length s + String.length t.
Proof. induction s as [|c s IH]; [done|]. rewrite text_app_cons. cbn. by rewrite IH. Qed.

Lemma text_take_app s t : Py.take (String.length s) (s +:+ t) = s.
Proof.
  induction s as [|c s IH]; [by destruct t|]. rewrite text_app_cons. cbn. by rewrite IH.
Qed.

Lemma text_drop_app s t : Py.drop (String.length s) (s +:+ t) = t.
Proof. induction s as [|c s IH]; [done|]. rewrite text_app_cons. by cbn. Qed.

Lemma text_take_drop n s : Py.take n s +:+ Py.drop n s = s.
Proof.
  revert s. induction n as [|n IH]; intros [|c s]; cbn; try done.
  by rewrite text_app_cons, IH.
Qed.

Lemma text_length_drop n s : String.length (Py.drop n s) = String.length s - n.
Proof. revert s. induction n as [|n IH]; intros [|c s]; cbn; auto with lia. Qed.

(** [s[:-n]] undoes [s + t] for a [t] of [n] characters. *)
Lemma drop_last_app s t : Py.drop_last (String.length t) (s +:+ t) = s.
Proof.
  unfold Py.drop_last. rewrite text_length_app.
  replace (String.length s + String.length t - String.length t)
    with (String.length s) by lia.
  apply text_take_app.
Qed.

Lemma endswith_app s t : Py.endswith (s +:+ t) t = true.
Proof.
  unfold Py.endswith. apply bool_decide_eq_true. rewrite text_length_app.
  replace (String.length s + String.length t - String.length t)
    with (String.length s) by lia.
  apply text_drop_app.
Qed.

(** A text that ends with [t] is its [s[:-len(t)]] followed by [t]. *)
Lemma endswith_inv s t :
  Py.endswith s t = true → s = Py.drop_last (String.length t) s +:+ t.
Proof.
  unfold Py.endswith, Py.drop_last. intros Hd%bool_decide_eq_true.
  pose proof (text_take_drop (String.length s - String.length t) s) as E.
  by rewrite Hd in E.
Qed.

Lemma text_app_inj_length s1 s2 t1 t2 :
  String.length s1 = String.length s2 → s1 +:+ t1 = s2 +:+ t2 → s1 = s2 ∧ t1 = t2.
Proof.
  revert s2. induction s1 as [|c s1 IH]; intros [|c2 s2] Hl Heq; cbn in *; try done.
  rewrite !text_app_cons in Heq. injection Heq as -> Heq. destruct (IH s2) as [-> ->]; auto.
Qed.

End text.

(** ** The writer's monad *)

Import PkgWriter.

Lemma run_bind {A B} (m : M A) (k : A → M B) (w : t) :
  (m ≫= k) w = match m w with
               | Ok (a, w') => k a w'
               | Raise e => Raise e
               end.
Proof. reflexivity. Qed.

Lemma run_ret {A} (a : A) (w : t) : (mret a : M A) w = Ok (a, w).
Proof. reflexivity. Qed.

Lemma run_for_nil {A} (body : A → M unit) (w : t) : for_ [] body w = Ok (tt, w).
Proof. reflexivity. Qed.

Lemma run_for_cons {A} (x : A) (xs : list A) (body : A → M unit) (w : t) :
  for_ (x :: xs) body w = match body x w with
                          | Ok (_, w') => for_ xs body w'
                          | Raise e => Raise e
                          end.
Proof. reflexivity. Qed.

(** What a run left behind, to evaluate a method on a given writer. *)
Definition succeeds {A} (r : result (A * t)) : bool :=
  match r with
  | Ok _ => true
  | Raise _ => false
  end.
Definition lines_of {A} (r : result (A * t)) : list string :=
  match r with
  | Ok (_, w) => lines w
  | Raise _ => []
  end.
Definition indent_of {A} (r : result (A * t)) : string :=
  match r with
  | Ok (_, w) => indent w
  | Raise _ => EmptyString
  end.

Lemma succeeds_run {A} (r : result (A * t)) :
  succeeds r = true →
  ∃ a w', r = Ok (a, w') ∧ lines w' = lines_of r ∧ indent w' = indent_of r.
Proof. destruct r as [[a w']|e]; [|done]. intros _. by exists a, w'. Qed.

(** The alias [_import] hands out. *)
Definition import_alias (path name : string) : string :=
  Py.replace "." "___" (Py.replace "/" "." path) +:+ "___" +:+ name.

(** What [_import] leaves in [self.imports]. *)
Definition import_record (path name : string)
    (imports : gmap string (gset (string * string))) : gmap string (gset (string * string)) :=
  <[Py.replace "/" "." path :=
      default ∅ (imports !! Py.replace "/" "." path) ∪ {[ (name, import_alias path name) ]}]>
    imports.

Lemma run_import path name w :
  _import path name w = Ok (import_alias path name, set_imports (import_record path name) w).
Proof. reflexivity. Qed.

Lemma run_builtin name w :
  _builtin name w =
    Ok (_mangle_builtin name,
        if bool_decide (name ∈ PY2_ONLY_BUILTINS)
        then set_py2_builtin_vars (λ s, s ∪ {[ name ]}) w
        else set_builtin_vars (λ s, s ∪ {[ name ]}) w).
Proof. unfold _builtin. rewrite run_bind. by case_bool_decide. Qed.

Lemma run_write_line line args w :
  _write_line line args w =
    Ok (tt, set_lines (λ lines, lines ++ [if bool_decide (line = EmptyString) then line
                                          else indent w +:+ Py.format line args]) w).
Proof. unfold _write_line. by case_bool_decide. Qed.

(** [_import_message] raises nothing but a [KeyError] and its plain
    assertions. *)
Lemma import_message_raises name w e :
  _import_message name w = Raise e →
  e = AssertionError EmptyString ∨ ∃ k, e = KeyError k.
Proof.
  unfold _import_message. rewrite run_bind. cbn.
  unfold getitem. destruct (_ !! name) as [message_fd|]; [|intros [= <-]; eauto].
  rewrite run_bind. cbn. rewrite run_bind. unfold assert at 1.
  destruct (Py.endswith _ _); [|intros [= <-]; eauto]. cbn.
  rewrite run_bind. case_bool_decide.
  - rewrite run_bind. unfold assert. destruct (Py.startswith _ _); [|intros [= <-]; eauto].
    cbn. case_bool_decide; [done|]. rewrite run_bind, run_import.
    by case_bool_decide.
  - rewrite run_bind. unfold assert. destruct (Py.startswith _ _); [|intros [= <-]; eauto].
    cbn. case_bool_decide; [done|]. rewrite run_bind, run_import.
    by case_bool_decide.
Qed.

(** ** The table of [python_type] *)

Section python_type_table.
Import FieldDescriptorProto.
Implicit Types (w : PkgWriter.t) (field : FieldDescriptorProto.t).

Definition float_tags : list Z := [TYPE_DOUBLE; TYPE_FLOAT].
Definition int_tags : list Z :=
  [TYPE_INT64; TYPE_UINT64; TYPE_FIXED64; TYPE_SFIXED64; TYPE_SINT64;
   TYPE_INT32; TYPE_UINT32; TYPE_FIXED32; TYPE_SFIXED32; TYPE_SINT32].
Definition scalar_tags : list Z :=
  float_tags ++ int_tags ++ [TYPE_BOOL; TYPE_STRING; TYPE_BYTES].
Definition type_tags : list Z :=
  scalar_tags ++ [TYPE_ENUM; TYPE_MESSAGE; TYPE_GROUP].

(** The writer once [python_type] has bound [b_float], [b_int], [b_bool] and
    [b_bytes]. *)
Definition after_builtins (w : PkgWriter.t) : PkgWriter.t :=
  set_builtin_vars (λ s, s ∪ {[ "bytes" ]})
    (set_builtin_vars (λ s, s ∪ {[ "bool" ]})
       (set_builtin_vars (λ s, s ∪ {[ "int" ]})
          (set_builtin_vars (λ s, s ∪ {[ "float" ]}) w))).

Lemma not_py2_only name :
  name ∈ ["float"; "int"; "bool"; "bytes"] → bool_decide (name ∈ PY2_ONLY_BUILTINS) = false.
Proof.
  intros Hin.
  repeat (apply elem_of_cons in Hin as [->|Hin]; [by vm_compute|]).
  by apply elem_of_nil in Hin.
Qed.

Lemma run_builtin_py3 name w :
  name ∈ ["float"; "int"; "bool"; "bytes"] →
  _builtin name w = Ok (_mangle_builtin name, set_builtin_vars (λ s, s ∪ {[ name ]}) w).
Proof. intros Hin. by rewrite run_builtin, not_py2_only. Qed.

(** [python_type] after its four first lines: the dispatch on the table. *)
Lemma python_type_dispatch field w :
  python_type field w =
    match (list_to_map [
      (TYPE_DOUBLE, mret "builtin___float");
      (TYPE_FLOAT, mret "builtin___float");
      (TYPE_INT64, mret "builtin___int");
      (TYPE_UINT64, mret "builtin___int");
      (TYPE_FIXED64, mret "builtin___int");
      (TYPE_SFIXED64, mret "builtin___int");
      (TYPE_SINT64, mret "builtin___int");
      (TYPE_INT32, mret "builtin___int");
      (TYPE_UINT32, mret "builtin___int");
      (TYPE_FIXED32, mret "builtin___int");
      (TYPE_SFIXED32, mret "builtin___int");
      (TYPE_SINT32, mret "builtin___int");
      (TYPE_BOOL, mret "builtin___bool");
      (TYPE_STRING, _import "typing" "Text");
      (TYPE_BYTES, mret "builtin___bytes");
      (TYPE_ENUM, _import_message (type_name field +:+ "Value"));
      (TYPE_MESSAGE, _import_message (type_name field));
      (TYPE_GROUP, _import_message (type_name field))
    ] : gmap Z (M string)) !! type field with
    | None => Raise (AssertionError ("Unrecognized type: " +:+ pretty (type field)))
    | Some thunk => thunk (after_builtins w)
    end.
Proof.
  unfold python_type.
  rewrite run_bind, run_builtin_py3 by set_solver.
  rewrite run_bind, run_builtin_py3 by set_solver.
  rewrite run_bind, run_builtin_py3 by set_solver.
  rewrite run_bind, run_builtin_py3 by set_solver.
  change (_mangle_builtin "float") with "builtin___float".
  change (_mangle_builtin "int") with "builtin___int".
  change (_mangle_builtin "bool") with "builtin___bool".
  change (_mangle_builtin "bytes") with "builtin___bytes".
  fold (after_builtins w).
  by destruct (_ !! type field).
Qed.

Ltac table_lookup Hty :=
  rewrite python_type_dispatch, Hty; unfold list_to_map; cbn [foldr fst snd];
  repeat (rewrite lookup_insert_ne by done); by rewrite lookup_insert_eq.

(** C5. [python_type] maps the fifteen scalar type tags to their fixed
    aliases and the enum, message and group tags to the imported type, and
    raises the assertion error "Unrecognized type" on exactly the other
    tags. *)
Theorem python_type_table (field : FieldDescriptorProto.t) (w : PkgWriter.t) :
  let ty := type field in
  let w4 := after_builtins w in
  (ty ∈ float_tags → python_type field w = Ok ("builtin___float", w4))
  ∧ (ty ∈ int_tags → python_type field w = Ok ("builtin___int", w4))
  ∧ (ty = TYPE_BOOL → python_type field w = Ok ("builtin___bool", w4))
  ∧ (ty = TYPE_STRING →
     python_type field w = Ok ("typing___Text", set_imports (import_record "typing" "Text") w4))
  ∧ (ty = TYPE_BYTES → python_type field w = Ok ("builtin___bytes", w4))
  ∧ (ty = TYPE_ENUM →
     python_type field w = _import_message (type_name field +:+ "Value") w4)
  ∧ (ty ∈ [TYPE_MESSAGE; TYPE_GROUP] →
     python_type field w = _import_message (type_name field) w4)
  ∧ (ty ∉ type_tags ↔
     python_type field w =
       Raise (AssertionError ("Unrecognized type: " +:+ pretty ty)))
  ∧ List.length scalar_tags = 15 ∧ NoDup type_tags.
Proof.
  intros ty w4. subst ty w4.
  assert (Hf : type field ∈ float_tags → python_type field w = Ok ("builtin___float", after_builtins w)).
  { unfold float_tags. intros Hin. 
    repeat (apply elem_of_cons in Hin as [Hin|Hin]; [table_lookup Hin|]).
    by apply elem_of_nil in Hin. }
  assert (Hi : type field ∈ int_tags → python_type field w = Ok ("builtin___int", after_builtins w)).
  { unfold int_tags. intros Hin. 
    repeat (apply elem_of_cons in Hin as [Hin|Hin]; [table_lookup Hin|]).
    by apply elem_of_nil in Hin. }
  assert (Hb : type field = TYPE_BOOL → python_type field w = Ok ("builtin___bool", after_builtins w)).
  { intros Hin. table_lookup Hin. }
  assert (Hs : type field = TYPE_STRING → python_type field w =
            Ok ("typing___Text", set_imports (import_record "typing" "Text") (after_builtins w))).
  { intros Hin. table_lookup Hin. }
  assert (Hy : type field = TYPE_BYTES → python_type field w = Ok ("builtin___bytes", after_builtins w)).
  { intros Hin. table_lookup Hin. }
  assert (He : type field = TYPE_ENUM → python_type field w =
            _import_message (type_name field +:+ "Value") (after_builtins w)).
  { intros Hin. table_lookup Hin. }
  assert (Hm : type field ∈ [TYPE_MESSAGE; TYPE_GROUP] → python_type field w =
            _import_message (type_name field) (after_builtins w)).
  { intros Hin. 
    repeat (apply elem_of_cons in Hin as [Hin|Hin]; [table_lookup Hin|]).
    by apply elem_of_nil in Hin. }
  repeat split; try done.
  - intros Hnot. rewrite python_type_dispatch.
    rewrite not_elem_of_list_to_map_1; [done|]. cbn. exact Hnot.
  - intros Hraise Hin. unfold type_tags, scalar_tags in Hin.
    rewrite !elem_of_app in Hin.
    destruct Hin as [[Hin|[Hin|Hin]]|Hin].
    + by rewrite Hf in Hraise.
    + by rewrite Hi in Hraise.
    + set_unfold. destruct Hin as [Hin|[Hin|[Hin|[]]]].
      * by rewrite Hb in Hraise.
      * by rewrite Hs in Hraise.
      * by rewrite Hy in Hraise.
    + set_unfold. destruct Hin as [Hin|[Hin|[Hin|[]]]].
      * rewrite He in Hraise by done.
        apply import_message_raises in Hraise as [?|[? ?]]; done.
      * rewrite Hm in Hraise by auto.
        apply import_message_raises in Hraise as [?|[? ?]]; done.
      * rewrite Hm in Hraise by auto.
        apply import_message_raises in Hraise as [?|[? ?]]; done.
  - assert (bool_decide (NoDup type_tags) = true) as Hd by (by vm_compute).
    by apply bool_decide_eq_true in Hd.
Qed.

End python_type_table.

(** ** The response: file names and the marker line *)

Lemma bind_Ok_inv {A B} (m : M A) (k : A → M B) w r :
  (m ≫= k) w = Ok r → ∃ a w', m w = Ok (a, w') ∧ k a w' = Ok r.
Proof. rewrite run_bind. destruct (m w) as [[a w']|e]; [eauto|done]. Qed.

Lemma assert_Ok_inv b msg w r : assert b msg w = Ok r → b = true ∧ r = (tt, w).
Proof. destruct b; cbn; [|done]. by intros [= <-]. Qed.

(** What both generators make of a file name, up to the suffix. *)
Definition stub_name (stem suffix : string) : string :=
  Py.replace "." "/" (Py.replace "-" "_" stem) +:+ suffix.

Definition is_stub_of (suffix : string) (item : string * FileDescriptorProto.t)
    (output : CodeGeneratorResponse.File.t) : Prop :=
  ∃ stem body,
    item.1 = FileDescriptorProto.name item.2
    ∧ FileDescriptorProto.name item.2 = stem +:+ ".proto"
    ∧ CodeGeneratorResponse.File.name output = stub_name stem suffix
    ∧ CodeGeneratorResponse.File.content output = HEADER +:+ body.

Section response.
Context `{HashOrder}.

Lemma generate_mypy_stub_name name fd descriptors output :
  generate_mypy_stub name fd descriptors = Ok output →
  is_stub_of "_pb2.pyi" (name, fd) output.
Proof.
  unfold generate_mypy_stub.
  cbv zeta.
  match goal with
  | |- match ?run with _ => _ end = _ → _ => destruct run as [[[] w]|e] eqn:Hbody
  end; [|done].
  intros [= <-].
  do 5 (apply bind_Ok_inv in Hbody as (? & ? & _ & Hbody)).
  apply bind_Ok_inv in Hbody as (? & ? & [Hname%bool_decide_eq_true _]%assert_Ok_inv & Hbody).
  apply assert_Ok_inv in Hbody as [Hproto%endswith_inv _].
  eexists _, _. cbn. split_and!; [done|exact Hproto|done..].
Qed.

Lemma generate_mypy_grpc_stub_name name fd descriptors output :
  generate_mypy_grpc_stub name fd descriptors = Ok output →
  is_stub_of "_pb2_grpc.pyi" (name, fd) output.
Proof.
  unfold generate_mypy_grpc_stub.
  cbv zeta.
  match goal with
  | |- match ?run with _ => _ end = _ → _ => destruct run as [[[] w]|e] eqn:Hbody
  end; [|done].
  intros [= <-].
  apply bind_Ok_inv in Hbody as (? & ? & _ & Hbody).
  apply bind_Ok_inv in Hbody as (? & ? & [Hname%bool_decide_eq_true _]%assert_Ok_inv & Hbody).
  apply assert_Ok_inv in Hbody as [Hproto%endswith_inv _].
  eexists _, _. cbn. split_and!; [done|exact Hproto|done..].
Qed.

Lemma generate_loop_outputs one (P : string * FileDescriptorProto.t → CodeGeneratorResponse.File.t → Prop)
    items descriptors response response' :
  (∀ name fd output, one name fd descriptors = Ok output → P (name, fd) output) →
  generate_loop one items descriptors response = Ok response' →
  ∃ outputs,
    CodeGeneratorResponse.file response' = CodeGeneratorResponse.file response ++ outputs
    ∧ Forall2 P items outputs.
Proof.
  intros Hone. revert response.
  induction items as [|[name fd] items IH]; intros response; cbn.
  - intros [= <-]. exists []. by rewrite (right_id_L [] (++)).
  - destruct (one name fd descriptors) as [output|e] eqn:Hout; [|done].
    intros (outputs & -> & Hall)%IH. exists (output :: outputs). cbn.
    rewrite <-(assoc_L (++)). split; [done|]. constructor; eauto.
Qed.

(** C7. Each entry that a generator adds to the response is named after its
    file: the name without its [.proto], hyphens turned into underscores and
    dots into slashes, then [_pb2.pyi] (general stubs) or [_pb2_grpc.pyi]
    (gRPC stubs); and its content starts with the one-line marker. *)
Theorem response_file_names (for_grpc : bool) (descriptors : Descriptors.t)
    (response response' : CodeGeneratorResponse.t) (quiet : bool) :
  (if for_grpc then generate_mypy_grpc_stubs descriptors response quiet
   else generate_mypy_stubs descriptors response quiet) = Ok response' →
  HEADER = "# @generated by generate_proto_mypy_stubs.py.  Do not edit!" +:+ nl
  ∧ ∃ outputs,
      CodeGeneratorResponse.file response' = CodeGeneratorResponse.file response ++ outputs
      ∧ Forall2 (is_stub_of (if for_grpc then "_pb2_grpc.pyi" else "_pb2.pyi"))
                (Descriptors.to_generate descriptors) outputs.
Proof.
  intros Hgen. split; [done|]. destruct for_grpc.
  - apply (generate_loop_outputs generate_mypy_grpc_stub _ _ descriptors response);
      [|exact Hgen].
    intros. by eapply generate_mypy_grpc_stub_name.
  - apply (generate_loop_outputs generate_mypy_stub _ _ descriptors response);
      [|exact Hgen].
    intros. by eapply generate_mypy_stub_name.
Qed.

End response.

(** ** The re-export line of the gRPC stubs *)

Lemma split_without c s :
  Py.contains (String c EmptyString) s = false → Py.split c s = [s].
Proof.
  induction s as [|a s IH]; [done|]. cbn.
  destruct (ascii_dec c a) as [->|Hne].
  - by destruct s.
  - intros Hs. cbn in Hs. rewrite IH by done.
    assert (Ascii.eqb a c = false) as ->; [|done].
    apply Ascii.eqb_neq. congruence.
Qed.

Lemma rsplit1_without c s :
  Py.contains (String c EmptyString) s = false → Py.rsplit1 c s = [s].
Proof. intros Hs. unfold Py.rsplit1. by rewrite split_without. Qed.

(** [write_grpc_services] takes item 1 of [fd.name.rsplit('/', 1)]: a file
    name with no slash has no such item. *)
Lemma write_grpc_services_without_directory services w :
  Py.contains "/" (FileDescriptorProto.name (fd w)) = false →
  write_grpc_services services w = Raise (IndexError "list index out of range").
Proof.
  intros Hs. unfold write_grpc_services. rewrite run_bind. cbn.
  by rewrite run_bind, rsplit1_without.
Qed.

Section grpc_reexport.
Context `{HashOrder}.

Lemma generate_mypy_grpc_stub_without_directory name fd descriptors :
  Py.contains "/" (FileDescriptorProto.name fd) = false →
  generate_mypy_grpc_stub name fd descriptors = Raise (IndexError "list index out of range").
Proof.
  intros Hs. unfold generate_mypy_grpc_stub. cbv zeta.
  by rewrite run_bind, write_grpc_services_without_directory.
Qed.

End grpc_reexport.

(** ** Sorting *)

Section orders.

#[global] Instance pair_le_po : PartialOrder Py.pair_le.
Proof.
  split; [split|].
  - intros [a b]. split; reflexivity.
  - intros [a1 b1] [a2 b2] [a3 b3] [Ha Hb] [Ha' Hb']; cbn in *. split; cbn.
    + by etrans.
    + intros Heq. subst a3.
      assert (a1 = a2) as Heq by (by apply (anti_symm String.le)).
      subst a2. etrans; [by apply Hb|by apply Hb'].
  - intros [a1 b1] [a2 b2] [Ha Hb] [Ha' Hb']; cbn in *.
    assert (a1 = a2) as -> by (by apply (anti_symm String.le)).
    f_equal. apply (anti_symm String.le); auto.
Qed.

#[global] Instance pair_le_total : Total Py.pair_le.
Proof.
  intros [a1 b1] [a2 b2]. unfold Py.pair_le; cbn.
  destruct (decide (a1 = a2)) as [->|Hne].
  - destruct (total String.le b1 b2); [left|right]; (split; [reflexivity|done]).
  - destruct (total String.le a1 a2); [left|right]; (split; [done|congruence]).
Qed.

#[global] Instance key_le_trans {V} : Transitive (@Py.key_le V).
Proof. intros x y z. unfold Py.key_le. apply transitivity. Qed.

#[global] Instance key_le_total {V} : Total (@Py.key_le V).
Proof. intros x y. unfold Py.key_le. apply total, _. Qed.

Lemma sorted_perm l1 l2 : l1 ≡ₚ l2 → Py.sorted l1 = Py.sorted l2.
Proof.
  intros Hp. apply (Sorted_unique String.le); [apply Sorted_merge_sort, _..|].
  unfold Py.sorted. by rewrite !merge_sort_Permutation.
Qed.

Lemma sorted_pairs_perm l1 l2 : l1 ≡ₚ l2 → Py.sorted_pairs l1 = Py.sorted_pairs l2.
Proof.
  intros Hp. apply (Sorted_unique Py.pair_le); [apply Sorted_merge_sort, _..|].
  unfold Py.sorted_pairs. by rewrite !merge_sort_Permutation.
Qed.

Lemma NoDup_fst_functional {V} (l : list (string * V)) k v1 v2 :
  NoDup l.*1 → (k, v1) ∈ l → (k, v2) ∈ l → v1 = v2.
Proof.
  induction l as [|[k' v'] l IH]; csimpl; intros Hnd Hin1 Hin2; [by inv Hin1|].
  apply NoDup_cons in Hnd as [Hnotin Hnd].
  apply elem_of_cons in Hin1 as [Hin1|Hin1], Hin2 as [Hin2|Hin2]; simplify_eq; auto.
  - destruct Hnotin. by apply (list_elem_of_fmap_2 fst _ (k', v2)).
  - destruct Hnotin. by apply (list_elem_of_fmap_2 fst _ (k', v1)).
Qed.

(** The items of a dict have distinct keys: their sorted list does not
    depend on the order they are found in. *)
Lemma sorted_items_perm {V} (l1 l2 : list (string * V)) :
  NoDup l1.*1 → l1 ≡ₚ l2 → Py.sorted_items l1 = Py.sorted_items l2.
Proof.
  intros Hnd Hp.
  apply (Sorted_unique_strong Py.key_le); [|apply Sorted_merge_sort, _..|].
  - unfold Py.sorted_items. intros [k1 v1] [k2 v2].
    rewrite !merge_sort_Permutation, <-Hp. unfold Py.key_le; cbn.
    intros Hin1 Hin2 Hle Hle'.
    assert (k1 = k2) as -> by (by apply (anti_symm String.le)).
    f_equal. by eapply (NoDup_fst_functional l1).
  - unfold Py.sorted_items. by rewrite !merge_sort_Permutation.
Qed.

Lemma sorted_items_keys {V} (l : list (string * V)) :
  Sorted String.le (Py.sorted_items l).*1.
Proof.
  apply (Sorted_fmap fst Py.key_le); [by intros ??|].
  apply Sorted_merge_sort, _.
Qed.

End orders.

(** ** Imports: [_import] and the import block of [write] *)

(** [n] requests of the same symbol in a row, and the aliases returned. *)
Fixpoint requests (n : nat) (path name : string) : M (list string) :=
  match n with
  | O => mret []
  | S n' =>
      alias ← _import path name;
      aliases ← requests n' path name;
      mret (alias :: aliases)
  end.

(** Every pair recorded under a module carries the alias that [_import]
    derives from the module and the symbol. *)
Definition imports_wf (w : t) : Prop :=
  ∀ imp items name mangled_name,
    imports w !! imp = Some items → (name, mangled_name) ∈ items →
    mangled_name = Py.replace "." "___" imp +:+ "___" +:+ name.

Lemma imports_wf_init fd descriptors : imports_wf (PkgWriter.__init__ fd descriptors).
Proof. intros imp items name mangled_name. cbn. by rewrite lookup_empty. Qed.

Lemma import_record_idemp path name imports :
  import_record path name (import_record path name imports) = import_record path name imports.
Proof.
  unfold import_record. rewrite lookup_insert_eq, insert_insert_eq. cbn.
  by rewrite <-(assoc_L (∪)), (idemp_L (∪)).
Qed.

Lemma set_imports_idemp path name w :
  set_imports (import_record path name) (set_imports (import_record path name) w)
  = set_imports (import_record path name) w.
Proof. unfold set_imports. cbn. by rewrite import_record_idemp. Qed.

(** A symbol already recorded: the request changes nothing. *)
Lemma import_record_present path name imports items :
  imports !! Py.replace "/" "." path = Some items →
  (name, import_alias path name) ∈ items →
  import_record path name imports = imports.
Proof.
  intros Hl Hin. unfold import_record. rewrite Hl. cbn.
  apply insert_id. rewrite Hl. f_equal. symmetry. rewrite (comm_L (∪)).
  by apply subseteq_union_1_L, singleton_subseteq_l.
Qed.

Lemma requests_run n path name w :
  requests (S n) path name w
  = Ok (replicate (S n) (import_alias path name), set_imports (import_record path name) w).
Proof.
  revert w. induction n as [|n IH]; intros w.
  - reflexivity.
  - change (requests (S (S n)) path name w)
      with (match requests (S n) path name (set_imports (import_record path name) w) with
            | Ok (aliases, w') => Ok (import_alias path name :: aliases, w')
            | Raise e => Raise e
            end).
    by rewrite IH, set_imports_idemp.
Qed.

Lemma import_wf path name w :
  imports_wf w → imports_wf (set_imports (import_record path name) w).
Proof.
  intros Hwf imp items n m. cbn. unfold import_record.
  destruct (decide (Py.replace "/" "." path = imp)) as [<-|Hne].
  - rewrite lookup_insert_eq. intros [= <-] [Hin|Hin%elem_of_singleton]%elem_of_union.
    + destruct (imports w !! _) as [items|] eqn:Hl; [|done]. by eapply Hwf.
    + by injection Hin as -> ->.
  - rewrite lookup_insert_ne by done. apply Hwf.
Qed.

Lemma import_line_eq name mangled_name :
  import_line (name, mangled_name) = "    " +:+ name +:+ " as " +:+ mangled_name +:+ ",".
Proof. reflexivity. Qed.

(** Within a module, the import line determines the symbol. *)
Lemma import_line_inj pfx name1 name2 :
  import_line (name1, pfx +:+ "___" +:+ name1) = import_line (name2, pfx +:+ "___" +:+ name2) →
  name1 = name2.
Proof.
  rewrite !import_line_eq. intros Heq%(inj (String.app "    ")).
  assert (String.length name1 = String.length name2) as Hlen.
  { apply (f_equal String.length) in Heq. rewrite !text_length_app in Heq. cbn in Heq. lia. }
  by apply text_app_inj_length in Heq as [-> _].
Qed.

Section import_block.
Context `{HashOrder}.

Lemma sorted_items_elem_of {V} (m : gmap string V) k v :
  (k, v) ∈ Py.sorted_items (dict_iter m) ↔ m !! k = Some v.
Proof.
  unfold Py.sorted_items. by rewrite merge_sort_Permutation, dict_iter_perm, elem_of_map_to_list.
Qed.

Lemma sorted_items_NoDup {V} (m : gmap string V) :
  NoDup (Py.sorted_items (dict_iter m)).*1.
Proof.
  unfold Py.sorted_items. rewrite merge_sort_Permutation, dict_iter_perm.
  apply NoDup_fst_map_to_list.
Qed.

Lemma sorted_pairs_elem_of (items : gset (string * string)) nm :
  nm ∈ Py.sorted_pairs (set_iter items) ↔ nm ∈ items.
Proof.
  unfold Py.sorted_pairs. by rewrite merge_sort_Permutation, set_iter_perm, elem_of_elements.
Qed.

Lemma sorted_pairs_NoDup (items : gset (string * string)) :
  NoDup (Py.sorted_pairs (set_iter items)).
Proof.
  unfold Py.sorted_pairs. rewrite merge_sort_Permutation, set_iter_perm.
  apply NoDup_elements.
Qed.

(** The line of a recorded symbol stands once in the group of its module. *)
Lemma import_group_line_once imp items name :
  (∀ n m, (n, m) ∈ items → m = Py.replace "." "___" imp +:+ "___" +:+ n) →
  (name, Py.replace "." "___" imp +:+ "___" +:+ name) ∈ items →
  let line := import_line (name, Py.replace "." "___" imp +:+ "___" +:+ name) in
  ∃ l1 l2, import_group (imp, items) = l1 ++ line :: l2 ∧ (line ∉ l1) ∧ (line ∉ l2).
Proof.
  intros Hwf Hin line. unfold import_group. cbn [fst snd].
  apply sorted_pairs_elem_of, list_elem_of_split in Hin as (p1 & p2 & Hsplit).
  pose proof (sorted_pairs_NoDup items) as Hnd. rewrite Hsplit in Hnd.
  apply NoDup_app in Hnd as (_ & Hp1 & [Hp2 _]%NoDup_cons).
  assert (Hother : ∀ nm, nm ∈ Py.sorted_pairs (set_iter items) →
            import_line nm = line → nm = (name, Py.replace "." "___" imp +:+ "___" +:+ name)).
  { intros [n m] Hnm%sorted_pairs_elem_of Hline. rewrite (Hwf _ _ Hnm) in Hline |- *.
    by apply import_line_inj in Hline as ->. }
  rewrite Hsplit in Hother |- *. rewrite fmap_app, fmap_cons.
  exists (Py.format "from {} import (" [imp] :: (import_line <$> p1)),
         ((import_line <$> p2) ++ [")" +:+ nl]).
  split; [by rewrite <-!(assoc_L (++))|]. split.
  - intros [Hfrom|(nm & Hline & Hnm)%list_elem_of_fmap]%elem_of_cons; [done|].
    apply (Hp1 nm); [done|]. rewrite (Hother nm) by set_solver. by left.
  - intros [(nm & Hline & Hnm)%list_elem_of_fmap|Hend%list_elem_of_singleton]%elem_of_app;
      [|done].
    destruct Hp2. rewrite <-(Hother nm) by set_solver. done.
Qed.

Lemma dict_iter_singleton {V} k (v : V) : dict_iter ({[ k := v ]} : gmap string V) = [(k, v)].
Proof. apply Permutation_singleton_r. by rewrite dict_iter_perm, map_to_list_singleton. Qed.

Lemma set_iter_singleton (nm : string * string) : set_iter ({[ nm ]} : gset (string * string)) = [nm].
Proof. apply Permutation_singleton_r. by rewrite set_iter_perm, elements_singleton. Qed.

(** The module that [write] renders for a writer that holds nothing but
    the import of one symbol. *)
Lemma write_one_import w path name :
  imports w = ∅ → builtin_vars w = ∅ → py2_builtin_vars w = ∅ → lines w = [] →
  write (set_imports (import_record path name) w)
  = "import sys" +:+ nl
    +:+ "from " +:+ Py.replace "/" "." path +:+ " import (" +:+ nl
    +:+ "    " +:+ name +:+ " as " +:+ import_alias path name +:+ "," +:+ nl
    +:+ ")" +:+ nl +:+ nl.
Proof.
  intros Himports Hvars Hpy2 Hlines. unfold write, import_lines. cbn [imports set_imports
    builtin_vars py2_builtin_vars lines]. rewrite Himports, Hvars, Hpy2, Hlines.
  unfold import_record. rewrite lookup_empty. cbn [default].
  rewrite (left_id_L ∅ (∪)), insert_empty, dict_iter_singleton.
  assert (set_iter (∅ : gset string) = []) as ->.
  { apply Permutation_nil_r. by rewrite set_iter_perm, elements_empty. }
  rewrite (bool_decide_eq_false_2 (∅ ≠ ∅)) by (by intros []).
  change (Py.sorted []) with (@nil string). cbn [fmap list_fmap].
  rewrite (bool_decide_eq_false_2 ([] ≠ [])) by (by intros []).
  change (Py.sorted_items [?x]) with [x]. cbn [fmap list_fmap mjoin list_join].
  unfold import_group. cbn [fst snd]. rewrite set_iter_singleton.
  change (Py.sorted_pairs [?x]) with [x]. cbn [fmap list_fmap app].
  rewrite import_line_eq.
  change (Py.format "from {} import (" [?m]) with ("from " +:+ m +:+ " import (").
  cbn [Py.join String.concat].
  by rewrite !text_app_assoc.
Qed.

(** C4. Requesting one symbol of one module again and again returns the
    same alias every time, derived from the module path and the symbol,
    and leaves the writer as the first request left it. The text that
    [write] renders then starts with the import block: [import sys], one
    group per module, the modules in ascending order, each group's symbols
    in ascending order, and the line of the requested symbol stands
    exactly once in the group of its module. On a new writer the rendered
    text is that one import, whatever the number of requests. *)
Theorem import_idempotent (w : PkgWriter.t) (path name : string) (n : nat) :
  imports_wf w →
  let imp := Py.replace "/" "." path in
  let alias := Py.replace "." "___" imp +:+ "___" +:+ name in
  let w1 := set_imports (import_record path name) w in
  let groups := Py.sorted_items (dict_iter (imports w1)) in
  requests (S n) path name w = Ok (replicate (S n) alias, w1)
  ∧ (∃ aliases,
       write w1 = Py.join nl ((["import sys"] ++ mjoin (import_group <$> groups) ++ [EmptyString])
                              ++ aliases ++ lines w1))
  ∧ Sorted String.le groups.*1 ∧ NoDup groups.*1
  ∧ (∀ g, g ∈ groups →
       ∃ symbols,
         import_group g = ["from " +:+ g.1 +:+ " import ("]
                          ++ ((λ nm, "    " +:+ nm.1 +:+ " as " +:+ nm.2 +:+ ",") <$> symbols)
                          ++ [")" +:+ nl]
         ∧ Sorted Py.pair_le symbols ∧ NoDup symbols
         ∧ ∀ nm, nm ∈ symbols ↔ nm ∈ g.2)
  ∧ (∃ items,
       (imp, items) ∈ groups ∧ (name, alias) ∈ items
       ∧ ∃ l1 l2, import_group (imp, items)
                  = l1 ++ ("    " +:+ name +:+ " as " +:+ alias +:+ ",") :: l2
                  ∧ (("    " +:+ name +:+ " as " +:+ alias +:+ ",") ∉ l1)
                  ∧ (("    " +:+ name +:+ " as " +:+ alias +:+ ",") ∉ l2))
  ∧ (imports w = ∅ → builtin_vars w = ∅ → py2_builtin_vars w = ∅ → lines w = [] →
     write w1 = "import sys" +:+ nl
                +:+ "from " +:+ imp +:+ " import (" +:+ nl
                +:+ "    " +:+ name +:+ " as " +:+ alias +:+ "," +:+ nl
                +:+ ")" +:+ nl +:+ nl).
Proof.
  intros Hwf imp alias w1 groups. split_and!.
  - apply requests_run.
  - eexists. reflexivity.
  - apply sorted_items_keys.
  - apply sorted_items_NoDup.
  - intros g _. exists (Py.sorted_pairs (set_iter g.2)). split_and!.
    + done.
    + apply Sorted_merge_sort, _.
    + apply sorted_pairs_NoDup.
    + apply sorted_pairs_elem_of.
  - exists (default ∅ (imports w !! imp) ∪ {[ (name, alias) ]}).
    assert (imports w1 !! imp = Some (default ∅ (imports w !! imp) ∪ {[ (name, alias) ]})) as Hl.
    { subst w1. cbn. unfold import_record. by rewrite lookup_insert_eq. }
    split_and!.
    + by apply sorted_items_elem_of.
    + set_solver.
    + apply import_group_line_once; [|set_solver].
      intros n' m' Hin. by eapply (import_wf path name w Hwf imp).
  - apply write_one_import.
Qed.

End import_block.

(** ** Lines emitted by a method *)

(** [runs i f d m a new]: run on a writer of indentation [i] for the file
    [f] and the index [d], the method [m] returns [a], appends the lines
    [new] and leaves indentation, file and index as they were. *)
Definition runs {A} (i : string) (f : FileDescriptorProto.t) (d : Descriptors.t)
    (m : M A) (a : A) (new : list string) : Prop :=
  ∀ w, indent w = i → fd w = f → descriptors w = d →
    ∃ w', m w = Ok (a, w') ∧ lines w' = lines w ++ new
          ∧ indent w' = i ∧ fd w' = f ∧ descriptors w' = d.

Section runs.
Context (i : string) (f : FileDescriptorProto.t) (d : Descriptors.t).

Lemma runs_ret {A} (a : A) : runs i f d (mret a) a [].
Proof. intros w ???. exists w. by rewrite (right_id_L [] (++)). Qed.

Lemma runs_bind {A B} (m : M A) (k : A → M B) a b n1 n2 :
  runs i f d m a n1 → runs i f d (k a) b n2 → runs i f d (m ≫= k) b (n1 ++ n2).
Proof.
  intros Hm Hk w Hi Hf Hd. destruct (Hm w Hi Hf Hd) as (w1 & Hrun & Hl & Hi1 & Hf1 & Hd1).
  destruct (Hk w1 Hi1 Hf1 Hd1) as (w2 & Hrun2 & Hl2 & ?).
  exists w2. rewrite run_bind, Hrun, Hrun2, Hl2, Hl. by rewrite (assoc_L (++)).
Qed.

Lemma runs_get {B} (k : t → M B) b n :
  (∀ w, indent w = i → fd w = f → descriptors w = d → runs i f d (k w) b n) →
  runs i f d (get ≫= k) b n.
Proof. intros Hk w Hi Hf Hd. rewrite run_bind. cbn. by apply Hk. Qed.

Lemma runs_import path name : runs i f d (_import path name) (import_alias path name) [].
Proof.
  intros w ???. rewrite run_import. eexists. split; [done|]. cbn.
  by rewrite (right_id_L [] (++)).
Qed.

Lemma runs_builtin name : runs i f d (_builtin name) (_mangle_builtin name) [].
Proof.
  intros w ???. rewrite run_builtin. eexists. split; [done|].
  case_bool_decide; cbn; by rewrite (right_id_L [] (++)).
Qed.

Lemma runs_write_line line args :
  runs i f d (_write_line line args) tt
    [if bool_decide (line = EmptyString) then line else i +:+ Py.format line args].
Proof. intros w <- ??. rewrite run_write_line. by eexists. Qed.

Lemma runs_for {A} (xs : list A) (body : A → M unit) (g : A → list string) :
  (∀ x, x ∈ xs → runs i f d (body x) tt (g x)) →
  runs i f d (for_ xs body) tt (mjoin (g <$> xs)).
Proof.
  induction xs as [|x xs IH]; intros Hbody.
  - apply (runs_ret tt).
  - change (for_ (x :: xs) body) with (body x ≫= λ _, for_ xs body).
    rewrite fmap_cons. cbn [mjoin list_join].
    apply runs_bind with tt; [apply Hbody; by left|].
    apply IH. intros. apply Hbody. by right.
Qed.

Lemma runs_if {A} (b : bool) (m1 m2 : M A) a n1 n2 :
  (b = true → runs i f d m1 a n1) → (b = false → runs i f d m2 a n2) →
  runs i f d (if b then m1 else m2) a (if b then n1 else n2).
Proof. destruct b; auto. Qed.

End runs.

Lemma runs_indent {A} i f d (body : M A) a new :
  runs (i +:+ "    ") f d body a new → runs i f d (_indent body) a new.
Proof.
  intros Hbody w Hi Hf Hd. unfold _indent. rewrite run_bind. cbn.
  destruct (Hbody (set_indent (λ indent, indent +:+ "    ") w)) as (w1 & Hrun & Hl & Hi1 & ? & ?);
    [by cbn; rewrite Hi|done..|].
  rewrite run_bind, Hrun, run_bind. cbn. eexists. split; [done|]. cbn.
  rewrite Hi1. split_and!; try done. apply (drop_last_app i "    ").
Qed.

(** ** The presence accessors: [write_stringly_typed_fields] *)

Section presence.
Context `{HashOrder}.

(** [hf_fields] and [cf_fields] once the oneof names are added, and the
    sorted literals that are joined into the two unions. *)
Definition hf_names (syntax : string) (desc : DescriptorProto.t) : list string :=
  hf_fields_of syntax desc ++ (dict_iter (wo_fields_of desc)).*1.
Definition cf_names (desc : DescriptorProto.t) : list string :=
  cf_fields_of desc ++ (dict_iter (wo_fields_of desc)).*1.
Definition hf_union (syntax : string) (desc : DescriptorProto.t) : list string :=
  Py.sorted (literal_ub <$> hf_names syntax desc).
Definition cf_union (desc : DescriptorProto.t) : list string :=
  Py.sorted (literal_ub <$> cf_names desc).

Definition has_field_line (i syntax : string) (desc : DescriptorProto.t) : string :=
  i +:+ "def HasField(self, field_name: typing_extensions___Literal["
    +:+ Py.join "," (hf_union syntax desc) +:+ "]) -> builtin___bool: ...".
Definition clear_field_line (i : string) (desc : DescriptorProto.t) : string :=
  i +:+ "def ClearField(self, field_name: typing_extensions___Literal["
    +:+ Py.join "," (cf_union desc) +:+ "]) -> None: ...".
Definition which_oneof_line (i : string) (item : string * list string) : string :=
  i +:+ "def WhichOneof(self, oneof_group: typing_extensions___Literal["
    +:+ literal_ub item.1 +:+ "]) -> typing_extensions___Literal["
    +:+ Py.join "," (literal_q <$> item.2) +:+ "]: ...".
Definition which_oneof_lines (i : string) (desc : DescriptorProto.t)
    (item : string * list string) : list string :=
  (if bool_decide (1 < size (wo_fields_of desc)) then [i +:+ "@typing___overload"] else [])
  ++ [which_oneof_line i item].

(** All that [write_stringly_typed_fields] writes. *)
Definition stringly_lines (i syntax : string) (desc : DescriptorProto.t) : list string :=
  (if bool_decide (hf_names syntax desc ≠ []) then [has_field_line i syntax desc] else [])
  ++ (if bool_decide (cf_names desc ≠ []) then [clear_field_line i desc] else [])
  ++ mjoin (which_oneof_lines i desc <$> Py.sorted_items (dict_iter (wo_fields_of desc))).

Lemma dict_iter_empty {V} : dict_iter (∅ : gmap string V) = [].
Proof. apply Permutation_nil_r. by rewrite dict_iter_perm, map_to_list_empty. Qed.

Lemma runs_write_stringly_typed_fields i f d desc :
  runs i f d (write_stringly_typed_fields desc) tt
       (stringly_lines i (FileDescriptorProto.syntax f) desc).
Proof.
  unfold write_stringly_typed_fields. apply runs_get. intros w Hi Hf Hd. cbv zeta.
  rewrite Hf. fold (hf_names (FileDescriptorProto.syntax f) desc). fold (cf_names desc).
  unfold stringly_lines. case_bool_decide as Hnone.
  - destruct Hnone as (-> & -> & ->). rewrite dict_iter_empty.
    rewrite !bool_decide_eq_false_2 by (by intros []). apply (runs_ret _ _ _ tt).
  - clear Hnone. apply runs_bind with tt.
    { case_bool_decide; [|apply (runs_ret _ _ _ tt)].
      eapply (runs_bind _ _ _ _ _ _ _ []); [apply runs_import|].
      eapply (runs_bind _ _ _ _ _ _ _ []); [apply runs_builtin|].
      apply runs_write_line. }
    apply runs_bind with tt.
    { case_bool_decide; [|apply (runs_ret _ _ _ tt)].
      eapply (runs_bind _ _ _ _ _ _ _ []); [apply runs_import|].
      apply runs_write_line. }
    apply runs_for. intros item _. unfold which_oneof_lines.
    apply runs_bind with tt.
    { case_bool_decide; [|apply (runs_ret _ _ _ tt)].
      eapply (runs_bind _ _ _ _ _ _ _ []); [apply runs_import|].
      apply runs_write_line. }
    eapply (runs_bind _ _ _ _ _ _ _ []); [apply runs_import|].
    eapply (runs_bind _ _ _ _ _ _ _ []); [apply runs_import|].
    apply runs_write_line.
Qed.

End presence.

Lemma literal_ub_eq name :
  literal_ub name = "u" +:+ dq +:+ name +:+ dq +:+ ",b" +:+ dq +:+ name +:+ dq.
Proof. reflexivity. Qed.

Lemma literal_q_eq name : literal_q name = dq +:+ name +:+ dq.
Proof. reflexivity. Qed.

#[global] Instance literal_ub_inj : Inj (=) (=) literal_ub.
Proof.
  intros n1 n2. rewrite !literal_ub_eq. intros Heq%(inj (String.app "u"))%(inj (String.app dq)).
  assert (String.length n1 = String.length n2) as Hlen.
  { apply (f_equal String.length) in Heq. rewrite !text_length_app in Heq. cbn in Heq. lia. }
  by apply text_app_inj_length in Heq as [-> _].
Qed.

Section oneofs.
Context (fields : list FieldDescriptorProto.t).

(** The dict comprehension of [wo_fields], over any list of oneofs. *)
Definition wo_fold (oneofs : list OneofDescriptorProto.t) : gmap string (list string) :=
  foldl (λ (wo : gmap string (list string)) (io : nat * OneofDescriptorProto.t),
           <[OneofDescriptorProto.name io.2 :=
               FieldDescriptorProto.name <$>
                 filter (λ f, FieldDescriptorProto.oneof_index f = Some (Z.of_nat io.1)) fields]> wo)
        ∅ (imap pair oneofs).

Lemma wo_fold_snoc oneofs o :
  wo_fold (oneofs ++ [o]) =
    <[OneofDescriptorProto.name o :=
        FieldDescriptorProto.name <$>
          filter (λ f, FieldDescriptorProto.oneof_index f = Some (Z.of_nat (List.length oneofs)))
                 fields]> (wo_fold oneofs).
Proof.
  unfold wo_fold. rewrite imap_app, foldl_app. cbn. by rewrite Nat.add_0_r.
Qed.

Lemma wo_fold_dom oneofs name :
  is_Some (wo_fold oneofs !! name) ↔ ∃ o, o ∈ oneofs ∧ OneofDescriptorProto.name o = name.
Proof.
  induction oneofs as [|o oneofs IH] using rev_ind.
  - unfold wo_fold. cbn. rewrite lookup_empty. split; [by intros []|].
    by intros (o & ?%elem_of_nil & _).
  - rewrite wo_fold_snoc, lookup_insert_is_Some, IH. setoid_rewrite elem_of_app.
    setoid_rewrite list_elem_of_singleton. split.
    + intros [Heq|[Hne (o' & Hin & Heq)]]; eauto.
    + intros (o' & [Hin| ->] & Heq); [|by left].
      destruct (decide (OneofDescriptorProto.name o = name)); [by left|right; eauto].
Qed.

Lemma wo_fold_lookup oneofs name members :
  wo_fold oneofs !! name = Some members →
  ∃ idx o, oneofs !! idx = Some o ∧ OneofDescriptorProto.name o = name
           ∧ members = FieldDescriptorProto.name <$>
               filter (λ f, FieldDescriptorProto.oneof_index f = Some (Z.of_nat idx)) fields.
Proof.
  induction oneofs as [|o oneofs IH] using rev_ind.
  - unfold wo_fold. cbn. by rewrite lookup_empty.
  - rewrite wo_fold_snoc.
    destruct (decide (OneofDescriptorProto.name o = name)) as [<-|Hne].
    + rewrite lookup_insert_eq. intros [= <-]. exists (List.length oneofs), o.
      by rewrite list_lookup_middle.
    + rewrite lookup_insert_ne by done. intros (idx & o' & Hl & ? & ?)%IH.
      exists idx, o'. split_and!; [|done..]. by apply lookup_app_l_Some.
Qed.

End oneofs.

Lemma wo_fields_of_fold desc :
  wo_fields_of desc = wo_fold (DescriptorProto.field desc) (DescriptorProto.oneof_decl desc).
Proof. reflexivity. Qed.

Section presence_unions.
Context `{HashOrder}.

Lemma wo_keys desc name :
  name ∈ (dict_iter (wo_fields_of desc)).*1
  ↔ ∃ o, o ∈ DescriptorProto.oneof_decl desc ∧ OneofDescriptorProto.name o = name.
Proof.
  rewrite <-wo_fold_dom, <-wo_fields_of_fold, dict_iter_perm, list_elem_of_fmap. split.
  - intros ([k v] & -> & Hin%elem_of_map_to_list). by exists v.
  - intros [v Hv]. exists (name, v). by rewrite elem_of_map_to_list.
Qed.

Lemma hf_union_elem_of syntax desc name :
  literal_ub name ∈ hf_union syntax desc ↔ name ∈ hf_names syntax desc.
Proof.
  unfold hf_union, Py.sorted. by rewrite merge_sort_Permutation, (list_elem_of_fmap_inj literal_ub).
Qed.

Lemma hf_union_nil syntax desc : hf_union syntax desc = [] ↔ hf_names syntax desc = [].
Proof.
  unfold hf_union, Py.sorted. split.
  - intros Hnil. pose proof (merge_sort_Permutation String.le (literal_ub <$> hf_names syntax desc)) as Hp.
    rewrite Hnil in Hp. apply Permutation_nil_l in Hp. symmetry in Hp.
    by apply fmap_nil_inv in Hp.
  - by intros ->.
Qed.

(** C3. The union of [HasField] holds the literal of a name exactly when
    the name is that of a field in a oneof, or of a field that is not
    repeated while the syntax is not proto3 or the field is a message, or
    is the name of a oneof of the message; every member is the pair of
    literals [u"name",b"name"]; and the line written is the accessor over
    that union. *)
Theorem has_field_union (desc : DescriptorProto.t) (w : PkgWriter.t) :
  let syntax := FileDescriptorProto.syntax (fd w) in
  let union := hf_union syntax desc in
  (∀ name,
     literal_ub name ∈ union ↔
       (∃ f, f ∈ DescriptorProto.field desc ∧ FieldDescriptorProto.name f = name
             ∧ (is_Some (FieldDescriptorProto.oneof_index f)
                ∨ (FieldDescriptorProto.label f ≠ FieldDescriptorProto.LABEL_REPEATED
                   ∧ (syntax ≠ "proto3"
                      ∨ FieldDescriptorProto.type f = FieldDescriptorProto.TYPE_MESSAGE))))
       ∨ (∃ o, o ∈ DescriptorProto.oneof_decl desc ∧ OneofDescriptorProto.name o = name))
  ∧ (∀ entry, entry ∈ union →
       ∃ name, entry = "u" +:+ dq +:+ name +:+ dq +:+ ",b" +:+ dq +:+ name +:+ dq)
  ∧ ∃ w' rest,
      write_stringly_typed_fields desc w = Ok (tt, w')
      ∧ lines w' = lines w
          ++ (if bool_decide (union ≠ [])
              then [indent w +:+ "def HasField(self, field_name: typing_extensions___Literal["
                      +:+ Py.join "," union +:+ "]) -> builtin___bool: ..."]
              else [])
          ++ rest.
Proof.
  intros syntax union. split_and!.
  - intros name. subst union. rewrite hf_union_elem_of. unfold hf_names.
    rewrite elem_of_app, wo_keys. apply or_iff_compat_r.
    unfold hf_fields_of. rewrite list_elem_of_fmap. split.
    + intros (f & -> & [Hf Hin]%list_elem_of_filter). eauto.
    + intros (f & Hin & <- & Hf). exists f. by rewrite list_elem_of_filter.
  - intros entry. subst union. unfold hf_union, Py.sorted.
    rewrite merge_sort_Permutation. intros (name & -> & _)%list_elem_of_fmap.
    by exists name.
  - destruct (runs_write_stringly_typed_fields (indent w) (fd w) (descriptors w) desc w)
      as (w' & Hrun & Hlines & _); [done..|].
    exists w'. eexists. split; [exact Hrun|]. rewrite Hlines. unfold stringly_lines.
    assert (bool_decide (union ≠ []) = bool_decide (hf_names syntax desc ≠ [])) as ->.
    { apply bool_decide_ext. subst union. by rewrite hf_union_nil. }
    reflexivity.
Qed.

End presence_unions.

(** ** The order of the unions *)

(** Every character of the name comes after the double quote: so it is for
    the letters, digits and underscores of a protobuf identifier. *)
Fixpoint above_quote (s : string) : Prop :=
  match s with
  | EmptyString => True
  | String c s' => (34 < N_of_ascii c)%N ∧ above_quote s'
  end.

Lemma compare_app_quote n1 n2 t1 t2 :
  above_quote n1 → above_quote n2 →
  String.compare (n1 +:+ String "034" t1) (n2 +:+ String "034" t2) =
    match String.compare n1 n2 with
    | Eq => String.compare t1 t2
    | c => c
    end.
Proof.
  revert n2. induction n1 as [|c1 n1 IH]; intros [|c2 n2];
    rewrite ?text_app_cons, ?text_app_nil_l; cbn.
  - done.
  - intros _ [Hc _]. unfold Ascii.compare.
    change (N_of_ascii "034") with 34%N.
    by apply N.compare_lt_iff in Hc as ->.
  - intros [Hc _] _. unfold Ascii.compare.
    change (N_of_ascii "034") with 34%N.
    by apply N.compare_gt_iff in Hc as ->.
  - intros [_ H1] [_ H2].
    destruct (Ascii.compare c1 c2); [|done..]. by apply IH.
Qed.

Lemma text_compare_refl s : String.compare s s = Eq.
Proof.
  induction s as [|c s IH]; cbn; [done|].
  unfold Ascii.compare. by rewrite N.compare_refl.
Qed.

(** On such names the literals are ordered as the names are. *)
Lemma literal_ub_compare n1 n2 :
  above_quote n1 → above_quote n2 →
  String.compare (literal_ub n1) (literal_ub n2) = String.compare n1 n2.
Proof.
  intros H1 H2. rewrite !literal_ub_eq.
  change (String.compare (n1 +:+ String "034" (",b" +:+ dq +:+ n1 +:+ dq))
                         (n2 +:+ String "034" (",b" +:+ dq +:+ n2 +:+ dq))
          = String.compare n1 n2).
  rewrite compare_app_quote by done.
  destruct (String.compare n1 n2) eqn:Hc; [|done..].
  apply String.compare_eq_iff in Hc as ->. apply text_compare_refl.
Qed.

Lemma literal_ub_le n1 n2 :
  above_quote n1 → above_quote n2 →
  String.le n1 n2 → String.le (literal_ub n1) (literal_ub n2).
Proof.
  intros H1 H2. unfold String.le, String.leb. by rewrite literal_ub_compare.
Qed.

Lemma Sorted_fmap_on {A B} (f : A → B) (R1 : relation A) (R2 : relation B)
    (P : A → Prop) (l : list A) :
  (∀ x y, P x → P y → R1 x y → R2 (f x) (f y)) →
  Forall P l → Sorted R1 l → Sorted R2 (f <$> l).
Proof.
  intros Hf HP Hs. induction Hs as [|x l Hs IH Hhd]; csimpl; [constructor|].
  apply Forall_cons in HP as [Hx HP]. constructor; [by apply IH|].
  destruct Hhd as [|y l' Hxy]; csimpl; constructor.
  apply Forall_cons in HP as [Hy _]. by apply Hf.
Qed.

(** Sorting the literals of such names lists the names in ascending
    order. *)
Lemma sorted_literals names :
  Forall above_quote names →
  Py.sorted (literal_ub <$> names) = literal_ub <$> Py.sorted names.
Proof.
  intros Hq. apply (Sorted_unique String.le).
  - apply Sorted_merge_sort, _.
  - apply (Sorted_fmap_on _ String.le _ above_quote).
    + apply literal_ub_le.
    + unfold Py.sorted. by rewrite merge_sort_Permutation.
    + apply Sorted_merge_sort, _.
  - unfold Py.sorted. by rewrite !merge_sort_Permutation.
Qed.

(** A message with a oneof [g] whose members are declared as [b], then
    [a]; the file it stands in. *)
Definition oneof_ba : DescriptorProto.t :=
  DescriptorProto.mk "M"
    [FieldDescriptorProto.mk "b" FieldDescriptorProto.LABEL_OPTIONAL
       FieldDescriptorProto.TYPE_INT32 EmptyString (Some 0%Z);
     FieldDescriptorProto.mk "a" FieldDescriptorProto.LABEL_OPTIONAL
       FieldDescriptorProto.TYPE_INT32 EmptyString (Some 0%Z)]
    [] [] [OneofDescriptorProto.mk "g"] (MessageOptions.mk false).

Definition oneof_ba_file : FileDescriptorProto.t :=
  FileDescriptorProto.mk "pkg/m.proto" "pkg" [oneof_ba] [] [] [] (FileOptions.mk false) "proto3".

Definition oneof_ba_request : CodeGeneratorRequest.t :=
  CodeGeneratorRequest.mk ["pkg/m.proto"] EmptyString [oneof_ba_file].

(** The writer of a file of a request, as [generate_mypy_stubs] makes it. *)
Definition writer_of (request : CodeGeneratorRequest.t) (fd : FileDescriptorProto.t) : PkgWriter.t :=
  match Descriptors.__init__ request with
  | Ok descriptors => PkgWriter.__init__ fd descriptors
  | Raise _ => PkgWriter.__init__ fd (Descriptors.mk ∅ [] ∅ ∅)
  end.

Section union_order.
Context `{HashOrder}.

Lemma cf_union_nil desc : cf_union desc = [] ↔ cf_names desc = [].
Proof.
  unfold cf_union, Py.sorted. split.
  - intros Hnil. pose proof (merge_sort_Permutation String.le (literal_ub <$> cf_names desc)) as Hp.
    rewrite Hnil in Hp. apply Permutation_nil_l in Hp. symmetry in Hp.
    by apply fmap_nil_inv in Hp.
  - by intros ->.
Qed.

(** C2, as the writer has it. The unions of [HasField] and [ClearField]
    list their literals in ascending order, which for names of letters,
    digits and underscores is the ascending order of the names, and the
    [WhichOneof] accessors come in ascending order of the group names; the
    union that a [WhichOneof] returns lists the members of the group in the
    order the message declares them. *)
Theorem presence_unions_order (desc : DescriptorProto.t) (w : PkgWriter.t) :
  let syntax := FileDescriptorProto.syntax (fd w) in
  let groups := Py.sorted_items (dict_iter (wo_fields_of desc)) in
  Sorted String.le (hf_union syntax desc)
  ∧ Sorted String.le (cf_union desc)
  ∧ (Forall above_quote (hf_names syntax desc) →
     hf_union syntax desc = literal_ub <$> Py.sorted (hf_names syntax desc))
  ∧ (Forall above_quote (cf_names desc) →
     cf_union desc = literal_ub <$> Py.sorted (cf_names desc))
  ∧ Sorted String.le groups.*1
  ∧ (∀ item, item ∈ groups →
       ∃ idx o, DescriptorProto.oneof_decl desc !! idx = Some o
                ∧ OneofDescriptorProto.name o = item.1
                ∧ item.2 = FieldDescriptorProto.name <$>
                    filter (λ f, FieldDescriptorProto.oneof_index f = Some (Z.of_nat idx))
                           (DescriptorProto.field desc))
  ∧ ∃ w',
      write_stringly_typed_fields desc w = Ok (tt, w')
      ∧ lines w' = lines w
          ++ (if bool_decide (hf_union syntax desc ≠ [])
              then [indent w +:+ "def HasField(self, field_name: typing_extensions___Literal["
                      +:+ Py.join "," (hf_union syntax desc) +:+ "]) -> builtin___bool: ..."]
              else [])
          ++ (if bool_decide (cf_union desc ≠ [])
              then [indent w +:+ "def ClearField(self, field_name: typing_extensions___Literal["
                      +:+ Py.join "," (cf_union desc) +:+ "]) -> None: ..."]
              else [])
          ++ mjoin ((λ item : string * list string,
                       (if bool_decide (1 < size (wo_fields_of desc))
                        then [indent w +:+ "@typing___overload"] else [])
                       ++ [indent w
                             +:+ "def WhichOneof(self, oneof_group: typing_extensions___Literal["
                             +:+ literal_ub item.1 +:+ "]) -> typing_extensions___Literal["
                             +:+ Py.join "," (literal_q <$> item.2) +:+ "]: ..."])
                      <$> groups).
Proof.
  intros syntax groups. split_and!.
  - apply Sorted_merge_sort, _.
  - apply Sorted_merge_sort, _.
  - apply sorted_literals.
  - apply sorted_literals.
  - apply sorted_items_keys.
  - intros [g members] Hin%sorted_items_elem_of.
    rewrite wo_fields_of_fold in Hin. by apply wo_fold_lookup in Hin.
  - destruct (runs_write_stringly_typed_fields (indent w) (fd w) (descriptors w) desc w)
      as (w' & Hrun & Hlines & _); [done..|].
    exists w'. split; [exact Hrun|]. rewrite Hlines. unfold stringly_lines.
    assert (bool_decide (hf_union syntax desc ≠ []) = bool_decide (hf_names syntax desc ≠ [])) as ->.
    { apply bool_decide_ext. by rewrite hf_union_nil. }
    assert (bool_decide (cf_union desc ≠ []) = bool_decide (cf_names desc ≠ [])) as ->.
    { apply bool_decide_ext. by rewrite cf_union_nil. }
    reflexivity.
Qed.

End union_order.

(** The claim C2 fails on [WhichOneof]: for the oneof [g] declared over
    [b] then [a], the accessor returns the union of ["b"] then ["a"]. *)
Lemma which_oneof_union_unsorted :
  wo_fields_of oneof_ba !! "g" = Some ["b"; "a"]
  ∧ ¬ Sorted String.le ["b"; "a"]
  ∧ ∃ w',
      write_stringly_typed_fields (H := canonical_order) oneof_ba
        (writer_of oneof_ba_request oneof_ba_file) = Ok (tt, w')
      ∧ last (lines w')
        = Some ("def WhichOneof(self, oneof_group: typing_extensions___Literal[u"
                  +:+ dq +:+ "g" +:+ dq +:+ ",b" +:+ dq +:+ "g" +:+ dq
                  +:+ "]) -> typing_extensions___Literal["
                  +:+ dq +:+ "b" +:+ dq +:+ "," +:+ dq +:+ "a" +:+ dq +:+ "]: ...").
Proof.
  split_and!.
  - by vm_compute.
  - assert (bool_decide (Sorted String.le ["b"; "a"]) = false) as Hd by (by vm_compute).
    by apply bool_decide_eq_false in Hd.
  - destruct (succeeds_run
                (write_stringly_typed_fields (H := canonical_order) oneof_ba
                   (writer_of oneof_ba_request oneof_ba_file)))
      as ([] & w' & Hrun & Hl & _); [vm_compute; reflexivity|].
    exists w'. split; [done|]. rewrite Hl. vm_compute. reflexivity.
Qed.

(** ** Reserved words *)









(** ** Type expressions do not depend on what was written before *)

Definition value_of {A} (r : result (A * t)) : result A :=
  match r with
  | Ok (a, _) => Ok a
  | Raise e => Raise e
  end.

(** The expression [python_type] returns in a writer of the file [f] over
    the index [d]. *)
Definition type_expr (f : FileDescriptorProto.t) (d : Descriptors.t)
    (field : FieldDescriptorProto.t) : result string :=
  value_of (python_type field (PkgWriter.__init__ f d)).

(** A method whose value depends on the file and the index alone, and that
    writes no line. *)
Definition pure_in {A} (m : M A) : Prop :=
  ∀ w,
    value_of (m w) = value_of (m (PkgWriter.__init__ (fd w) (descriptors w)))
    ∧ ∀ a w', m w = Ok (a, w') →
        lines w' = lines w ∧ indent w' = indent w
        ∧ fd w' = fd w ∧ descriptors w' = descriptors w.

Lemma pure_in_ret {A} (a : A) : pure_in (mret a).
Proof. intros w. split; [done|]. by intros ?? [= <- <-]. Qed.

Lemma pure_in_raise {A} e : pure_in (raise e : M A).
Proof. intros w. by split. Qed.

Lemma pure_in_bind {A B} (m : M A) (k : A → M B) :
  pure_in m → (∀ a, pure_in (k a)) → pure_in (m ≫= k).
Proof.
  intros Hm Hk w. destruct (Hm w) as [Hv Hframe]. rewrite !run_bind.
  destruct (m w) as [[a w1]|e] eqn:Hw;
    destruct (m (PkgWriter.__init__ _ _)) as [[a0 w0]|e0] eqn:Hw0; cbn in Hv; simplify_eq.
  - destruct (Hframe _ _ eq_refl) as (Hl & Hi & Hf & Hd).
    destruct (Hm (PkgWriter.__init__ (fd w) (descriptors w))) as [_ Hframe0].
    destruct (Hframe0 _ _ Hw0) as (_ & _ & Hf0 & Hd0). cbn in Hf0, Hd0.
    destruct (Hk a0 w1) as [Hv1 Hframe1]. destruct (Hk a0 w0) as [Hv0 _].
    split.
    + by rewrite Hv1, Hv0, Hf, Hd, Hf0, Hd0.
    + intros b w' Hrun. destruct (Hframe1 _ _ Hrun) as (? & ? & ? & ?).
      split_and!; congruence.
  - by split.
Qed.

Lemma pure_in_get {B} (k : t → M B) :
  (∀ s, pure_in (k s)) →
  (∀ s1 s2 w, fd s1 = fd s2 → descriptors s1 = descriptors s2 → k s1 w = k s2 w) →
  pure_in (get ≫= k).
Proof.
  intros Hk Hext w. rewrite !run_bind. cbn. destruct (Hk w w) as [Hv Hframe].
  split; [|done]. rewrite Hv. f_equal. by apply Hext.
Qed.

Lemma pure_in_if {A} (b : bool) (m1 m2 : M A) :
  pure_in m1 → pure_in m2 → pure_in (if b then m1 else m2).
Proof. by destruct b. Qed.

Lemma pure_in_import path name : pure_in (_import path name).
Proof. intros w. rewrite !run_import. split; [done|]. by intros ?? [= <- <-]. Qed.

Lemma pure_in_builtin name : pure_in (_builtin name).
Proof.
  intros w. rewrite !run_builtin. split; [done|]. intros ?? [= <- <-].
  by case_bool_decide.
Qed.

Lemma pure_in_assert b msg : pure_in (assert b msg).
Proof. destruct b; [apply (pure_in_ret tt)|apply pure_in_raise]. Qed.

Lemma pure_in_getitem {V} (dict : gmap string V) k : pure_in (getitem dict k).
Proof. unfold getitem. destruct (dict !! k); [apply pure_in_ret|apply pure_in_raise]. Qed.

Lemma pure_in_index {V} (l : list V) n : pure_in (index l n).
Proof. unfold index. destruct (l !! n); [apply pure_in_ret|apply pure_in_raise]. Qed.

Lemma pure_in_import_message name : pure_in (_import_message name).
Proof.
  unfold _import_message. apply pure_in_get.
  - intros s. apply pure_in_bind; [apply pure_in_getitem|]. intros message_fd.
    apply pure_in_bind; [apply pure_in_assert|]. intros _.
    apply pure_in_bind.
    { case_bool_decide; (apply pure_in_bind; [apply pure_in_assert|]); intros _;
        apply pure_in_ret. }
    intros name'. case_bool_decide; [apply pure_in_ret|].
    apply pure_in_bind; [apply pure_in_import|]. intros import_name.
    case_bool_decide; apply pure_in_ret.
  - intros s1 s2 w Hf Hd. by rewrite Hf, Hd.
Qed.

Lemma pure_in_python_type field : pure_in (python_type field).
Proof.
  unfold python_type.
  do 4 (apply pure_in_bind; [apply pure_in_builtin|]; intros ?).
  destruct (_ !! FieldDescriptorProto.type field) as [thunk|] eqn:Hl;
    [|apply pure_in_raise].
  apply elem_of_list_to_map_2 in Hl.
  repeat (apply elem_of_cons in Hl as [[= _ ->]|Hl];
          [first [apply pure_in_ret|apply pure_in_import|apply pure_in_import_message]|]).
  by apply elem_of_nil in Hl.
Qed.

(** [python_type] is a function of the file, the index and the field. *)
Lemma python_type_runs i f d field ty :
  type_expr f d field = Ok ty → runs i f d (python_type field) ty [].
Proof.
  unfold type_expr. intros Hty w Hi Hf Hd.
  destruct (pure_in_python_type field w) as [Hv Hframe]. rewrite Hf, Hd, Hty in Hv.
  destruct (python_type field w) as [[ty' w']|e]; cbn in Hv; simplify_eq.
  exists w'. destruct (Hframe _ _ eq_refl) as (-> & ? & ? & ?).
  by rewrite (right_id_L [] (++)).
Qed.

Lemma python_type_raises f d field e w :
  type_expr f d field = Raise e → fd w = f → descriptors w = d →
  python_type field w = Raise e.
Proof.
  unfold type_expr. intros Hty Hf Hd.
  destruct (pure_in_python_type field w) as [Hv _]. rewrite Hf, Hd, Hty in Hv.
  by destruct (python_type field w) as [[ty' w']|e']; cbn in Hv; simplify_eq.
Qed.

(** ** Repeated fields: maps and sequences *)

Section containers.
Context (i : string) (f : FileDescriptorProto.t) (d : Descriptors.t).
Context (field : FieldDescriptorProto.t).
Context (Hrepeated : FieldDescriptorProto.label field = FieldDescriptorProto.LABEL_REPEATED).

Lemma runs_index {A} (l : list A) n x : l !! n = Some x → runs i f d (index l n) x [].
Proof. intros Hl. unfold index. rewrite Hl. apply runs_ret. Qed.

Lemma runs_getter_map msg key val rest key_ty val_ty :
  Descriptors.messages d !! FieldDescriptorProto.type_name field = Some msg →
  MessageOptions.map_entry (DescriptorProto.options msg) = true →
  DescriptorProto.field msg = key :: val :: rest →
  type_expr f d key = Ok key_ty → type_expr f d val = Ok val_ty →
  runs i f d (write_getter field) tt
    [i +:+ "@property";
     i +:+ "def " +:+ FieldDescriptorProto.name field
       +:+ "(self) -> typing___MutableMapping[" +:+ key_ty +:+ ", " +:+ val_ty +:+ "]: ...";
     EmptyString].
Proof.
  intros Hmsg Hmap Hfields Hkey Hval. unfold write_getter.
  eapply (runs_bind _ _ _ _ _ _ _ [_] [_; _]); [apply runs_write_line|].
  eapply (runs_bind _ _ _ _ _ _ _ [_] [_]); [|apply runs_write_line].
  rewrite bool_decide_eq_true_2 by done. apply runs_get. intros w Hi Hf Hd.
  rewrite Hd. unfold getitem. rewrite Hmsg.
  eapply (runs_bind _ _ _ _ _ _ _ [] [_]); [apply runs_ret|]. rewrite Hmap.
  eapply (runs_bind _ _ _ _ _ _ _ [] [_]); [apply runs_import|].
  eapply (runs_bind _ _ _ _ _ _ _ [] [_]); [apply runs_index; by rewrite Hfields|].
  eapply (runs_bind _ _ _ _ _ _ _ [] [_]); [by apply python_type_runs|].
  eapply (runs_bind _ _ _ _ _ _ _ [] [_]); [apply runs_index; by rewrite Hfields|].
  eapply (runs_bind _ _ _ _ _ _ _ [] [_]); [by apply python_type_runs|].
  apply runs_write_line.
Qed.

Lemma runs_init_arg_map msg key val rest key_ty val_ty :
  Descriptors.messages d !! FieldDescriptorProto.type_name field = Some msg →
  MessageOptions.map_entry (DescriptorProto.options msg) = true →
  DescriptorProto.field msg = key :: val :: rest →
  type_expr f d key = Ok key_ty → type_expr f d val = Ok val_ty →
  runs i f d (write_init_arg field) tt
    [i +:+ FieldDescriptorProto.name field
       +:+ " : typing___Optional[typing___Mapping[" +:+ key_ty +:+ ", " +:+ val_ty
       +:+ "]] = None,"].
Proof.
  intros Hmsg Hmap Hfields Hkey Hval. unfold write_init_arg.
  rewrite bool_decide_eq_true_2 by done. apply runs_get. intros w Hi Hf Hd.
  rewrite Hd, Hmsg, Hmap.
  eapply (runs_bind _ _ _ _ _ _ _ [] [_]); [apply runs_import|].
  eapply (runs_bind _ _ _ _ _ _ _ [] [_]); [apply runs_import|].
  eapply (runs_bind _ _ _ _ _ _ _ [] [_]); [apply runs_index; by rewrite Hfields|].
  eapply (runs_bind _ _ _ _ _ _ _ [] [_]); [by apply python_type_runs|].
  eapply (runs_bind _ _ _ _ _ _ _ [] [_]); [apply runs_index; by rewrite Hfields|].
  eapply (runs_bind _ _ _ _ _ _ _ [] [_]); [by apply python_type_runs|].
  apply runs_write_line.
Qed.

Lemma runs_getter_sequence msg ty :
  Descriptors.messages d !! FieldDescriptorProto.type_name field = Some msg →
  MessageOptions.map_entry (DescriptorProto.options msg) = false →
  type_expr f d field = Ok ty →
  runs i f d (write_getter field) tt
    [i +:+ "@property";
     i +:+ "def " +:+ FieldDescriptorProto.name field
       +:+ "(self) -> google___protobuf___internal___containers___RepeatedCompositeFieldContainer["
       +:+ ty +:+ "]: ...";
     EmptyString].
Proof.
  intros Hmsg Hmap Hty. unfold write_getter.
  eapply (runs_bind _ _ _ _ _ _ _ [_] [_; _]); [apply runs_write_line|].
  eapply (runs_bind _ _ _ _ _ _ _ [_] [_]); [|apply runs_write_line].
  rewrite bool_decide_eq_true_2 by done. apply runs_get. intros w Hi Hf Hd.
  rewrite Hd. unfold getitem. rewrite Hmsg.
  eapply (runs_bind _ _ _ _ _ _ _ [] [_]); [apply runs_ret|]. rewrite Hmap.
  eapply (runs_bind _ _ _ _ _ _ _ [] [_]); [apply runs_import|].
  eapply (runs_bind _ _ _ _ _ _ _ [] [_]); [by apply python_type_runs|].
  apply runs_write_line.
Qed.

Lemma runs_init_arg_sequence ty :
  (∀ msg, Descriptors.messages d !! FieldDescriptorProto.type_name field = Some msg →
          MessageOptions.map_entry (DescriptorProto.options msg) = false) →
  type_expr f d field = Ok ty →
  runs i f d (write_init_arg field) tt
    [i +:+ FieldDescriptorProto.name field
       +:+ " : typing___Optional[typing___Iterable[" +:+ ty +:+ "]] = None,"].
Proof.
  intros Hmsg Hty. unfold write_init_arg.
  rewrite bool_decide_eq_true_2 by done. apply runs_get. intros w Hi Hf Hd.
  rewrite Hd. destruct (_ !! FieldDescriptorProto.type_name field) as [msg|] eqn:Hl.
  - rewrite (Hmsg msg) by done.
    eapply (runs_bind _ _ _ _ _ _ _ [] [_]); [apply runs_import|].
    eapply (runs_bind _ _ _ _ _ _ _ [] [_]); [apply runs_import|].
    eapply (runs_bind _ _ _ _ _ _ _ [] [_]); [by apply python_type_runs|].
    apply runs_write_line.
  - eapply (runs_bind _ _ _ _ _ _ _ [] [_]); [apply runs_import|].
    eapply (runs_bind _ _ _ _ _ _ _ [] [_]); [apply runs_import|].
    eapply (runs_bind _ _ _ _ _ _ _ [] [_]); [by apply python_type_runs|].
    apply runs_write_line.
Qed.

Lemma runs_scalar_sequence ty :
  type_expr f d field = Ok ty →
  runs i f d (write_scalar_field field) tt
    [i +:+ FieldDescriptorProto.name field
       +:+ ": google___protobuf___internal___containers___RepeatedScalarFieldContainer["
       +:+ ty +:+ "] = ..."].
Proof.
  intros Hty. unfold write_scalar_field. rewrite bool_decide_eq_true_2 by done.
  eapply (runs_bind _ _ _ _ _ _ _ [] [_]); [apply runs_import|].
  eapply (runs_bind _ _ _ _ _ _ _ [] [_]); [by apply python_type_runs|].
  apply runs_write_line.
Qed.

End containers.

(** ** Indentation *)

(** A line written at indentation [i]: empty, or starting with [i]. *)
Definition indented (i line : string) : Prop :=
  line = EmptyString ∨ ∃ rest, line = i +:+ rest.

(** [w'] is [w] after a well-indented block: more lines, each at the
    indentation of [w] or deeper, and the indentation back where it was. *)
Definition extends (w w' : t) : Prop :=
  indent w' = indent w ∧ fd w' = fd w ∧ descriptors w' = descriptors w
  ∧ ∃ new, lines w' = lines w ++ new ∧ Forall (indented (indent w)) new.

Definition block {A} (m : M A) : Prop :=
  ∀ w a w', m w = Ok (a, w') → extends w w'.

Lemma extends_refl w : extends w w.
Proof. split_and!; try done. exists []. by rewrite (right_id_L [] (++)). Qed.

Lemma extends_trans w1 w2 w3 : extends w1 w2 → extends w2 w3 → extends w1 w3.
Proof.
  intros (Hi & Hf & Hd & new & Hl & Hnew) (Hi' & Hf' & Hd' & new' & Hl' & Hnew').
  split_and!; try congruence. exists (new ++ new').
  rewrite Hl', Hl, (assoc_L (++)). split; [done|]. rewrite Hi in Hnew'.
  by apply Forall_app.
Qed.

Lemma indented_deeper i more line : indented (i +:+ more) line → indented i line.
Proof.
  intros [->|[rest ->]]; [by left|]. right. exists (more +:+ rest).
  by rewrite text_app_assoc.
Qed.

Lemma block_ret {A} (a : A) : block (mret a).
Proof. intros w ?? [= <- <-]. apply extends_refl. Qed.

Lemma block_raise {A} e : block (raise e : M A).
Proof. by intros w ??. Qed.

Lemma block_bind {A B} (m : M A) (k : A → M B) :
  block m → (∀ a, block (k a)) → block (m ≫= k).
Proof.
  intros Hm Hk w b w'. rewrite run_bind.
  destruct (m w) as [[a w1]|e] eqn:Hw; [|done]. intros Hrun.
  eapply extends_trans; [by eapply Hm|by eapply Hk].
Qed.

Lemma block_get {B} (k : t → M B) : (∀ s, block (k s)) → block (get ≫= k).
Proof. intros Hk w b w'. rewrite run_bind. cbn. apply Hk. Qed.

Lemma block_if {A} (b : bool) (m1 m2 : M A) :
  block m1 → block m2 → block (if b then m1 else m2).
Proof. by destruct b. Qed.

Lemma block_ext {A} (m1 m2 : M A) : (∀ w, m1 w = m2 w) → block m1 → block m2.
Proof. intros Heq Hm w a w'. rewrite <-Heq. apply Hm. Qed.

Lemma block_pure {A} (m : M A) : pure_in m → block m.
Proof.
  intros Hm w a w' Hrun. destruct (Hm w) as [_ Hframe].
  destruct (Hframe _ _ Hrun) as (Hl & ? & ? & ?). split_and!; try done.
  exists []. by rewrite (right_id_L [] (++)).
Qed.

Lemma block_write_line line args : block (_write_line line args).
Proof.
  intros w [] w'. rewrite run_write_line. intros [= <-]. split_and!; try done.
  eexists. split; [done|]. apply Forall_singleton. unfold indented.
  case_bool_decide; eauto.
Qed.

Lemma block_for {A} (xs : list A) (body : A → M unit) :
  (∀ x, x ∈ xs → block (body x)) → block (for_ xs body).
Proof.
  induction xs as [|x xs IH]; intros Hbody; [apply (block_ret tt)|].
  change (for_ (x :: xs) body) with (body x ≫= λ _, for_ xs body).
  apply block_bind; [apply Hbody; by left|]. intros _. apply IH.
  intros. apply Hbody. by right.
Qed.

(** The lines of [with self._indent(): body] stand four spaces deeper, and
    the indentation is restored after them. *)
Lemma indent_run {A} (body : M A) w a w' :
  block body → _indent body w = Ok (a, w') →
  indent w' = indent w ∧ fd w' = fd w ∧ descriptors w' = descriptors w
  ∧ ∃ new, lines w' = lines w ++ new ∧ Forall (indented (indent w +:+ "    ")) new.
Proof.
  intros Hbody. unfold _indent. rewrite run_bind. cbn. rewrite run_bind.
  destruct (body _) as [[a1 w1]|e] eqn:Hrun; [|done]. rewrite run_bind. cbn.
  intros [= <- <-]. apply Hbody in Hrun as (Hi & Hf & Hd & new & Hl & Hnew).
  cbn in *. split_and!; try done.
  - rewrite Hi. apply (drop_last_app (indent w) "    ").
  - by exists new.
Qed.

Lemma block_indent {A} (body : M A) : block body → block (_indent body).
Proof.
  intros Hbody w a w' (Hi & Hf & Hd & new & Hl & Hnew)%indent_run; [|done].
  split_and!; try done. exists new. split; [done|].
  eapply Forall_impl; [exact Hnew|]. intros line. apply indented_deeper.
Qed.

Lemma block_get_self : block get.
Proof. intros w a w' [= <- <-]. apply extends_refl. Qed.

Lemma block_set_locals g : block (modify (set_locals g)).
Proof.
  intros w a w' [= <- <-]. split_and!; try done. exists [].
  by rewrite (right_id_L [] (++)).
Qed.

(** Walks through a method: binds, loops, branches and indented blocks,
    down to the calls. *)
Ltac block_leaf :=
  lazymatch goal with
  | |- block (mret _) => apply block_ret
  | |- block (ret _) => apply block_ret
  | |- block (raise _) => apply block_raise
  | |- block get => apply block_get_self
  | |- block (modify (set_locals _)) => apply block_set_locals
  | |- block (_write_line _ _) => apply block_write_line
  | |- block (_import _ _) => apply block_pure, pure_in_import
  | |- block (_builtin _) => apply block_pure, pure_in_builtin
  | |- block (_import_message _) => apply block_pure, pure_in_import_message
  | |- block (python_type _) => apply block_pure, pure_in_python_type
  | |- block (assert _ _) => apply block_pure, pure_in_assert
  | |- block (getitem _ _) => apply block_pure, pure_in_getitem
  | |- block (index _ _) => apply block_pure, pure_in_index
  end.

Ltac block_steps_with leaf :=
  repeat (cbv beta zeta; lazymatch goal with
    | |- block (_ ≫= _) => apply block_bind; [|intros ?]
    | |- block (_indent _) => apply block_indent
    | |- block (for_ _ _) => apply block_for; intros ? ?
    | |- block (if _ then _ else _) => apply block_if
    | |- block (match ?x with _ => _ end) => destruct x
    | |- block _ => first [block_leaf | leaf]
    end).

Ltac block_steps := block_steps_with fail.

Lemma block_write_enum_values enum enum_full_name :
  block (write_enum_values enum enum_full_name).
Proof. unfold write_enum_values. block_steps. Qed.

Lemma block_write_module_attributes : block write_module_attributes.
Proof. unfold write_module_attributes. block_steps. Qed.

Lemma block_write_enums enums prefix : block (write_enums enums prefix).
Proof.
  unfold write_enums. block_steps_with ltac:(apply block_write_enum_values).
Qed.

Lemma block_write_scalar_field field : block (write_scalar_field field).
Proof. unfold write_scalar_field. block_steps. Qed.

Lemma block_write_getter field : block (write_getter field).
Proof. unfold write_getter. block_steps. Qed.

Lemma block_write_init_arg field : block (write_init_arg field).
Proof. unfold write_init_arg. block_steps. Qed.

Lemma block_write_fields fields : block (write_fields fields).
Proof.
  unfold write_fields.
  block_steps_with ltac:(idtac; lazymatch goal with
                         | |- block (write_scalar_field _) => apply block_write_scalar_field
                         | |- block (write_getter _) => apply block_write_getter
                         | |- block (write_init_arg _) => apply block_write_init_arg
                         end).
Qed.

Lemma block_write_extensions extensions : block (write_extensions extensions).
Proof. unfold write_extensions. block_steps. Qed.

Lemma block_write_methods service is_abstract : block (write_methods service is_abstract).
Proof. unfold write_methods. block_steps. Qed.

Lemma block_write_services services : block (write_services services).
Proof. unfold write_services. block_steps_with ltac:(apply block_write_methods). Qed.

Lemma block_output_type method : block (_output_type method).
Proof. unfold _output_type. block_steps. Qed.

Lemma block_write_grpc_methods service : block (write_grpc_methods service).
Proof. unfold write_grpc_methods. block_steps_with ltac:(apply block_output_type). Qed.

Lemma block_write_grpc_stub_methods service : block (write_grpc_stub_methods service).
Proof.
  unfold write_grpc_stub_methods. block_steps_with ltac:(apply block_output_type).
Qed.

Lemma block_write_grpc_services services : block (write_grpc_services services).
Proof.
  unfold write_grpc_services.
  block_steps_with ltac:(idtac; lazymatch goal with
                         | |- block (write_grpc_methods _) => apply block_write_grpc_methods
                         | |- block (write_grpc_stub_methods _) =>
                             apply block_write_grpc_stub_methods
                         end).
Qed.

Section block_messages.
Context `{HashOrder}.

Lemma block_write_stringly_typed_fields desc : block (write_stringly_typed_fields desc).
Proof. unfold write_stringly_typed_fields. block_steps. Qed.

End block_messages.

(** ** Nested messages *)

(** Induction on a message with the hypothesis for its nested messages. *)
Lemma DescriptorProto_nested_ind (P : DescriptorProto.t → Prop) :
  (∀ desc, Forall P (DescriptorProto.nested_type desc) → P desc) →
  ∀ desc, P desc.
Proof.
  intros IH. fix rec 1. intros [name field nested enums oneofs options].
  apply IH. cbn. induction nested as [|m nested IHn]; constructor; [apply rec|apply IHn].
Qed.

Lemma bind_ext {A B} (m : M A) (k1 k2 : A → M B) w :
  (∀ a w', k1 a w' = k2 a w') → (m ≫= k1) w = (m ≫= k2) w.
Proof. intros Hk. rewrite !run_bind. by destruct (m w) as [[a w']|e]. Qed.

Lemma bind_ext_l {A B} (m1 m2 : M A) (k : A → M B) w :
  (∀ w', m1 w' = m2 w') → (m1 ≫= k) w = (m2 ≫= k) w.
Proof. intros Hm. by rewrite !run_bind, Hm. Qed.

Lemma indent_ext {A} (m1 m2 : M A) w :
  (∀ w', m1 w' = m2 w') → _indent m1 w = _indent m2 w.
Proof.
  intros Hm. unfold _indent. apply bind_ext. intros _ w1. by apply bind_ext_l.
Qed.

Lemma for_ext {A} (xs : list A) (body1 body2 : A → M unit) w :
  (∀ x w', x ∈ xs → body1 x w' = body2 x w') → for_ xs body1 w = for_ xs body2 w.
Proof.
  revert w. induction xs as [|x xs IH]; intros w Hbody; [done|].
  rewrite !run_for_cons, Hbody by (by left).
  destruct (body2 x w) as [[[] w']|e]; [|done]. apply IH. intros. apply Hbody. by right.
Qed.

Section nested.
Context `{HashOrder}.

(** The loop over the nested messages is the loop of [write_messages]. *)
Lemma nested_loop message_class prefix (body : string → string → DescriptorProto.t → M unit)
    messages w :
  (fix write_messages (messages : list DescriptorProto.t) : M unit :=
     match messages with
     | [] => ret tt
     | m :: messages' =>
         bind (if reserved (DescriptorProto.name m) then ret tt
               else body message_class prefix m)
              (λ _, write_messages messages')
     end) messages w
  = for_ (filter (λ m, DescriptorProto.name m ∉ PYTHON_RESERVED) messages)
         (body message_class prefix) w.
Proof.
  revert w. induction messages as [|m messages IH]; intros w; [done|].
  rewrite filter_cons. unfold reserved at 1.
  destruct (decide (DescriptorProto.name m ∉ PYTHON_RESERVED)) as [Hm|Hm].
  - rewrite bool_decide_eq_false_2 by done. rewrite run_for_cons. unfold bind at 1.
    destruct (body message_class prefix m w) as [[[] w']|e]; [apply IH|done].
  - rewrite bool_decide_eq_true_2 by (by destruct (decide (DescriptorProto.name m ∈ PYTHON_RESERVED))).
    unfold bind at 1. cbn. apply IH.
Qed.

(** [write_message] as the body of the loop of [write_messages] reads in
    the source: the nested messages are written by [write_messages] under
    the qualified name of the message. *)
Lemma write_message_eq message_class prefix desc w :
  write_message message_class prefix desc w =
    (let l := _write_line in
     _ ← modify (set_locals (λ s, s ∪ {[ DescriptorProto.name desc ]}));
     let qualified_name := prefix +:+ DescriptorProto.name desc in
     _ ← l "class {}({}):" [DescriptorProto.name desc; message_class];
     _ ← _indent (
           Descriptor ← _import "google.protobuf.descriptor" "Descriptor";
           _ ← l "DESCRIPTOR: {} = ..." [Descriptor];
           _ ← write_enums (DescriptorProto.enum_type desc) (qualified_name +:+ ".");
           _ ← write_messages (DescriptorProto.nested_type desc) (qualified_name +:+ ".");
           _ ← write_fields (DescriptorProto.field desc);
           write_stringly_typed_fields desc);
     _ ← l "{} = {}" [_mangle_message (DescriptorProto.name desc); DescriptorProto.name desc];
     l EmptyString []) w.
Proof.
  destruct desc as [name field nested enums oneofs options]. cbn [write_message]. cbv zeta.
  apply bind_ext. intros _ w1. apply bind_ext. intros _ w2. apply bind_ext_l. intros w3.
  apply indent_ext. intros w4. apply bind_ext. intros Descriptor w5.
  apply bind_ext. intros _ w6. apply bind_ext. intros _ w7. apply bind_ext_l. intros w8.
  unfold write_messages. apply bind_ext. intros mc w9. cbn [DescriptorProto.nested_type].
  apply (nested_loop mc _ write_message).
Qed.

Lemma block_write_message message_class prefix desc :
  block (write_message message_class prefix desc).
Proof.
  revert message_class prefix.
  induction desc as [desc IH] using DescriptorProto_nested_ind. intros message_class prefix.
  eapply block_ext; [intros w; symmetry; apply write_message_eq|].
  cbv zeta. apply block_bind; [apply block_set_locals|]. intros _.
  apply block_bind; [apply block_write_line|]. intros _.
  apply block_bind; [|intros _; apply block_bind; [apply block_write_line|]; intros _;
                      apply block_write_line].
  apply block_indent.
  apply block_bind; [apply block_pure, pure_in_import|]. intros Descriptor.
  apply block_bind; [apply block_write_line|]. intros _.
  apply block_bind; [apply block_write_enums|]. intros _.
  apply block_bind.
  { unfold write_messages. apply block_bind; [apply block_pure, pure_in_import|].
    intros mc. apply block_for. intros m [_ Hm]%list_elem_of_filter.
    rewrite Forall_forall in IH. by apply IH. }
  intros _. apply block_bind; [apply block_write_fields|]. intros _.
  apply block_write_stringly_typed_fields.
Qed.

Lemma block_write_messages messages prefix : block (write_messages messages prefix).
Proof.
  unfold write_messages. apply block_bind; [apply block_pure, pure_in_import|].
  intros mc. apply block_for. intros m _. apply block_write_message.
Qed.

End nested.

(** A message [Outer] with [Middle] nested in it and [Inner] in [Middle],
    [Inner] holding an enum [E]. *)
Definition inner_enum : EnumDescriptorProto.t :=
  EnumDescriptorProto.mk "E" [EnumValueDescriptorProto.mk "A" 0].
Definition inner_message : DescriptorProto.t :=
  DescriptorProto.mk "Inner" [] [] [inner_enum] [] (MessageOptions.mk false).
Definition middle_message : DescriptorProto.t :=
  DescriptorProto.mk "Middle" [] [inner_message] [] [] (MessageOptions.mk false).
Definition outer_message : DescriptorProto.t :=
  DescriptorProto.mk "Outer" [] [middle_message] [] [] (MessageOptions.mk false).
Definition nested_file : FileDescriptorProto.t :=
  FileDescriptorProto.mk "pkg/nested.proto" "pkg" [outer_message] [] [] []
    (FileOptions.mk false) "proto3".
Definition nested_request : CodeGeneratorRequest.t :=
  CodeGeneratorRequest.mk ["pkg/nested.proto"] EmptyString [nested_file].

Lemma mangle_message_eq name : _mangle_message name = "type___" +:+ name.
Proof.
  unfold _mangle_message.
  change (Py.format "type___{}" [name]) with ("type___" +:+ name +:+ EmptyString).
  by rewrite text_app_nil_r.
Qed.

Lemma mangle_builtin_eq name : _mangle_builtin name = "builtin___" +:+ name.
Proof.
  unfold _mangle_builtin.
  change (Py.format "builtin___{}" [name]) with ("builtin___" +:+ name +:+ EmptyString).
  by rewrite text_app_nil_r.
Qed.

Lemma format_alias a b : Py.format "{} = {}" [a; b] = a +:+ " = " +:+ b.
Proof.
  change (Py.format "{} = {}" [a; b]) with (a +:+ " = " +:+ b +:+ EmptyString).
  by rewrite text_app_nil_r.
Qed.

Section indentation.
Context `{HashOrder}.

(** The block of a message: its [class] line, its body four spaces deeper,
    and the alias that closes it. *)
Lemma write_message_block message_class prefix desc w w' :
  write_message message_class prefix desc w = Ok (tt, w') →
  indent w' = indent w
  ∧ ∃ body,
      lines w' = lines w
        ++ [indent w +:+ "class " +:+ DescriptorProto.name desc +:+ "(" +:+ message_class +:+ "):"]
        ++ body
        ++ [indent w +:+ "type___" +:+ DescriptorProto.name desc +:+ " = "
              +:+ DescriptorProto.name desc; EmptyString]
      ∧ Forall (indented (indent w +:+ "    ")) body.
Proof.
  rewrite write_message_eq. cbv zeta.
  intros (u & w1 & Hmod & Hrun)%bind_Ok_inv.
  unfold modify in Hmod. simplify_eq.
  apply bind_Ok_inv in Hrun as (u2 & w2 & Hhead & Hrun).
  rewrite run_write_line in Hhead. simplify_eq.
  apply bind_Ok_inv in Hrun as (u3 & w3 & Hbody & Hrun).
  apply indent_run in Hbody as (Hi & _ & _ & body & Hl & Hbody).
  2:{ apply block_bind; [apply block_pure, pure_in_import|]. intros Descriptor.
      apply block_bind; [apply block_write_line|]. intros _.
      apply block_bind; [apply block_write_enums|]. intros _.
      apply block_bind; [apply block_write_messages|]. intros _.
      apply block_bind; [apply block_write_fields|]. intros _.
      apply block_write_stringly_typed_fields. }
  apply bind_Ok_inv in Hrun as (u4 & w4 & Hfoot & Hrun).
  rewrite run_write_line in Hfoot. simplify_eq.
  rewrite run_write_line in Hrun. simplify_eq.
  cbn -[Py.format _mangle_message] in *. split; [done|]. exists body. split; [|done].
  rewrite Hl, Hi, text_app_nil_r, mangle_message_eq, text_app_assoc.
  by rewrite <-!(assoc_L (++)).
Qed.

(** C8. Messages, enums, services and constructors are written as blocks:
    their lines stand at the indentation they were entered with or deeper,
    and that indentation is back when they are done. A block under
    [_indent] stands exactly four spaces deeper. A message is its [class]
    line, a body four spaces deeper and its closing alias, whatever the
    depth; its nested messages are written under its qualified name. For
    [Inner] in [Middle] in [Outer], the class line stands at two levels,
    the body at three, and the enum of [Inner] is [Outer.Middle.Inner.E]. *)
Theorem indentation_scoped :
  (∀ messages prefix, block (write_messages messages prefix))
  ∧ (∀ enums prefix, block (write_enums enums prefix))
  ∧ (∀ services, block (write_services services))
  ∧ (∀ services, block (write_grpc_services services))
  ∧ (∀ fields, block (write_fields fields))
  ∧ (∀ A (body : M A) w a w',
       block body → _indent body w = Ok (a, w') →
       indent w' = indent w
       ∧ ∃ new, lines w' = lines w ++ new ∧ Forall (indented (indent w +:+ "    ")) new)
  ∧ (∀ message_class prefix desc w w',
       write_message message_class prefix desc w = Ok (tt, w') →
       indent w' = indent w
       ∧ ∃ body,
           lines w' = lines w
             ++ [indent w +:+ "class " +:+ DescriptorProto.name desc
                   +:+ "(" +:+ message_class +:+ "):"]
             ++ body
             ++ [indent w +:+ "type___" +:+ DescriptorProto.name desc +:+ " = "
                   +:+ DescriptorProto.name desc; EmptyString]
           ∧ Forall (indented (indent w +:+ "    ")) body)
  ∧ (∀ message_class prefix desc w,
       write_message message_class prefix desc w =
         (_ ← modify (set_locals (λ s, s ∪ {[ DescriptorProto.name desc ]}));
          _ ← _write_line "class {}({}):" [DescriptorProto.name desc; message_class];
          _ ← _indent (
                Descriptor ← _import "google.protobuf.descriptor" "Descriptor";
                _ ← _write_line "DESCRIPTOR: {} = ..." [Descriptor];
                _ ← write_enums (DescriptorProto.enum_type desc)
                      ((prefix +:+ DescriptorProto.name desc) +:+ ".");
                _ ← write_messages (DescriptorProto.nested_type desc)
                      ((prefix +:+ DescriptorProto.name desc) +:+ ".");
                _ ← write_fields (DescriptorProto.field desc);
                write_stringly_typed_fields desc);
          _ ← _write_line "{} = {}"
                [_mangle_message (DescriptorProto.name desc); DescriptorProto.name desc];
          _write_line EmptyString []) w)
  ∧ ∃ w',
      write_messages (H := canonical_order) [outer_message] EmptyString
        (writer_of nested_request nested_file) = Ok (tt, w')
      ∧ indent w' = EmptyString
      ∧ take 6 (lines w') =
          ["class Outer(google___protobuf___message___Message):";
           "    DESCRIPTOR: google___protobuf___descriptor___Descriptor = ...";
           "    class Middle(google___protobuf___message___Message):";
           "        DESCRIPTOR: google___protobuf___descriptor___Descriptor = ...";
           "        class Inner(google___protobuf___message___Message):";
           "            DESCRIPTOR: google___protobuf___descriptor___Descriptor = ..."]
      ∧ lines w' !! 9%nat =
          Some ("            class _E(google___protobuf___internal___"
                  +:+ "enum_type_wrapper____EnumTypeWrapper[Outer.Middle.Inner.EValue]):")
      ∧ drop 18 (lines w') =
          ["        type___Inner = Inner"; EmptyString; EmptyString;
           "        def __init__(self,"; "            ) -> None: ...";
           "    type___Middle = Middle"; EmptyString; EmptyString;
           "    def __init__(self,"; "        ) -> None: ...";
           "type___Outer = Outer"; EmptyString].
Proof.
  split_and!.
  - apply block_write_messages.
  - apply block_write_enums.
  - apply block_write_services.
  - apply block_write_grpc_services.
  - apply block_write_fields.
  - intros A body w a w' Hbody (? & _ & _ & ?)%indent_run; done.
  - apply write_message_block.
  - apply write_message_eq.
  - destruct (succeeds_run
                (write_messages (H := canonical_order) [outer_message] EmptyString
                   (writer_of nested_request nested_file)))
      as ([] & w' & Hrun & Hl & Hi); [vm_compute; reflexivity|].
    exists w'. rewrite Hl, Hi. split_and!; [done|vm_compute; reflexivity..].
Qed.

End indentation.

(** ** The output does not depend on the hash order *)

Section canonical.
Context (O : HashOrder).

Lemma dict_iter_canonical {V} (m : gmap string V) :
  Py.sorted_items (dict_iter (HashOrder := O) m) = Py.sorted_items (map_to_list m).
Proof.
  apply sorted_items_perm; [|apply dict_iter_perm].
  rewrite dict_iter_perm. apply NoDup_fst_map_to_list.
Qed.

Lemma set_iter_sorted (s : gset string) :
  Py.sorted (set_iter (HashOrder := O) s) = Py.sorted (elements s).
Proof. apply sorted_perm, set_iter_perm. Qed.

Lemma set_iter_sorted_pairs (s : gset (string * string)) :
  Py.sorted_pairs (set_iter (HashOrder := O) s) = Py.sorted_pairs (elements s).
Proof. apply sorted_pairs_perm, set_iter_perm. Qed.

Lemma keys_sorted {V} (m : gmap string V) (names : list string) :
  Py.sorted (literal_ub <$> names ++ (dict_iter (HashOrder := O) m).*1)
  = Py.sorted (literal_ub <$> names ++ (map_to_list m).*1).
Proof. apply sorted_perm. by rewrite dict_iter_perm. Qed.

Lemma keys_nil {V} (m : gmap string V) (names : list string) :
  names ++ (dict_iter (HashOrder := O) m).*1 = [] ↔ names ++ (map_to_list m).*1 = [].
Proof.
  split; intros Hnil; apply Permutation_nil_r; rewrite <-Hnil.
  - by rewrite dict_iter_perm.
  - by rewrite dict_iter_perm.
Qed.

Lemma write_stringly_typed_fields_canonical desc w :
  write_stringly_typed_fields (H := O) desc w
  = write_stringly_typed_fields (H := canonical_order) desc w.
Proof.
  unfold write_stringly_typed_fields. rewrite !run_bind. cbn [get]. cbv zeta.
  rewrite !keys_sorted, !dict_iter_canonical.
  rewrite (bool_decide_ext (hf_fields_of (FileDescriptorProto.syntax (fd w)) desc
                            ++ (dict_iter (wo_fields_of desc)).*1 ≠ []) 
             (hf_fields_of (FileDescriptorProto.syntax (fd w)) desc
                            ++ (map_to_list (wo_fields_of desc)).*1 ≠ []))
    by (by rewrite keys_nil).
  rewrite (bool_decide_ext (cf_fields_of desc ++ (dict_iter (wo_fields_of desc)).*1 ≠ [])
             (cf_fields_of desc ++ (map_to_list (wo_fields_of desc)).*1 ≠ []))
    by (by rewrite keys_nil).
  rewrite (bool_decide_ext
             (hf_fields_of (FileDescriptorProto.syntax (fd w)) desc
                ++ (dict_iter (wo_fields_of desc)).*1 = []
              ∧ cf_fields_of desc ++ (dict_iter (wo_fields_of desc)).*1 = []
              ∧ wo_fields_of desc = ∅)
             (hf_fields_of (FileDescriptorProto.syntax (fd w)) desc
                ++ (map_to_list (wo_fields_of desc)).*1 = []
              ∧ cf_fields_of desc ++ (map_to_list (wo_fields_of desc)).*1 = []
              ∧ wo_fields_of desc = ∅))
    by (by rewrite !keys_nil).
  reflexivity.
Qed.

Lemma write_message_canonical message_class prefix desc w :
  write_message (H := O) message_class prefix desc w
  = write_message (H := canonical_order) message_class prefix desc w.
Proof.
  revert message_class prefix w.
  induction desc as [desc IH] using DescriptorProto_nested_ind. intros message_class prefix w.
  rewrite !write_message_eq. cbv zeta.
  apply bind_ext. intros _ w1. apply bind_ext. intros _ w2. apply bind_ext_l. intros w3.
  apply indent_ext. intros w4. apply bind_ext. intros Descriptor w5.
  apply bind_ext. intros _ w6. apply bind_ext. intros _ w7.
  assert (Hnested : ∀ pfx w', write_messages (H := O) (DescriptorProto.nested_type desc) pfx w'
                      = write_messages (H := canonical_order)
                          (DescriptorProto.nested_type desc) pfx w').
  { intros pfx w'. unfold write_messages. apply bind_ext. intros mc w8. apply for_ext.
    intros m w9 [_ Hm]%list_elem_of_filter. rewrite Forall_forall in IH. by apply IH. }
  rewrite (bind_ext_l _ _ _ _ (Hnested _)).
  apply bind_ext. intros _ w8. apply bind_ext. intros _ w9.
  apply write_stringly_typed_fields_canonical.
Qed.

Lemma write_messages_canonical messages prefix w :
  write_messages (H := O) messages prefix w
  = write_messages (H := canonical_order) messages prefix w.
Proof.
  unfold write_messages. apply bind_ext. intros mc w1. apply for_ext.
  intros m w2 _. apply write_message_canonical.
Qed.

Lemma import_group_canonical g :
  import_group (H := O) g = import_group (H := canonical_order) g.
Proof. unfold import_group. by rewrite set_iter_sorted_pairs. Qed.

Lemma write_canonical w : write (H := O) w = write (H := canonical_order) w.
Proof.
  unfold write, import_lines. rewrite dict_iter_canonical, !set_iter_sorted.
  rewrite (list_fmap_ext (import_group (H := O)) (import_group (H := canonical_order)))
    by (intros; apply import_group_canonical).
  reflexivity.
Qed.

Lemma generate_mypy_stub_canonical name fd descriptors :
  generate_mypy_stub (H := O) name fd descriptors
  = generate_mypy_stub (H := canonical_order) name fd descriptors.
Proof.
  unfold generate_mypy_stub. cbv zeta.
  match goal with
  | |- match ?a with _ => _ end = match ?b with _ => _ end => assert (a = b) as ->
  end.
  { apply bind_ext. intros _ w1. apply bind_ext. intros _ w2. apply bind_ext_l. intros w3.
    apply write_messages_canonical. }
  match goal with
  | |- match ?b with _ => _ end = _ => destruct b as [[[] w]|e]
  end; [|done].
  by rewrite write_canonical.
Qed.

Lemma generate_mypy_grpc_stub_canonical name fd descriptors :
  generate_mypy_grpc_stub (H := O) name fd descriptors
  = generate_mypy_grpc_stub (H := canonical_order) name fd descriptors.
Proof.
  unfold generate_mypy_grpc_stub. cbv zeta.
  match goal with
  | |- match ?b with _ => _ end = _ => destruct b as [[[] w]|e]
  end; [|done].
  by rewrite write_canonical.
Qed.

Lemma generate_loop_ext one1 one2 items descriptors response :
  (∀ name fd, one1 name fd descriptors = one2 name fd descriptors) →
  generate_loop one1 items descriptors response = generate_loop one2 items descriptors response.
Proof.
  intros Hone. revert response. induction items as [|[name fd] items IH]; intros response.
  - done.
  - cbn. rewrite Hone. by destruct (one2 name fd descriptors).
Qed.

Lemma main_canonical request : main (H := O) request = main (H := canonical_order) request.
Proof.
  unfold main, generate_mypy_stubs. destruct (Descriptors.__init__ request); [|done].
  apply generate_loop_ext. intros. apply generate_mypy_stub_canonical.
Qed.

Lemma grpc_canonical request : grpc (H := O) request = grpc (H := canonical_order) request.
Proof.
  unfold grpc, generate_mypy_grpc_stubs. destruct (Descriptors.__init__ request); [|done].
  apply generate_loop_ext. intros. apply generate_mypy_grpc_stub_canonical.
Qed.

End canonical.

(** C10. Whatever order the interpreter walks its sets and dicts in, the
    two generators give the same response, names and contents, for the
    same request. *)
Theorem generation_deterministic (O1 O2 : HashOrder) (request : CodeGeneratorRequest.t) :
  main (H := O1) request = main (H := O2) request
  ∧ grpc (H := O1) request = grpc (H := O2) request.
Proof.
  split.
  - by rewrite (main_canonical O1), (main_canonical O2).
  - by rewrite (grpc_canonical O1), (grpc_canonical O2).
Qed.

(** ** Worked requests *)

(** The file [p.proto] of package [pkg], at the root of the source tree:
    a message [M] with [id : int32] and the repeated [tags : string]. *)
Definition root_message : DescriptorProto.t :=
  DescriptorProto.mk "M"
    [FieldDescriptorProto.mk "id" FieldDescriptorProto.LABEL_OPTIONAL
       FieldDescriptorProto.TYPE_INT32 EmptyString None;
     FieldDescriptorProto.mk "tags" FieldDescriptorProto.LABEL_REPEATED
       FieldDescriptorProto.TYPE_STRING EmptyString None]
    [] [] [] (MessageOptions.mk false).
Definition root_file : FileDescriptorProto.t :=
  FileDescriptorProto.mk "p.proto" "pkg" [root_message] [] [] [] (FileOptions.mk false) "proto3".
Definition root_request : CodeGeneratorRequest.t :=
  CodeGeneratorRequest.mk ["p.proto"] EmptyString [root_file].

(** The index of a request; empty if [Descriptors.__init__] raises. *)
Definition descriptors_of (request : CodeGeneratorRequest.t) : Descriptors.t :=
  match Descriptors.__init__ request with
  | Ok descriptors => descriptors
  | Raise _ => Descriptors.mk ∅ [] ∅ ∅
  end.

(** A message [M] with [map<string, int32> tags] and the repeated message
    field [items] of type [Item]. *)
Definition tags_key : FieldDescriptorProto.t :=
  FieldDescriptorProto.mk "key" FieldDescriptorProto.LABEL_OPTIONAL
    FieldDescriptorProto.TYPE_STRING EmptyString None.
Definition tags_value : FieldDescriptorProto.t :=
  FieldDescriptorProto.mk "value" FieldDescriptorProto.LABEL_OPTIONAL
    FieldDescriptorProto.TYPE_INT32 EmptyString None.
Definition tags_entry : DescriptorProto.t :=
  DescriptorProto.mk "TagsEntry" [tags_key; tags_value] [] [] [] (MessageOptions.mk true).
Definition tags_field : FieldDescriptorProto.t :=
  FieldDescriptorProto.mk "tags" FieldDescriptorProto.LABEL_REPEATED
    FieldDescriptorProto.TYPE_MESSAGE ".pkg.M.TagsEntry" None.
Definition items_field : FieldDescriptorProto.t :=
  FieldDescriptorProto.mk "items" FieldDescriptorProto.LABEL_REPEATED
    FieldDescriptorProto.TYPE_MESSAGE ".pkg.Item" None.
Definition item_message : DescriptorProto.t :=
  DescriptorProto.mk "Item" [] [] [] [] (MessageOptions.mk false).
Definition map_message : DescriptorProto.t :=
  DescriptorProto.mk "M" [tags_field; items_field] [tags_entry] [] [] (MessageOptions.mk false).
Definition map_file : FileDescriptorProto.t :=
  FileDescriptorProto.mk "pkg/m.proto" "pkg" [map_message; item_message] [] [] []
    (FileOptions.mk false) "proto3".
Definition map_request : CodeGeneratorRequest.t :=
  CodeGeneratorRequest.mk ["pkg/m.proto"] EmptyString [map_file].

(** C9. The gRPC generator aborts on every file whose name has no slash:
    [write_grpc_services] indexes item 1 of [fd.name.rsplit('/', 1)],
    which has one item only. So it is for [p.proto], which the general
    generator turns into [p_pb2.pyi]. *)
Theorem grpc_aborts_without_directory :
  (∀ (O : HashOrder) name fd descriptors,
     Py.contains "/" (FileDescriptorProto.name fd) = false →
     generate_mypy_grpc_stub (H := O) name fd descriptors
     = Raise (IndexError "list index out of range"))
  ∧ Py.endswith (FileDescriptorProto.name root_file) ".proto" = true
  ∧ grpc (H := canonical_order) root_request = Raise (IndexError "list index out of range")
  ∧ ∃ content,
      main (H := canonical_order) root_request
      = Ok (CodeGeneratorResponse.mk [CodeGeneratorResponse.File.mk "p_pb2.pyi" content]).
Proof.
  split_and!.
  - intros. by apply generate_mypy_grpc_stub_without_directory.
  - vm_compute; reflexivity.
  - vm_compute; reflexivity.
  - eexists. vm_compute. reflexivity.
Qed.


(** * Further properties of the writer *)

(** ** The other presence accessors *)

Section more_presence.
Context `{HashOrder}.

Lemma cf_union_elem_of desc name :
  literal_ub name ∈ cf_union desc ↔ name ∈ cf_names desc.
Proof.
  unfold cf_union, Py.sorted. by rewrite merge_sort_Permutation, (list_elem_of_fmap_inj literal_ub).
Qed.

(** The union of [ClearField] holds the names of all the fields of the
    message, repeated or not, reserved or not, and of all its oneofs; the
    accessor is written as soon as there is one. *)
Theorem clear_field_union (desc : DescriptorProto.t) (w : PkgWriter.t) :
  (∀ name,
     literal_ub name ∈ cf_union desc ↔
       (∃ f, f ∈ DescriptorProto.field desc ∧ FieldDescriptorProto.name f = name)
       ∨ (∃ o, o ∈ DescriptorProto.oneof_decl desc ∧ OneofDescriptorProto.name o = name))
  ∧ ∃ w' before after,
      write_stringly_typed_fields desc w = Ok (tt, w')
      ∧ lines w' = lines w
          ++ before
          ++ (if bool_decide (cf_union desc ≠ [])
              then [indent w +:+ "def ClearField(self, field_name: typing_extensions___Literal["
                      +:+ Py.join "," (cf_union desc) +:+ "]) -> None: ..."]
              else [])
          ++ after.
Proof.
  split.
  - intros name. rewrite cf_union_elem_of. unfold cf_names.
    rewrite elem_of_app, wo_keys. apply or_iff_compat_r.
    unfold cf_fields_of. rewrite list_elem_of_fmap. split.
    + intros (f & -> & Hin). eauto.
    + intros (f & Hin & <-). eauto.
  - destruct (runs_write_stringly_typed_fields (indent w) (fd w) (descriptors w) desc w)
      as (w' & Hrun & Hlines & _); [done..|].
    exists w'. eexists _, _. split; [exact Hrun|]. rewrite Hlines. unfold stringly_lines.
    assert (bool_decide (cf_union desc ≠ []) = bool_decide (cf_names desc ≠ [])) as ->.
    { apply bool_decide_ext. by rewrite cf_union_nil. }
    reflexivity.
Qed.

Lemma cf_names_nil desc :
  cf_names desc = [] ↔ DescriptorProto.field desc = [] ∧ DescriptorProto.oneof_decl desc = [].
Proof.
  unfold cf_names, cf_fields_of. split.
  - intros [Hf Hk]%app_eq_nil. apply fmap_nil_inv in Hf. split; [done|].
    destruct (DescriptorProto.oneof_decl desc) as [|o oneofs] eqn:Ho; [done|].
    assert (OneofDescriptorProto.name o ∈ (dict_iter (wo_fields_of desc)).*1) as Hin.
    { apply wo_keys. exists o. rewrite Ho. split; [by left|done]. }
    rewrite Hk in Hin. by apply elem_of_nil in Hin.
  - intros [Hf Ho]. rewrite Hf. cbn.
    rewrite wo_fields_of_fold, Ho. unfold wo_fold. cbn. by rewrite dict_iter_empty.
Qed.

(** [write_stringly_typed_fields] leaves the writer as it found it, with
    no line written and nothing imported, exactly for a message that has
    no field and no oneof. *)
Theorem presence_accessors_none (desc : DescriptorProto.t) (w : PkgWriter.t) :
  write_stringly_typed_fields desc w = Ok (tt, w)
  ↔ DescriptorProto.field desc = [] ∧ DescriptorProto.oneof_decl desc = [].
Proof.
  rewrite <-cf_names_nil. split.
  - intros Hrun.
    destruct (runs_write_stringly_typed_fields (indent w) (fd w) (descriptors w) desc w)
      as (w' & Hrun' & Hlines & _); [done..|].
    rewrite Hrun in Hrun'. injection Hrun' as <-.
    destruct (decide (cf_names desc = [])) as [|Hne]; [done|]. exfalso.
    apply (f_equal List.length) in Hlines. unfold stringly_lines in Hlines.
    rewrite (bool_decide_eq_true_2 (cf_names desc ≠ [])) in Hlines by done.
    rewrite !length_app in Hlines. cbn in Hlines. lia.
  - intros Hnil. unfold write_stringly_typed_fields. rewrite run_bind. cbn [get]. cbv zeta.
    fold (cf_names desc). rewrite Hnil.
    apply cf_names_nil in Hnil as [Hf Ho].
    assert (wo_fields_of desc = ∅) as ->.
    { rewrite wo_fields_of_fold, Ho. done. }
    rewrite dict_iter_empty. unfold hf_fields_of. rewrite Hf. cbn.
    rewrite bool_decide_eq_true_2; done.
Qed.

(** One [WhichOneof] accessor is written per distinct oneof name, and they
    are marked as overloads exactly when two oneofs bear different
    names. *)
Theorem which_oneof_groups (desc : DescriptorProto.t) :
  let groups := Py.sorted_items (dict_iter (wo_fields_of desc)) in
  NoDup groups.*1
  ∧ List.length groups = size (wo_fields_of desc)
  ∧ (∀ name, name ∈ groups.*1 ↔
       ∃ o, o ∈ DescriptorProto.oneof_decl desc ∧ OneofDescriptorProto.name o = name)
  ∧ (1 < size (wo_fields_of desc) ↔
       ∃ o1 o2, o1 ∈ DescriptorProto.oneof_decl desc ∧ o2 ∈ DescriptorProto.oneof_decl desc
                ∧ OneofDescriptorProto.name o1 ≠ OneofDescriptorProto.name o2)
  ∧ ∀ w, ∃ w' before,
      write_stringly_typed_fields desc w = Ok (tt, w')
      ∧ lines w' = lines w ++ before
          ++ mjoin ((λ item,
               (if bool_decide (1 < size (wo_fields_of desc))
                then [indent w +:+ "@typing___overload"] else [])
               ++ [indent w +:+ "def WhichOneof(self, oneof_group: typing_extensions___Literal["
                     +:+ literal_ub item.1 +:+ "]) -> typing_extensions___Literal["
                     +:+ Py.join "," (literal_q <$> item.2) +:+ "]: ..."]) <$> groups).
Proof.
  intros groups.
  assert (Hkeys : ∀ name, name ∈ groups.*1 ↔
            ∃ o, o ∈ DescriptorProto.oneof_decl desc ∧ OneofDescriptorProto.name o = name).
  { intros name. rewrite <-wo_keys. subst groups. unfold Py.sorted_items.
    by rewrite merge_sort_Permutation. }
  assert (Hlen : List.length groups = size (wo_fields_of desc)).
  { subst groups. unfold Py.sorted_items.
    by rewrite merge_sort_Permutation, dict_iter_perm, length_map_to_list. }
  assert (Hnd : NoDup groups.*1) by apply sorted_items_NoDup.
  split_and!; try done.
  - rewrite <-Hlen, <-(length_fmap fst). split.
    + intros Hlt. destruct (groups.*1) as [|g1 [|g2 gs]] eqn:Hg; cbn in Hlt; try lia.
      assert (g1 ≠ g2) as Hne.
      { apply NoDup_cons in Hnd as [Hnd _]. intros ->. apply Hnd. by left. }
      destruct (proj1 (Hkeys g1)) as (o1 & Ho1 & <-); [by left|].
      destruct (proj1 (Hkeys g2)) as (o2 & Ho2 & <-); [right; by left|].
      by exists o1, o2.
    + intros (o1 & o2 & Ho1 & Ho2 & Hne).
      assert (OneofDescriptorProto.name o1 ∈ groups.*1) as H1 by (apply Hkeys; eauto).
      assert (OneofDescriptorProto.name o2 ∈ groups.*1) as H2 by (apply Hkeys; eauto).
      destruct (groups.*1) as [|g1 [|g2 gs]]; cbn; [by apply elem_of_nil in H1| |lia].
      apply list_elem_of_singleton in H1, H2. congruence.
  - intros w.
    destruct (runs_write_stringly_typed_fields (indent w) (fd w) (descriptors w) desc w)
      as (w' & Hrun & Hlines & _); [done..|].
    exists w'. eexists. split; [exact Hrun|]. rewrite Hlines. subst groups.
    unfold stringly_lines, which_oneof_lines, which_oneof_line.
    by rewrite (assoc_L (++) (if bool_decide (hf_names _ _ ≠ []) then _ else _)).
Qed.

End more_presence.

(** ** Extensions, enums and empty blocks *)

Lemma reserved_false name : name ∉ PYTHON_RESERVED → reserved name = false.
Proof. intros Hn. by apply bool_decide_eq_false_2. Qed.

Lemma reserved_true name : ¬ (name ∉ PYTHON_RESERVED) → reserved name = true.
Proof.
  intros Hn. apply bool_decide_eq_true_2. by destruct (decide (name ∈ PYTHON_RESERVED)).
Qed.

Section more_blocks.
Context (i : string) (f : FileDescriptorProto.t) (d : Descriptors.t).

Lemma runs_write_extensions (extensions : list FieldDescriptorProto.t) :
  runs i f d (write_extensions extensions) tt
    (mjoin ((λ extension,
               [i +:+ FieldDescriptorProto.name extension
                  +:+ ": google___protobuf___descriptor___FieldDescriptor = ...";
                EmptyString]) <$> extensions)).
Proof.
  unfold write_extensions. case_bool_decide as Hnil.
  - rewrite Hnil. apply (runs_ret _ _ _ tt).
  - eapply (runs_bind _ _ _ _ _ _ _ []); [apply runs_import|].
    apply runs_for. intros extension _.
    eapply (runs_bind _ _ _ _ _ _ _ [_] [_]); apply runs_write_line.
Qed.

(** [write_extensions] declares every extension, its name as it is, by a
    line and an empty line; without extensions it does nothing at all. *)
Theorem write_extensions_lines (extensions : list FieldDescriptorProto.t) :
  runs i f d (write_extensions extensions) tt
    (mjoin ((λ extension,
               [i +:+ FieldDescriptorProto.name extension
                  +:+ ": google___protobuf___descriptor___FieldDescriptor = ...";
                EmptyString]) <$> extensions))
  ∧ ∀ w, write_extensions [] w = Ok (tt, w).
Proof. split; [apply runs_write_extensions|done]. Qed.

(** What [write_enum_values] writes for one value. *)
Definition enum_value_line (i enum_full_name : string) (val : EnumValueDescriptorProto.t) : string :=
  i +:+ EnumValueDescriptorProto.name val +:+ " = typing___cast(" +:+ enum_full_name
    +:+ ", " +:+ pretty (EnumValueDescriptorProto.number val) +:+ ")".

Lemma runs_write_enum_values i' enum enum_full_name :
  runs i' f d (write_enum_values enum enum_full_name) tt
    (enum_value_line i' enum_full_name
       <$> filter (λ v, EnumValueDescriptorProto.name v ∉ PYTHON_RESERVED)
                  (EnumDescriptorProto.value enum)).
Proof.
  unfold write_enum_values.
  induction (EnumDescriptorProto.value enum) as [|val vals IH]; [apply (runs_ret _ _ _ tt)|].
  change (for_ (val :: vals) ?body) with (body val ≫= λ _, for_ vals body).
  cbv beta. rewrite filter_cons.
  destruct (decide (EnumValueDescriptorProto.name val ∉ PYTHON_RESERVED)) as [Hv|Hv].
  - rewrite (reserved_false _ Hv), fmap_cons.
    eapply (runs_bind _ _ _ _ _ tt _ [_]); [|apply IH].
    eapply (runs_bind _ _ _ _ _ _ _ []); [apply runs_import|]. apply runs_write_line.
  - rewrite (reserved_true _ Hv).
    eapply (runs_bind _ _ _ _ _ tt _ []); [apply (runs_ret _ _ _ tt)|apply IH].
Qed.

(** One constant per value that is not a reserved word, in the order of
    the enum, cast from its number to the value type. *)
Theorem write_enum_values_lines (enum : EnumDescriptorProto.t) (enum_full_name : string) :
  runs i f d (write_enum_values enum enum_full_name) tt
    ((λ val, i +:+ EnumValueDescriptorProto.name val +:+ " = typing___cast("
               +:+ enum_full_name +:+ ", "
               +:+ pretty (EnumValueDescriptorProto.number val) +:+ ")")
       <$> filter (λ v, EnumValueDescriptorProto.name v ∉ PYTHON_RESERVED)
                  (EnumDescriptorProto.value enum)).
Proof. apply runs_write_enum_values. Qed.

(** The block of one enum. *)
Definition enum_lines (i prefix : string) (enum : EnumDescriptorProto.t) : list string :=
  let name := EnumDescriptorProto.name enum in
  let value_type := name +:+ "Value" in
  let values := filter (λ v, EnumValueDescriptorProto.name v ∉ PYTHON_RESERVED)
                       (EnumDescriptorProto.value enum) in
  [i +:+ value_type +:+ " = typing___NewType('" +:+ value_type +:+ "', builtin___int)";
   i +:+ ("type___" +:+ value_type) +:+ " = " +:+ value_type;
   i +:+ name +:+ ": _" +:+ name;
   i +:+ "class _" +:+ name
     +:+ "(google___protobuf___internal___enum_type_wrapper____EnumTypeWrapper["
     +:+ (prefix +:+ value_type) +:+ "]):";
   (i +:+ "    ") +:+ "DESCRIPTOR: google___protobuf___descriptor___EnumDescriptor = ..."]
  ++ (enum_value_line (i +:+ "    ") (prefix +:+ value_type) <$> values)
  ++ (enum_value_line i (prefix +:+ value_type) <$> values)
  ++ [i +:+ ("type___" +:+ name) +:+ " = " +:+ name; EmptyString].

Lemma runs_line line args text :
  line ≠ EmptyString → Py.format line args = text →
  runs i f d (_write_line line args) tt [i +:+ text].
Proof.
  intros Hline <-. generalize (runs_write_line i f d line args).
  by rewrite bool_decide_eq_false_2.
Qed.

End more_blocks.

Section more_blocks_2.
Context (i : string) (f : FileDescriptorProto.t) (d : Descriptors.t).

Lemma runs_write_enums (enums : list EnumDescriptorProto.t) (prefix : string) :
  runs i f d (write_enums enums prefix) tt
    (mjoin (enum_lines i prefix
              <$> filter (λ e, EnumDescriptorProto.name e ∉ PYTHON_RESERVED) enums)).
Proof.
  unfold write_enums. cbv zeta. apply runs_for. intros enum _. unfold enum_lines. cbv zeta.
  eapply (runs_bind _ _ _ _ _ _ _ []); [apply runs_import|].
  eapply (runs_bind _ _ _ _ _ _ _ []); [apply runs_builtin|].
  eapply (runs_bind _ _ _ _ _ tt _ [_]); [by apply runs_line|].
  eapply (runs_bind _ _ _ _ _ tt _ [_]).
  { apply runs_line; [done|]. by rewrite format_alias, mangle_message_eq. }
  eapply (runs_bind _ _ _ _ _ tt _ [_]).
  { apply runs_line; [done|].
    change (Py.format "{}: {}" [?a; ?b]) with (a +:+ ": " +:+ b +:+ EmptyString).
    by rewrite text_app_nil_r. }
  eapply (runs_bind _ _ _ _ _ _ _ []); [apply runs_import|].
  eapply (runs_bind _ _ _ _ _ tt _ [_]); [by apply runs_line|].
  eapply (runs_bind _ _ _ _ _ tt _ (_ :: _)).
  { apply runs_indent.
    eapply (runs_bind _ _ _ _ _ _ _ []); [apply runs_import|].
    eapply (runs_bind _ _ _ _ _ tt _ [_]); [by apply runs_line|].
    apply runs_write_enum_values. }
  eapply (runs_bind _ _ _ _ _ tt _ _); [apply runs_write_enum_values|].
  eapply (runs_bind _ _ _ _ _ tt _ [_] [_]).
  { apply runs_line; [done|]. by rewrite format_alias, mangle_message_eq. }
  apply runs_write_line.
Qed.

(** [write_enums] writes, for every enum whose name is not reserved, the
    value type, the wrapper class with the constants four spaces deeper,
    the same constants again beside the class, and the alias of the enum;
    value types are qualified by the prefix of the enclosing messages. *)
Theorem write_enums_lines (enums : list EnumDescriptorProto.t) (prefix : string) :
  runs i f d (write_enums enums prefix) tt
    (mjoin (enum_lines i prefix
              <$> filter (λ e, EnumDescriptorProto.name e ∉ PYTHON_RESERVED) enums)).
Proof. apply runs_write_enums. Qed.

End more_blocks_2.

(** ** Handles of messages and enums: [_import_message] *)

Lemma startswith_app p s : Py.startswith (p +:+ s) p = true.
Proof.
  unfold Py.startswith. induction p as [|c p IH]; [by destruct s|].
  rewrite text_app_cons. cbn. by destruct (ascii_dec c c).
Qed.

Lemma split_app_sep c h r :
  Py.contains (String c EmptyString) h = false →
  Py.split c (h +:+ String c r) = h :: Py.split c r.
Proof.
  induction h as [|a h IH].
  - intros _. rewrite text_app_nil_l. cbn. by rewrite Ascii.eqb_refl.
  - intros Hh. rewrite text_app_cons. cbn in Hh |- *.
    destruct (ascii_dec c a) as [->|Hne]; [by destruct h|].
    assert (Ascii.eqb a c = false) as -> by (apply Ascii.eqb_neq; congruence).
    by rewrite IH.
Qed.

Lemma split_cons c s : ∃ w ws, Py.split c s = w :: ws.
Proof.
  induction s as [|a s (w & ws & IH)]; [by eexists _, _|]. cbn.
  destruct (Ascii.eqb a c); [by eexists _, _|]. rewrite IH. by eexists _, _.
Qed.

Lemma join_cons sep w w' ws :
  Py.join sep (w :: w' :: ws) = w +:+ sep +:+ Py.join sep (w' :: ws).
Proof. reflexivity. Qed.

(** [sep.join(s.split(sep))] is [s]. *)
Lemma join_split c s : Py.join (String c EmptyString) (Py.split c s) = s.
Proof.
  induction s as [|a s IH]; [done|]. cbn [Py.split].
  destruct (split_cons c s) as (w & ws & Hs). rewrite Hs in IH |- *.
  destruct (Ascii.eqb a c) eqn:Hac.
  - apply Ascii.eqb_eq in Hac as ->. by rewrite join_cons, text_app_nil_l, IH.
  - destruct ws as [|w' ws].
    + cbn in IH |- *. by rewrite IH.
    + rewrite join_cons in IH |- *. by rewrite text_app_cons, IH.
Qed.

(** The prefix [_import_message] strips: the package of the file in dots. *)
Definition package_prefix (fd : FileDescriptorProto.t) : string :=
  if bool_decide (FileDescriptorProto.package fd ≠ EmptyString)
  then "." +:+ FileDescriptorProto.package fd +:+ "."
  else ".".

(** The module [_import_message] imports a message of another file from. *)
Definition module_of (fd : FileDescriptorProto.t) : string :=
  Py.replace "-" "_" (Py.drop_last 6 (FileDescriptorProto.name fd)) +:+ "_pb2".

Lemma run_import_message name rest message_fd w :
  Descriptors.message_to_fd (descriptors w) !! name = Some message_fd →
  Py.endswith (FileDescriptorProto.name message_fd) ".proto" = true →
  name = package_prefix message_fd +:+ rest →
  _import_message name w =
    if bool_decide (FileDescriptorProto.name message_fd = FileDescriptorProto.name (fd w))
    then Ok (_mangle_message rest, w)
    else
      let split := Py.split "." rest in
      let remains := Py.join "." (tail split) in
      Ok (import_alias (module_of message_fd) (default EmptyString (head split))
            +:+ (if bool_decide (remains = EmptyString) then EmptyString
                 else "." +:+ remains),
          set_imports (import_record (module_of message_fd) (default EmptyString (head split))) w).
Proof.
  intros Hfd Hproto ->. unfold _import_message. rewrite run_bind. cbn [get].
  unfold getitem. rewrite Hfd. rewrite run_bind. cbn [ret]. rewrite run_bind, Hproto.
  cbn [assert ret]. rewrite run_bind.
  unfold package_prefix.
  case_bool_decide as Hpkg; cbv zeta; rewrite run_bind, startswith_app; cbn [assert ret];
    rewrite run_ret, ?text_drop_app; change (Py.drop 1 ("." +:+ rest)) with rest.
  all: case_bool_decide; [done|]; rewrite run_bind, run_import.
  all: fold (module_of message_fd); case_bool_decide; [|done].
  all: by rewrite text_app_nil_r.
Qed.

(** The handle of a message or an enum. A name that is not in the index
    raises [KeyError], and nothing else does. A name of the file being
    written is the alias [type___] of what follows the package, and the
    writer is left as it was. A name of another file is imported from the
    [_pb2] module of that file: the outermost message is what is imported,
    and what is nested in it is reached by attribute access. *)
Theorem import_message_handle (name rest : string) (message_fd : FileDescriptorProto.t)
    (w : PkgWriter.t) :
  Descriptors.message_to_fd (descriptors w) !! name = Some message_fd →
  Py.endswith (FileDescriptorProto.name message_fd) ".proto" = true →
  name = package_prefix message_fd +:+ rest →
  (FileDescriptorProto.name message_fd = FileDescriptorProto.name (fd w) →
     _import_message name w = Ok ("type___" +:+ rest, w))
  ∧ (FileDescriptorProto.name message_fd ≠ FileDescriptorProto.name (fd w) →
     Py.contains "." rest = false →
     _import_message name w =
       Ok (import_alias (module_of message_fd) rest,
           set_imports (import_record (module_of message_fd) rest) w))
  ∧ (FileDescriptorProto.name message_fd ≠ FileDescriptorProto.name (fd w) →
     ∀ outer inner,
       rest = outer +:+ "." +:+ inner → Py.contains "." outer = false → inner ≠ EmptyString →
       _import_message name w =
         Ok (import_alias (module_of message_fd) outer +:+ "." +:+ inner,
             set_imports (import_record (module_of message_fd) outer) w)).
Proof.
  intros Hfd Hproto Hname. rewrite (run_import_message name rest message_fd) by done.
  split_and!.
  - intros Hsame. by rewrite bool_decide_eq_true_2, mangle_message_eq.
  - intros Hother Hdot. rewrite bool_decide_eq_false_2 by done. cbv zeta.
    rewrite (split_without "." rest) by done. cbn [head tail default Py.join String.concat].
    by rewrite bool_decide_eq_true_2, text_app_nil_r.
  - intros Hother outer inner -> Hdot Hinner. rewrite bool_decide_eq_false_2 by done.
    cbv zeta. change ("." +:+ inner) with (String "." inner).
    rewrite split_app_sep by done. cbn [head tail default].
    change (Py.join "." (Py.split "." inner)) with (Py.join (String "." EmptyString) (Py.split "." inner)).
    by rewrite join_split, bool_decide_eq_false_2.
Qed.

(** [_import_message] raises [KeyError] exactly on the names that the index
    does not hold. *)
Theorem import_message_key_error (name : string) (w : PkgWriter.t) :
  (Descriptors.message_to_fd (descriptors w) !! name = None
   ↔ _import_message name w = Raise (KeyError name))
  ∧ (∀ key, _import_message name w = Raise (KeyError key) → key = name)
  ∧ (∀ msg, _import_message name w ≠ Raise (IndexError msg)).
Proof.
  assert (Hnone : Descriptors.message_to_fd (descriptors w) !! name = None →
            _import_message name w = Raise (KeyError name)).
  { intros Hfd. unfold _import_message. rewrite run_bind. cbn [get].
    unfold getitem. by rewrite Hfd. }
  assert (Hsome : ∀ message_fd key,
            Descriptors.message_to_fd (descriptors w) !! name = Some message_fd →
            _import_message name w ≠ Raise (KeyError key)).
  { intros message_fd key Hfd. unfold _import_message. rewrite run_bind. cbn.
    unfold getitem. rewrite Hfd. rewrite run_bind. cbn. rewrite run_bind. unfold assert at 1.
    destruct (Py.endswith _ _); [|done]. cbn. rewrite run_bind.
    case_bool_decide; rewrite run_bind; unfold assert;
      (destruct (Py.startswith _ _); [|done]); cbn;
      (case_bool_decide; [done|]); rewrite run_bind, run_import; by case_bool_decide. }
  split_and!.
  - split; [done|]. intros Hraise.
    destruct (Descriptors.message_to_fd (descriptors w) !! name) as [message_fd|] eqn:Hfd;
      [|done].
    by destruct (Hsome message_fd name eq_refl).
  - intros key Hraise.
    destruct (Descriptors.message_to_fd (descriptors w) !! name) as [message_fd|] eqn:Hfd.
    + by destruct (Hsome message_fd key eq_refl).
    + rewrite Hnone in Hraise by done. by injection Hraise.
  - intros msg Hraise. apply import_message_raises in Hraise as [?|[? ?]]; done.
Qed.

(** ** Services *)

(** The handle [_import_message] returns in a writer of the file [f] over
    the index [d]. *)
Definition message_expr (f : FileDescriptorProto.t) (d : Descriptors.t)
    (name : string) : result string :=
  value_of (_import_message name (PkgWriter.__init__ f d)).

Lemma pure_runs {A} i f d (m : M A) a :
  pure_in m → value_of (m (PkgWriter.__init__ f d)) = Ok a → runs i f d m a [].
Proof.
  intros Hpure Hval w Hi Hf Hd. destruct (Hpure w) as [Hv Hframe].
  rewrite Hf, Hd, Hval in Hv.
  destruct (m w) as [[a' w']|e]; cbn in Hv; simplify_eq.
  exists w'. destruct (Hframe _ _ eq_refl) as (-> & ? & ? & ?).
  by rewrite (right_id_L [] (++)).
Qed.

Lemma import_message_runs i f d name handle :
  message_expr f d name = Ok handle → runs i f d (_import_message name) handle [].
Proof. intros. by apply pure_runs; [apply pure_in_import_message|]. Qed.

Section services.
Context (f : FileDescriptorProto.t) (d : Descriptors.t).
Context (request response : MethodDescriptorProto.t → string).

(** The methods that are written, and what their types resolve to. *)
Definition methods_of (service : ServiceDescriptorProto.t) : list MethodDescriptorProto.t :=
  filter (λ m, MethodDescriptorProto.name m ∉ PYTHON_RESERVED)
         (ServiceDescriptorProto.method service).

Definition resolved (service : ServiceDescriptorProto.t) : Prop :=
  ∀ method, method ∈ methods_of service →
    message_expr f d (MethodDescriptorProto.input_type method) = Ok (request method)
    ∧ message_expr f d (MethodDescriptorProto.output_type method) = Ok (response method).

(** A method of a generic service, abstract in the interface and plain in
    the stub. *)
Definition method_lines (i : string) (is_abstract : bool) (method : MethodDescriptorProto.t) :
    list string :=
  (if is_abstract then [i +:+ "@abc___abstractmethod"] else [])
  ++ [i +:+ "def " +:+ MethodDescriptorProto.name method +:+ "(self,";
      (i +:+ "    ") +:+ "rpc_controller: google___protobuf___service___RpcController,";
      (i +:+ "    ") +:+ "request: " +:+ request method +:+ ",";
      (i +:+ "    ") +:+ "done: typing___Optional[typing___Callable[["
        +:+ response method +:+ "], None]],";
      i +:+ ") -> concurrent___futures___Future[" +:+ response method +:+ "]: ..."].

Definition methods_lines (i : string) (is_abstract : bool) (service : ServiceDescriptorProto.t) :
    list string :=
  (if bool_decide (methods_of service = []) then [i +:+ "pass"] else [])
  ++ mjoin (method_lines i is_abstract <$> methods_of service).

Lemma runs_write_methods i service is_abstract :
  resolved service →
  runs i f d (write_methods service is_abstract) tt (methods_lines i is_abstract service).
Proof.
  intros Hres. unfold write_methods. cbv zeta. fold (methods_of service).
  unfold methods_lines. apply runs_bind with tt.
  { case_bool_decide; [by apply runs_line|apply (runs_ret _ _ _ tt)]. }
  apply runs_for. intros method [Hreq Hresp]%Hres. unfold method_lines.
  apply runs_bind with tt.
  { destruct is_abstract; [|apply (runs_ret _ _ _ tt)].
    eapply (runs_bind _ _ _ _ _ _ _ []); [apply runs_import|]. by apply runs_line. }
  eapply (runs_bind _ _ _ _ _ tt _ [_]); [by apply runs_line|].
  eapply (runs_bind _ _ _ _ _ tt _ [_; _; _]).
  { apply runs_indent.
    eapply (runs_bind _ _ _ _ _ _ _ []); [apply runs_import|].
    eapply (runs_bind _ _ _ _ _ tt _ [_]); [by apply runs_line|].
    eapply (runs_bind _ _ _ _ _ _ _ []); [by apply import_message_runs|].
    eapply (runs_bind _ _ _ _ _ tt _ [_]); [by apply runs_line|].
    eapply (runs_bind _ _ _ _ _ _ _ []); [apply runs_import|].
    eapply (runs_bind _ _ _ _ _ _ _ []); [apply runs_import|].
    eapply (runs_bind _ _ _ _ _ _ _ []); [by apply import_message_runs|].
    by apply runs_line. }
  eapply (runs_bind _ _ _ _ _ _ _ []); [apply runs_import|].
  eapply (runs_bind _ _ _ _ _ _ _ []); [by apply import_message_runs|].
  by apply runs_line.
Qed.

(** [write_methods] writes [pass] for a service with no method to write,
    and otherwise, method by method, the signature over the controller, the
    request and the callback, returning a future of the response; only the
    methods of the interface are marked abstract. *)
Theorem write_methods_lines (i : string) (service : ServiceDescriptorProto.t)
    (is_abstract : bool) :
  resolved service →
  runs i f d (write_methods service is_abstract) tt
    ((if bool_decide (methods_of service = []) then [i +:+ "pass"] else [])
     ++ mjoin ((λ method,
          (if is_abstract then [i +:+ "@abc___abstractmethod"] else [])
          ++ [i +:+ "def " +:+ MethodDescriptorProto.name method +:+ "(self,";
              (i +:+ "    ") +:+ "rpc_controller: google___protobuf___service___RpcController,";
              (i +:+ "    ") +:+ "request: " +:+ request method +:+ ",";
              (i +:+ "    ") +:+ "done: typing___Optional[typing___Callable[["
                +:+ response method +:+ "], None]],";
              i +:+ ") -> concurrent___futures___Future[" +:+ response method +:+ "]: ..."])
        <$> methods_of service)).
Proof. apply runs_write_methods. Qed.

(** The interface of a generic service and its stub. *)
Definition service_lines (i : string) (service : ServiceDescriptorProto.t) : list string :=
  let name := ServiceDescriptorProto.name service in
  [i +:+ "class " +:+ name
     +:+ "(google___protobuf___service___Service, metaclass=abc___ABCMeta):"]
  ++ methods_lines (i +:+ "    ") true service
  ++ [i +:+ "class " +:+ (name +:+ "_Stub") +:+ "(" +:+ name +:+ "):";
      (i +:+ "    ") +:+ "def __init__(self, rpc_channel: google___protobuf___service___RpcChannel) -> None: ..."]
  ++ methods_lines (i +:+ "    ") false service.

(** [write_services] writes, for every service whose name is not reserved,
    the abstract interface and then the stub that derives from it, with the
    same methods four spaces deeper. *)
Theorem write_services_lines (i : string) (services : list ServiceDescriptorProto.t) :
  (∀ service, service ∈ services →
     ServiceDescriptorProto.name service ∉ PYTHON_RESERVED → resolved service) →
  runs i f d (write_services services) tt
    (mjoin (service_lines i
              <$> filter (λ s, ServiceDescriptorProto.name s ∉ PYTHON_RESERVED) services)).
Proof.
  intros Hres. unfold write_services. cbv zeta. apply runs_for.
  intros service [Hname Hin]%list_elem_of_filter. specialize (Hres service Hin Hname).
  unfold service_lines. cbv zeta.
  eapply (runs_bind _ _ _ _ _ _ _ []); [apply runs_import|].
  eapply (runs_bind _ _ _ _ _ _ _ []); [apply runs_import|].
  eapply (runs_bind _ _ _ _ _ tt _ [_]); [by apply runs_line|].
  eapply (runs_bind _ _ _ _ _ tt _ _); [by apply runs_indent, runs_write_methods|].
  eapply (runs_bind _ _ _ _ _ tt _ [_] (_ :: _)); [by apply runs_line|].
  apply runs_indent.
  eapply (runs_bind _ _ _ _ _ _ _ []); [apply runs_import|].
  eapply (runs_bind _ _ _ _ _ tt _ [_]); [by apply runs_line|].
  by apply runs_write_methods.
Qed.

End services.

(** ** gRPC services *)

Lemma split_app_last c s base :
  Py.contains (String c EmptyString) base = false →
  Py.split c (s +:+ String c base) = Py.split c s ++ [base].
Proof.
  intros Hbase. induction s as [|a s IH].
  - rewrite text_app_nil_l. cbn. by rewrite Ascii.eqb_refl, split_without.
  - rewrite text_app_cons. cbn. rewrite IH.
    destruct (split_cons c s) as (w & ws & ->). by destruct (Ascii.eqb a c).
Qed.

(** [rsplit] at the last slash: the directory and the base name. *)
Lemma rsplit1_directory c dir base :
  Py.contains (String c EmptyString) base = false →
  Py.rsplit1 c (dir +:+ String c base) = [dir; base].
Proof.
  intros Hbase. unfold Py.rsplit1. rewrite split_app_last, reverse_app by done.
  cbn [reverse rev_append app]. change (rev_append ?l []) with (reverse l).
  destruct (split_cons c dir) as (w & ws & Hs).
  destruct (reverse (Py.split c dir)) as [|x xs] eqn:Hrev.
  { apply (f_equal List.length) in Hrev. by rewrite length_reverse, Hs in Hrev. }
  by rewrite <-Hrev, reverse_involutive, join_split.
Qed.

Section grpc_services.
Context (f : FileDescriptorProto.t) (d : Descriptors.t).
Context (request response : MethodDescriptorProto.t → string).

(** The return type of a gRPC method: a generator when the server streams. *)
Definition output_expr (method : MethodDescriptorProto.t) : string :=
  if MethodDescriptorProto.server_streaming method
  then "typing___Generator[" +:+ response method +:+ ", None, None]"
  else response method.

Lemma runs_output_type i method :
  message_expr f d (MethodDescriptorProto.output_type method) = Ok (response method) →
  runs i f d (_output_type method) (output_expr method) [].
Proof.
  intros Hresp. unfold _output_type, output_expr.
  eapply (runs_bind _ _ _ _ _ _ _ []); [by apply import_message_runs|].
  destruct (MethodDescriptorProto.server_streaming method); [|apply runs_ret].
  eapply (runs_bind _ _ _ _ _ _ _ []); [apply runs_import|]. apply runs_ret.
Qed.

Definition grpc_method_lines (i : string) (method : MethodDescriptorProto.t) : list string :=
  [i +:+ "@abc___abstractmethod";
   i +:+ "def " +:+ MethodDescriptorProto.name method +:+ "(self,";
   (i +:+ "    ") +:+ "request: " +:+ request method +:+ ",";
   (i +:+ "    ") +:+ "context: grpc___ServicerContext,";
   i +:+ ") -> " +:+ output_expr method +:+ ": ...";
   EmptyString].

Definition grpc_stub_method_lines (i : string) (method : MethodDescriptorProto.t) :
    list string :=
  [i +:+ "def " +:+ MethodDescriptorProto.name method +:+ "(self,";
   (i +:+ "    ") +:+ "request: " +:+ request method +:+ ",";
   i +:+ ") -> " +:+ output_expr method +:+ ": ...";
   EmptyString].

Definition grpc_methods_lines (i : string) (service : ServiceDescriptorProto.t) : list string :=
  (if bool_decide (methods_of service = []) then [i +:+ "pass"; EmptyString] else [])
  ++ mjoin (grpc_method_lines i <$> methods_of service).

Definition grpc_stub_methods_lines (i : string) (service : ServiceDescriptorProto.t) :
    list string :=
  (if bool_decide (methods_of service = []) then [i +:+ "pass"; EmptyString] else [])
  ++ mjoin (grpc_stub_method_lines i <$> methods_of service).

Lemma runs_write_grpc_methods i service :
  resolved f d request response service →
  runs i f d (write_grpc_methods service) tt (grpc_methods_lines i service).
Proof.
  intros Hres. unfold write_grpc_methods. cbv zeta. fold (methods_of service).
  unfold grpc_methods_lines. apply runs_bind with tt.
  { case_bool_decide; [|apply (runs_ret _ _ _ tt)].
    eapply (runs_bind _ _ _ _ _ tt _ [_] [_]); [by apply runs_line|apply runs_write_line]. }
  apply runs_for. intros method [Hreq Hresp]%Hres. unfold grpc_method_lines.
  eapply (runs_bind _ _ _ _ _ _ _ []); [apply runs_import|].
  eapply (runs_bind _ _ _ _ _ tt _ [_]); [by apply runs_line|].
  eapply (runs_bind _ _ _ _ _ tt _ [_]); [by apply runs_line|].
  eapply (runs_bind _ _ _ _ _ tt _ [_; _]).
  { apply runs_indent.
    eapply (runs_bind _ _ _ _ _ _ _ []); [by apply import_message_runs|].
    eapply (runs_bind _ _ _ _ _ tt _ [_]); [by apply runs_line|].
    eapply (runs_bind _ _ _ _ _ _ _ []); [apply runs_import|].
    by apply runs_line. }
  eapply (runs_bind _ _ _ _ _ _ _ []); [by apply runs_output_type|].
  eapply (runs_bind _ _ _ _ _ tt _ [_] [_]); [by apply runs_line|apply runs_write_line].
Qed.

Lemma runs_write_grpc_stub_methods i service :
  resolved f d request response service →
  runs i f d (write_grpc_stub_methods service) tt (grpc_stub_methods_lines i service).
Proof.
  intros Hres. unfold write_grpc_stub_methods. cbv zeta. fold (methods_of service).
  unfold grpc_stub_methods_lines. apply runs_bind with tt.
  { case_bool_decide; [|apply (runs_ret _ _ _ tt)].
    eapply (runs_bind _ _ _ _ _ tt _ [_] [_]); [by apply runs_line|apply runs_write_line]. }
  apply runs_for. intros method [Hreq Hresp]%Hres. unfold grpc_stub_method_lines.
  eapply (runs_bind _ _ _ _ _ tt _ [_]); [by apply runs_line|].
  eapply (runs_bind _ _ _ _ _ tt _ [_]).
  { apply runs_indent.
    eapply (runs_bind _ _ _ _ _ _ _ []); [by apply import_message_runs|].
    by apply runs_line. }
  eapply (runs_bind _ _ _ _ _ _ _ []); [by apply runs_output_type|].
  eapply (runs_bind _ _ _ _ _ tt _ [_] [_]); [by apply runs_line|apply runs_write_line].
Qed.

(** The methods of a servicer are abstract and take the request and the
    context; those of a stub take the request alone. Both return the
    response, as a generator of it when the server streams, and a service
    with no method to write gets [pass]. *)
Theorem write_grpc_methods_lines (i : string) (service : ServiceDescriptorProto.t) :
  resolved f d request response service →
  let returns method :=
    if MethodDescriptorProto.server_streaming method
    then "typing___Generator[" +:+ response method +:+ ", None, None]"
    else response method in
  let pass := if bool_decide (methods_of service = []) then [i +:+ "pass"; EmptyString] else [] in
  runs i f d (write_grpc_methods service) tt
    (pass ++ mjoin ((λ method,
       [i +:+ "@abc___abstractmethod";
        i +:+ "def " +:+ MethodDescriptorProto.name method +:+ "(self,";
        (i +:+ "    ") +:+ "request: " +:+ request method +:+ ",";
        (i +:+ "    ") +:+ "context: grpc___ServicerContext,";
        i +:+ ") -> " +:+ returns method +:+ ": ...";
        EmptyString]) <$> methods_of service))
  ∧ runs i f d (write_grpc_stub_methods service) tt
      (pass ++ mjoin ((λ method,
         [i +:+ "def " +:+ MethodDescriptorProto.name method +:+ "(self,";
          (i +:+ "    ") +:+ "request: " +:+ request method +:+ ",";
          i +:+ ") -> " +:+ returns method +:+ ": ...";
          EmptyString]) <$> methods_of service)).
Proof.
  intros Hres returns pass. split.
  - by apply runs_write_grpc_methods.
  - by apply runs_write_grpc_stub_methods.
Qed.

(** The servicer and the stub of a gRPC service. *)
Definition grpc_service_lines (i : string) (service : ServiceDescriptorProto.t) : list string :=
  let name := ServiceDescriptorProto.name service in
  [i +:+ "class " +:+ name +:+ "Servicer(metaclass=abc___ABCMeta):"]
  ++ grpc_methods_lines (i +:+ "    ") service
  ++ [EmptyString;
      i +:+ "class " +:+ name +:+ "Stub:";
      (i +:+ "    ") +:+ "def __init__(self, channel: grpc___Channel) -> None: ..."]
  ++ grpc_stub_methods_lines (i +:+ "    ") service
  ++ [EmptyString].

(** For a file in a directory, [write_grpc_services] first re-exports the
    [_pb2] module that lies beside the stub, named after the file without
    its directory, and then writes the servicer and the stub of every
    service whose name is not reserved. *)
Theorem write_grpc_services_lines (i dir base : string)
    (services : list ServiceDescriptorProto.t) :
  FileDescriptorProto.name f = dir +:+ "/" +:+ base →
  Py.contains "/" base = false →
  (∀ service, service ∈ services →
     ServiceDescriptorProto.name service ∉ PYTHON_RESERVED →
     resolved f d request response service) →
  runs i f d (write_grpc_services services) tt
    ([i +:+ "from ." +:+ (Py.replace "-" "_" (Py.drop_last 6 base) +:+ "_pb2") +:+ " import *"]
     ++ mjoin (grpc_service_lines i
                 <$> filter (λ s, ServiceDescriptorProto.name s ∉ PYTHON_RESERVED) services)).
Proof.
  intros Hname Hbase Hres. unfold write_grpc_services. cbv zeta.
  apply runs_get. intros w _ Hf _. rewrite Hf, Hname.
  eapply (runs_bind _ _ _ _ _ _ _ []).
  { apply runs_index. change ("/" +:+ base) with (String "/" base).
    by rewrite rsplit1_directory. }
  eapply (runs_bind _ _ _ _ _ tt _ [_]); [by apply runs_line|].
  apply runs_for.
  intros service [Hsvc Hin]%list_elem_of_filter. specialize (Hres service Hin Hsvc).
  unfold grpc_service_lines. cbv zeta.
  eapply (runs_bind _ _ _ _ _ _ _ []); [apply runs_import|].
  eapply (runs_bind _ _ _ _ _ tt _ [_]); [by apply runs_line|].
  eapply (runs_bind _ _ _ _ _ tt _ _); [by apply runs_indent, runs_write_grpc_methods|].
  eapply (runs_bind _ _ _ _ _ tt _ [_] (_ :: _ :: _)); [apply runs_write_line|].
  eapply (runs_bind _ _ _ _ _ tt _ [_] (_ :: _)); [by apply runs_line|].
  eapply (runs_bind _ _ _ _ _ tt _ (_ :: _) [_]); [|apply runs_write_line].
  apply runs_indent.
  eapply (runs_bind _ _ _ _ _ _ _ []); [apply runs_import|].
  eapply (runs_bind _ _ _ _ _ tt _ [_]); [by apply runs_line|].
  by apply runs_write_grpc_stub_methods.
Qed.

End grpc_services.

(** ** Plain fields *)

Lemma join_singletons {A B} (g : A → B) (l : list A) : mjoin ((λ x, [g x]) <$> l) = g <$> l.
Proof. induction l as [|x l IH]; [done|]. cbn. by rewrite <-IH. Qed.

Lemma filter_all {A} (P : A → Prop) `{∀ x, Decision (P x)} (l : list A) :
  (∀ x, x ∈ l → P x) → filter P l = l.
Proof.
  induction l as [|x l IH]; [done|]. intros Hall. rewrite filter_cons_True by (apply Hall; by left).
  rewrite IH; [done|]. intros. apply Hall. by right.
Qed.

Lemma filter_none {A} (P : A → Prop) `{∀ x, Decision (P x)} (l : list A) :
  (∀ x, x ∈ l → ¬ P x) → filter P l = [].
Proof.
  induction l as [|x l IH]; [done|]. intros Hall. rewrite filter_cons_False by (apply Hall; by left).
  apply IH. intros. apply Hall. by right.
Qed.

Section plain_fields.
Context (i : string) (f : FileDescriptorProto.t) (d : Descriptors.t).
Context (ty : FieldDescriptorProto.t → string).

(** The fields that are written, and the case where they all are scalars
    that are not repeated, of a type that resolves. *)
Definition fields_of (desc_field : list FieldDescriptorProto.t) : list FieldDescriptorProto.t :=
  filter (λ fl, FieldDescriptorProto.name fl ∉ PYTHON_RESERVED) desc_field.

Definition plain (desc_field : list FieldDescriptorProto.t) : Prop :=
  ∀ field, field ∈ fields_of desc_field →
    is_scalar field = true
    ∧ FieldDescriptorProto.label field ≠ FieldDescriptorProto.LABEL_REPEATED
    ∧ type_expr f d field = Ok (ty field).

(** For the plain scalar fields of a message, [write_fields] writes one
    attribute per field, an empty line, and the constructor: every field
    is an optional parameter, and the parameters are made keyword-only by
    [*,] exactly when there is one. Fields with a reserved name are left
    out of both. *)
Theorem write_fields_plain (desc_field : list FieldDescriptorProto.t) :
  plain desc_field →
  runs i f d (write_fields desc_field) tt
    (((λ field, i +:+ FieldDescriptorProto.name field +:+ ": " +:+ ty field +:+ " = ...")
        <$> fields_of desc_field)
     ++ [EmptyString; i +:+ "def __init__(self,"]
     ++ (if bool_decide (fields_of desc_field = []) then [] else [(i +:+ "    ") +:+ "*,"])
     ++ ((λ field, (i +:+ "    ") +:+ FieldDescriptorProto.name field
                     +:+ " : typing___Optional[" +:+ ty field +:+ "] = None,")
           <$> fields_of desc_field)
     ++ [(i +:+ "    ") +:+ ") -> None: ..."]).
Proof.
  intros Hplain. unfold write_fields. cbv zeta. fold (fields_of desc_field).
  assert (filter (λ fl, is_scalar fl) (fields_of desc_field) = fields_of desc_field) as ->.
  { apply filter_all. intros field (Hs & _)%Hplain. by rewrite Hs. }
  assert (filter (λ fl, ¬ is_scalar fl) (fields_of desc_field) = []) as ->.
  { apply filter_none. intros field (Hs & _)%Hplain. rewrite Hs. by intros []. }
  eapply (runs_bind _ _ _ _ _ tt _ _ (_ :: _)).
  { rewrite <-join_singletons. apply runs_for. intros field (_ & Hlabel & Hty)%Hplain.
    unfold write_scalar_field. cbv zeta. rewrite bool_decide_eq_false_2 by done.
    eapply (runs_bind _ _ _ _ _ _ _ []); [by apply python_type_runs|]. by apply runs_line. }
  eapply (runs_bind _ _ _ _ _ tt _ [_]); [apply runs_write_line|].
  eapply (runs_bind _ _ _ _ _ tt _ []); [apply (runs_ret _ _ _ tt)|].
  eapply (runs_bind _ _ _ _ _ tt _ [_]); [by apply runs_line|].
  apply runs_indent.
  eapply (runs_bind _ _ _ _ _ tt _ _).
  { destruct (fields_of desc_field) as [|field fields] eqn:Hfields.
    - rewrite bool_decide_eq_false_2 by (cbn; lia). rewrite bool_decide_eq_true_2 by done.
      apply (runs_ret _ _ _ tt).
    - rewrite bool_decide_eq_true_2 by (cbn; lia). rewrite bool_decide_eq_false_2 by done.
      by apply runs_line. }
  eapply (runs_bind _ _ _ _ _ tt _ _ [_]); [|by apply runs_line].
  rewrite <-join_singletons. apply runs_for. intros field (_ & Hlabel & Hty)%Hplain.
  unfold write_init_arg. cbv zeta. rewrite bool_decide_eq_false_2 by done.
  eapply (runs_bind _ _ _ _ _ _ _ []); [apply runs_import|].
  eapply (runs_bind _ _ _ _ _ _ _ []); [by apply python_type_runs|]. by apply runs_line.
Qed.

End plain_fields.

(** ** The index of the request: [Descriptors.__init__] *)

(** The keys the code adds for a list of enums, and for a message with all
    that is nested in it: to [messages] and to [message_to_fd]. *)
Definition enum_names (enums : list EnumDescriptorProto.t) (prefix : string) : list string :=
  mjoin ((λ enum, [prefix +:+ EnumDescriptorProto.name enum;
                   prefix +:+ EnumDescriptorProto.name enum +:+ "Value"]) <$> enums).

Fixpoint message_names (message : DescriptorProto.t) (prefix : string) : list string :=
  let sub_prefix := prefix +:+ DescriptorProto.name message +:+ "." in
  (prefix +:+ DescriptorProto.name message)
  :: (fix nested (messages : list DescriptorProto.t) : list string :=
        match messages with
        | [] => []
        | m :: messages' => message_names m sub_prefix ++ nested messages'
        end) (DescriptorProto.nested_type message).

Fixpoint type_names (message : DescriptorProto.t) (prefix : string) : list string :=
  let sub_prefix := prefix +:+ DescriptorProto.name message +:+ "." in
  (prefix +:+ DescriptorProto.name message)
  :: (fix nested (messages : list DescriptorProto.t) : list string :=
        match messages with
        | [] => []
        | m :: messages' => type_names m sub_prefix ++ nested messages'
        end) (DescriptorProto.nested_type message)
  ++ enum_names (DescriptorProto.enum_type message) sub_prefix.

(** The keys of a file. *)
Definition file_message_names (fd : FileDescriptorProto.t) : list string :=
  mjoin ((λ m, message_names m (package_prefix fd)) <$> FileDescriptorProto.message_type fd).
Definition file_type_names (fd : FileDescriptorProto.t) : list string :=
  mjoin ((λ m, type_names m (package_prefix fd)) <$> FileDescriptorProto.message_type fd)
  ++ enum_names (FileDescriptorProto.enum_type fd) (package_prefix fd).

Lemma message_names_eq message prefix :
  message_names message prefix =
    (prefix +:+ DescriptorProto.name message)
    :: mjoin ((λ m, message_names m (prefix +:+ DescriptorProto.name message +:+ "."))
                <$> DescriptorProto.nested_type message).
Proof.
  destruct message as [name field nested enums oneofs options]. cbn. f_equal.
  induction nested as [|m nested IH]; [done|]. cbn. by rewrite IH.
Qed.

Lemma type_names_eq message prefix :
  type_names message prefix =
    (prefix +:+ DescriptorProto.name message)
    :: mjoin ((λ m, type_names m (prefix +:+ DescriptorProto.name message +:+ "."))
                <$> DescriptorProto.nested_type message)
    ++ enum_names (DescriptorProto.enum_type message)
         (prefix +:+ DescriptorProto.name message +:+ ".").
Proof.
  destruct message as [name field nested enums oneofs options]. cbn. do 2 f_equal.
  induction nested as [|m nested IH]; [done|]. cbn. by rewrite IH.
Qed.

Lemma add_message_eq message prefix fd ix :
  Descriptors._add_message message prefix fd ix =
    Descriptors._add_enums (DescriptorProto.enum_type message)
      (prefix +:+ DescriptorProto.name message +:+ ".") fd
      (Descriptors._add_messages (DescriptorProto.nested_type message)
         (prefix +:+ DescriptorProto.name message +:+ ".") fd
         (<[prefix +:+ DescriptorProto.name message := message]> ix.1,
          <[prefix +:+ DescriptorProto.name message := fd]> ix.2)).
Proof.
  destruct message as [name field nested enums oneofs options].
  cbn [Descriptors._add_message DescriptorProto.enum_type DescriptorProto.nested_type
       DescriptorProto.name]. cbv zeta. f_equal.
  unfold Descriptors._add_messages.
  generalize (<[prefix +:+ name := DescriptorProto.mk name field nested enums oneofs options]> ix.1,
              <[prefix +:+ name := fd]> ix.2).
  induction nested as [|m nested IH]; intros ix'; [done|]. cbn [foldl]. apply IH.
Qed.

Section index.
Context (fd : FileDescriptorProto.t).

(** What holds of an index once names of [fd] are added: every key of
    [messages] is a key of [message_to_fd], and the entries of
    [message_to_fd] satisfy [P]. *)
Definition index_inv (P : string → FileDescriptorProto.t → Prop) (ix : Descriptors.index) : Prop :=
  (∀ k, is_Some (ix.1 !! k) → is_Some (ix.2 !! k))
  ∧ (∀ k fd', ix.2 !! k = Some fd' → P k fd').

Lemma add_enums_spec enums prefix ix :
  (Descriptors._add_enums enums prefix fd ix).1 = ix.1
  ∧ dom (Descriptors._add_enums enums prefix fd ix).2
      = dom ix.2 ∪ list_to_set (enum_names enums prefix).
Proof.
  unfold Descriptors._add_enums. revert ix.
  induction enums as [|enum enums IH]; intros ix.
  - cbn. split; [done|]. set_solver.
  - cbn [foldl]. destruct (IH (ix.1,
        <[prefix +:+ EnumDescriptorProto.name enum +:+ "Value" := fd]>
          (<[prefix +:+ EnumDescriptorProto.name enum := fd]> ix.2))) as [-> ->].
    split; [done|]. cbn. rewrite !dom_insert_L. set_solver.
Qed.

Lemma add_enums_inv P enums prefix ix :
  (∀ s, P (prefix +:+ s) fd) → index_inv P ix →
  index_inv P (Descriptors._add_enums enums prefix fd ix).
Proof.
  intros HP. unfold Descriptors._add_enums. revert ix.
  induction enums as [|enum enums IH]; intros ix Hix; [done|].
  cbn [foldl]. apply IH. destruct Hix as [Hdom Hval]. split; cbn.
  - intros k Hk%Hdom. rewrite !lookup_insert_is_Some'. auto.
  - intros k fd'. rewrite !lookup_insert_Some.
    intros [[<- <-]|[_ [[<- <-]|[_ Hk]]]]; [apply HP..|by apply Hval].
Qed.

Lemma add_message_spec message prefix ix :
  dom (Descriptors._add_message message prefix fd ix).1
    = dom ix.1 ∪ list_to_set (message_names message prefix)
  ∧ dom (Descriptors._add_message message prefix fd ix).2
    = dom ix.2 ∪ list_to_set (type_names message prefix).
Proof.
  revert prefix ix. induction message as [message IH] using DescriptorProto_nested_ind.
  intros prefix ix. rewrite add_message_eq, message_names_eq, type_names_eq.
  set (sub_prefix := prefix +:+ DescriptorProto.name message +:+ ".").
  destruct (add_enums_spec (DescriptorProto.enum_type message) sub_prefix
              (Descriptors._add_messages (DescriptorProto.nested_type message) sub_prefix fd
                 (<[prefix +:+ DescriptorProto.name message := message]> ix.1,
                  <[prefix +:+ DescriptorProto.name message := fd]> ix.2))) as [-> ->].
  assert (Hnested : ∀ ix0,
            dom (Descriptors._add_messages (DescriptorProto.nested_type message) sub_prefix fd ix0).1
              = dom ix0.1 ∪ list_to_set (mjoin ((λ m, message_names m sub_prefix)
                                                   <$> DescriptorProto.nested_type message))
            ∧ dom (Descriptors._add_messages (DescriptorProto.nested_type message) sub_prefix fd ix0).2
              = dom ix0.2 ∪ list_to_set (mjoin ((λ m, type_names m sub_prefix)
                                                   <$> DescriptorProto.nested_type message))).
  { unfold Descriptors._add_messages.
    induction IH as [|m messages Hm _ IHm]; intros ix0; cbn [foldl].
    - cbn. split; set_solver.
    - destruct (IHm (Descriptors._add_message m sub_prefix fd ix0)) as [-> ->].
      destruct (Hm sub_prefix ix0) as [-> ->]. cbn. rewrite !list_to_set_app_L.
      split; set_solver. }
  destruct (Hnested (<[prefix +:+ DescriptorProto.name message := message]> ix.1,
                     <[prefix +:+ DescriptorProto.name message := fd]> ix.2)) as [-> ->].
  cbn [fst snd]. rewrite !dom_insert_L, !list_to_set_cons, list_to_set_app_L.
  split; set_solver.
Qed.

Lemma add_message_inv P message prefix ix :
  (∀ s, P (prefix +:+ s) fd) → index_inv P ix →
  index_inv P (Descriptors._add_message message prefix fd ix).
Proof.
  revert prefix ix. induction message as [message IH] using DescriptorProto_nested_ind.
  intros prefix ix HP Hix. rewrite add_message_eq.
  assert (Hsub : ∀ s, P ((prefix +:+ DescriptorProto.name message +:+ ".") +:+ s) fd).
  { intros s. rewrite !text_app_assoc. apply HP. }
  apply add_enums_inv; [done|].
  assert (Hhere : index_inv P (<[prefix +:+ DescriptorProto.name message := message]> ix.1,
                               <[prefix +:+ DescriptorProto.name message := fd]> ix.2)).
  { destruct Hix as [Hdom Hval]. split; cbn.
    - intros k. rewrite !lookup_insert_is_Some'. intros [?|?%Hdom]; auto.
    - intros k fd'. rewrite lookup_insert_Some. intros [[<- <-]|[_ Hk]]; [apply HP|by apply Hval]. }
  revert Hhere. generalize (<[prefix +:+ DescriptorProto.name message := message]> ix.1,
                            <[prefix +:+ DescriptorProto.name message := fd]> ix.2).
  unfold Descriptors._add_messages.
  induction IH as [|m messages Hm _ IHm]; intros ix0 Hix0; cbn [foldl]; [done|].
  apply IHm. by apply Hm.
Qed.

End index.

(** The package prefix and the files of a request. *)
Definition index_entry (request : CodeGeneratorRequest.t) (k : string)
    (fd : FileDescriptorProto.t) : Prop :=
  fd ∈ CodeGeneratorRequest.proto_file request ∧ ∃ rest, k = package_prefix fd +:+ rest.

(** The index after the loop over the files of a request. *)
Definition index_of (files : list FileDescriptorProto.t) : Descriptors.index :=
  foldl (λ ix fd,
           let start_prefix :=
             if bool_decide (FileDescriptorProto.package fd ≠ EmptyString)
             then "." +:+ FileDescriptorProto.package fd +:+ "."
             else "." in
           let ix := Descriptors._add_messages (FileDescriptorProto.message_type fd)
                       start_prefix fd ix in
           Descriptors._add_enums (FileDescriptorProto.enum_type fd) start_prefix fd ix)
        (∅, ∅) files.

Lemma init_index request descriptors :
  Descriptors.__init__ request = Ok descriptors →
  Descriptors.messages descriptors = (index_of (CodeGeneratorRequest.proto_file request)).1
  ∧ Descriptors.message_to_fd descriptors = (index_of (CodeGeneratorRequest.proto_file request)).2.
Proof.
  unfold Descriptors.__init__. cbv zeta.
  destruct (foldl _ (Ok []) _) as [to_generate|e]; [|done]. by intros [= <-].
Qed.

Lemma index_of_snoc files fd :
  index_of (files ++ [fd]) =
    Descriptors._add_enums (FileDescriptorProto.enum_type fd) (package_prefix fd) fd
      (Descriptors._add_messages (FileDescriptorProto.message_type fd) (package_prefix fd) fd
         (index_of files)).
Proof. unfold index_of. by rewrite foldl_app. Qed.

Lemma add_messages_spec fd messages prefix ix :
  dom (Descriptors._add_messages messages prefix fd ix).1
    = dom ix.1 ∪ list_to_set (mjoin ((λ m, message_names m prefix) <$> messages))
  ∧ dom (Descriptors._add_messages messages prefix fd ix).2
    = dom ix.2 ∪ list_to_set (mjoin ((λ m, type_names m prefix) <$> messages)).
Proof.
  unfold Descriptors._add_messages. revert ix.
  induction messages as [|m messages IH]; intros ix; cbn [foldl].
  - cbn. split; set_solver.
  - destruct (IH (Descriptors._add_message m prefix fd ix)) as [-> ->].
    destruct (add_message_spec fd m prefix ix) as [-> ->]. cbn. rewrite !list_to_set_app_L.
    split; set_solver.
Qed.

Lemma add_messages_inv fd P messages prefix ix :
  (∀ s, P (prefix +:+ s) fd) → index_inv P ix →
  index_inv P (Descriptors._add_messages messages prefix fd ix).
Proof.
  intros HP. unfold Descriptors._add_messages. revert ix.
  induction messages as [|m messages IH]; intros ix Hix; cbn [foldl]; [done|].
  apply IH. by apply add_message_inv.
Qed.

(** The keys of the two indexes are the qualified names of the request:
    [messages] holds every message, at any depth, under its package and the
    messages around it; [message_to_fd] holds these and, for every enum,
    its name and the name of its value type. *)
Theorem index_names (request : CodeGeneratorRequest.t) (descriptors : Descriptors.t) :
  Descriptors.__init__ request = Ok descriptors →
  (∀ k, is_Some (Descriptors.messages descriptors !! k)
        ↔ ∃ fd, fd ∈ CodeGeneratorRequest.proto_file request ∧ k ∈ file_message_names fd)
  ∧ (∀ k, is_Some (Descriptors.message_to_fd descriptors !! k)
          ↔ ∃ fd, fd ∈ CodeGeneratorRequest.proto_file request ∧ k ∈ file_type_names fd).
Proof.
  intros [-> ->]%init_index. rewrite <-!forall_and_distr. intros k.
  rewrite <-!elem_of_dom.
  induction (CodeGeneratorRequest.proto_file request) as [|fd files IH] using rev_ind.
  - cbn. rewrite !dom_empty_L. split; (split; [set_solver|]); by intros (fd & ?%elem_of_nil & _).
  - destruct IH as [IH1 IH2]. rewrite index_of_snoc.
    destruct (add_enums_spec fd (FileDescriptorProto.enum_type fd) (package_prefix fd)
                (Descriptors._add_messages (FileDescriptorProto.message_type fd)
                   (package_prefix fd) fd (index_of files))) as [-> ->].
    destruct (add_messages_spec fd (FileDescriptorProto.message_type fd) (package_prefix fd)
                (index_of files)) as [-> ->].
    rewrite !elem_of_union, !elem_of_list_to_set, IH1, IH2.
    assert (Hlast : ∀ fd', fd' ∈ files ++ [fd] ↔ fd' ∈ files ∨ fd' = fd).
    { intros fd'. by rewrite elem_of_app, list_elem_of_singleton. }
    unfold file_type_names. setoid_rewrite Hlast. setoid_rewrite elem_of_app. split.
    + split.
      * intros [(fd' & Hin & Hk)|Hk]; [exists fd'|exists fd]; auto.
      * intros (fd' & [Hin| ->] & Hk); [left; eauto|by right].
    + split.
      * intros [[(fd' & Hin & Hk)|Hk]|Hk]; [exists fd'|exists fd..]; auto.
      * intros (fd' & [Hin| ->] & Hk); [left; left; eauto|]. destruct Hk; auto.
Qed.

(** Every entry of [message_to_fd] names a file of the request, under a
    key that starts with the package of that file in dots, and every key
    of [messages] is a key of [message_to_fd]: in an index built by
    [Descriptors.__init__], the lookups of [_import_message] never fail its
    assertion on the package. *)
Theorem index_entries (request : CodeGeneratorRequest.t) (descriptors : Descriptors.t) :
  Descriptors.__init__ request = Ok descriptors →
  (∀ k fd, Descriptors.message_to_fd descriptors !! k = Some fd →
     fd ∈ CodeGeneratorRequest.proto_file request
     ∧ Py.startswith k (package_prefix fd) = true)
  ∧ (∀ k, is_Some (Descriptors.messages descriptors !! k) →
          is_Some (Descriptors.message_to_fd descriptors !! k)).
Proof.
  intros [-> ->]%init_index.
  assert (Hinv : index_inv (index_entry request)
                   (index_of (CodeGeneratorRequest.proto_file request))).
  { unfold index_entry.
    induction (CodeGeneratorRequest.proto_file request) as [|fd files IH] using rev_ind.
    - split; cbn; intros k; [by intros [? ?%lookup_empty_Some]|].
      intros fd'. by rewrite lookup_empty.
    - rewrite index_of_snoc.
      assert (index_inv (λ k fd', fd' ∈ files ++ [fd] ∧ ∃ rest, k = package_prefix fd' +:+ rest)
                (index_of files)) as IH'.
      { destruct IH as [Hdom Hval]. split; [done|]. intros k fd' [Hin ?]%Hval.
        split; [|done]. apply elem_of_app. by left. }
      apply add_enums_inv, add_messages_inv; try done.
      all: intros s; split; [apply elem_of_app; right; by left|by exists s]. }
  destruct Hinv as [Hdom Hval]. split; [|done].
  intros k fd [Hin [rest ->]]%Hval. split; [done|apply startswith_app].
Qed.

(** ** The files of the request and the files to generate *)

(** The dict [files] of [Descriptors.__init__]. *)
Definition files_of (proto_file : list FileDescriptorProto.t) : gmap string FileDescriptorProto.t :=
  foldl (λ files f, <[FileDescriptorProto.name f := f]> files) ∅ proto_file.

(** The comprehension that builds [to_generate]. *)
Definition to_generate_of (files : gmap string FileDescriptorProto.t) (names : list string) :
    result (list (string * FileDescriptorProto.t)) :=
  foldl (λ acc n,
           match acc with
           | Raise e => Raise e
           | Ok d => match files !! n with
                     | Some f => Ok (Descriptors.dict_set n f d)
                     | None => Raise (KeyError n)
                     end
           end)
        (Ok []) names.

Lemma files_of_lookup proto_file n fd :
  files_of proto_file !! n = Some fd → fd ∈ proto_file ∧ FileDescriptorProto.name fd = n.
Proof.
  unfold files_of. induction proto_file as [|f files IH] using rev_ind; [cbn; by rewrite lookup_empty|].
  rewrite foldl_app. cbn. rewrite lookup_insert_Some. setoid_rewrite elem_of_app.
  setoid_rewrite list_elem_of_singleton. intros [[<- <-]|[_ []%IH]]; auto.
Qed.

Lemma files_of_is_Some proto_file n :
  is_Some (files_of proto_file !! n)
  ↔ ∃ fd, fd ∈ proto_file ∧ FileDescriptorProto.name fd = n.
Proof.
  split; [intros [fd Hfd%files_of_lookup]; eauto|]. intros (fd & Hin & <-).
  unfold files_of. revert Hin.
  induction proto_file as [|f files IH] using rev_ind; intros Hin; [by apply elem_of_nil in Hin|].
  rewrite foldl_app. cbn. rewrite lookup_insert_is_Some'.
  apply elem_of_app in Hin as [Hin| ->%list_elem_of_singleton]; auto.
Qed.

Lemma dict_set_keys {V} k (v : V) d :
  (Descriptors.dict_set k v d).*1 = if decide (k ∈ d.*1) then d.*1 else d.*1 ++ [k].
Proof.
  induction d as [|[k' v'] d IH]; [done|]. cbn [Descriptors.dict_set].
  destruct (decide (k = k')) as [->|Hne].
  - cbn. rewrite decide_True; [done|by left].
  - cbn. rewrite IH. destruct (decide (k ∈ d.*1)) as [Hin|Hnin].
    + rewrite decide_True; [done|by right].
    + rewrite decide_False; [done|]. by intros [?|?]%elem_of_cons.
Qed.

Lemma dict_set_elem_of {V} k (v : V) d e :
  e ∈ Descriptors.dict_set k v d → e = (k, v) ∨ e ∈ d.
Proof.
  induction d as [|[k' v'] d IH]; cbn [Descriptors.dict_set].
  - intros ->%list_elem_of_singleton. by left.
  - destruct (decide (k = k')) as [->|Hne]; rewrite !elem_of_cons; intros [->|He]; auto.
    destruct (IH He); auto.
Qed.

(** What the comprehension gives on a list of names: the names in the
    order of their first occurrence, each with the file of that name; or
    the [KeyError] of the first name that no file bears. *)
Lemma to_generate_of_spec files names :
  match to_generate_of files names with
  | Ok d =>
      d.*1 = reverse (remove_dups (reverse names))
      ∧ (∀ n fd, (n, fd) ∈ d → files !! n = Some fd)
      ∧ ∀ n, n ∈ names → is_Some (files !! n)
  | Raise e =>
      ∃ before n after,
        names = before ++ n :: after ∧ files !! n = None ∧ e = KeyError n
        ∧ ∀ m, m ∈ before → is_Some (files !! m)
  end.
Proof.
  unfold to_generate_of. induction names as [|n names IH] using rev_ind.
  - cbn. split_and!; [done|by intros ? ? ?%elem_of_nil|by intros ? ?%elem_of_nil].
  - rewrite foldl_app. cbn [foldl]. destruct (foldl _ _ names) as [d|e].
    + destruct IH as (Hkeys & Hentries & Hall).
      destruct (files !! n) as [fd|] eqn:Hn.
      * split_and!.
        -- rewrite dict_set_keys, reverse_app, Hkeys.
           change (reverse [n] ++ reverse names) with (n :: reverse names).
           change (remove_dups (n :: reverse names))
             with (if decide_rel elem_of n (reverse names) then remove_dups (reverse names)
                   else n :: remove_dups (reverse names)).
           destruct (decide_rel elem_of n (reverse names)) as [Hin|Hnin].
           ++ rewrite decide_True; [done|]. by rewrite elem_of_reverse, elem_of_remove_dups.
           ++ rewrite decide_False; [by rewrite reverse_cons|].
              by rewrite elem_of_reverse, elem_of_remove_dups.
        -- intros n' fd' [[= -> ->]|Hin]%dict_set_elem_of; eauto.
        -- intros n' [Hin| ->%list_elem_of_singleton]%elem_of_app; eauto.
      * exists names, n, []. split_and!; done.
    + destruct IH as (before & n' & after & -> & Hn & -> & Hall).
      exists before, n', (after ++ [n]). by rewrite <-(assoc_L (++)).
Qed.

Lemma init_eq request :
  Descriptors.__init__ request =
    match to_generate_of (files_of (CodeGeneratorRequest.proto_file request))
            (CodeGeneratorRequest.file_to_generate request) with
    | Raise e => Raise e
    | Ok to_generate =>
        Ok (Descriptors.mk (files_of (CodeGeneratorRequest.proto_file request)) to_generate
              (index_of (CodeGeneratorRequest.proto_file request)).1
              (index_of (CodeGeneratorRequest.proto_file request)).2)
    end.
Proof. reflexivity. Qed.

(** The files to generate are walked in the order they are asked for,
    each once, and each entry is the file of the request that bears the
    name it is listed under: the assertion [name == fd.name] of the two
    generators holds of every entry. The dict [files] holds the files of
    the request by name. *)
Theorem to_generate_entries (request : CodeGeneratorRequest.t) (descriptors : Descriptors.t) :
  Descriptors.__init__ request = Ok descriptors →
  (Descriptors.to_generate descriptors).*1
    = reverse (remove_dups (reverse (CodeGeneratorRequest.file_to_generate request)))
  ∧ NoDup (Descriptors.to_generate descriptors).*1
  ∧ (∀ name fd, (name, fd) ∈ Descriptors.to_generate descriptors →
       Descriptors.files descriptors !! name = Some fd
       ∧ fd ∈ CodeGeneratorRequest.proto_file request
       ∧ name = FileDescriptorProto.name fd)
  ∧ (∀ name, is_Some (Descriptors.files descriptors !! name)
             ↔ ∃ fd, fd ∈ CodeGeneratorRequest.proto_file request
                     ∧ FileDescriptorProto.name fd = name).
Proof.
  rewrite init_eq.
  pose proof (to_generate_of_spec (files_of (CodeGeneratorRequest.proto_file request))
                (CodeGeneratorRequest.file_to_generate request)) as Hspec.
  destruct (to_generate_of _ _) as [to_generate|e]; [|done].
  destruct Hspec as (Hkeys & Hentries & _). intros [= <-]. cbn. split_and!.
  - done.
  - rewrite Hkeys, reverse_Permutation. apply NoDup_remove_dups.
  - intros name fd Hfd%Hentries. split; [done|].
    apply files_of_lookup in Hfd as [? ?]. by split.
  - apply files_of_is_Some.
Qed.

(** [Descriptors.__init__] raises exactly when a file to generate is not
    among the files of the request, and then it is the [KeyError] of the
    first such name; [main] and [grpc] raise the same, and write no
    response. *)
Theorem missing_file (request : CodeGeneratorRequest.t) (e : exn) :
  (Descriptors.__init__ request = Raise e
   ↔ ∃ before name after,
       CodeGeneratorRequest.file_to_generate request = before ++ name :: after
       ∧ (∀ m, m ∈ before →
            ∃ fd, fd ∈ CodeGeneratorRequest.proto_file request ∧ FileDescriptorProto.name fd = m)
       ∧ (∀ fd, fd ∈ CodeGeneratorRequest.proto_file request →
            FileDescriptorProto.name fd ≠ name)
       ∧ e = KeyError name)
  ∧ ∀ `{HashOrder},
      Descriptors.__init__ request = Raise e → main request = Raise e ∧ grpc request = Raise e.
Proof.
  split.
  - rewrite init_eq.
    pose proof (to_generate_of_spec (files_of (CodeGeneratorRequest.proto_file request))
                  (CodeGeneratorRequest.file_to_generate request)) as Hspec.
    destruct (to_generate_of _ _) as [to_generate|e'].
    + destruct Hspec as (_ & _ & Hall). split; [done|].
      intros (before & name & after & Hnames & _ & Hnone & _). exfalso.
      destruct (Hall name) as [fd Hfd]; [rewrite Hnames; set_solver|].
      apply files_of_lookup in Hfd as [Hin Hname]. by apply (Hnone fd).
    + destruct Hspec as (before & name & after & Hnames & Hnone & -> & Hall). split.
      * intros [= <-]. exists before, name, after. split_and!; [done| | |done].
        -- intros m Hm%Hall. by apply files_of_is_Some.
        -- intros fd Hin Hname. apply eq_None_not_Some in Hnone. apply Hnone.
           apply files_of_is_Some. eauto.
      * intros (before' & name' & after' & Hnames' & Hall' & Hnone' & ->). f_equal. f_equal.
        rewrite Hnames in Hnames'.
        assert (Hn : ∀ m, m ∈ before → m ≠ name').
        { intros m [fd [Hin <-]]%Hall%files_of_is_Some. by apply Hnone'. }
        assert (Hn' : ∀ m, m ∈ before' → m ≠ name).
        { intros m (fd & Hin & Hm)%Hall' ->. apply eq_None_not_Some in Hnone. apply Hnone.
          apply files_of_is_Some. eauto. }
        clear -Hnames' Hn Hn'. revert before' Hnames' Hn'.
        induction before as [|b before IH]; intros [|b' before'] Heq Hn'; cbn in Heq.
        -- by injection Heq.
        -- injection Heq as -> _. destruct (Hn' b'); [by left|done].
        -- injection Heq as -> _. destruct (Hn name'); [by left|done].
        -- injection Heq as -> Heq. apply (IH (λ m Hm, Hn m (proj2 (elem_of_cons _ _ _) (or_intror Hm))) before');
             [done|]. intros m Hm. apply Hn'. by right.
  - intros O Hraise. unfold main, grpc. by rewrite Hraise.
Qed.

(** ** The aliases of the builtins *)

(** The builtins the writer asks for. *)
Definition PY3_BUILTINS : gset string := list_to_set ["float"; "int"; "bool"; "bytes"].

(** [w'] is [w] with at most these builtins added, and none of Python 2. *)
Definition grows (w w' : t) : Prop :=
  py2_builtin_vars w' = py2_builtin_vars w
  ∧ builtin_vars w' ⊆ builtin_vars w ∪ PY3_BUILTINS.

Definition keeps {A} (m : M A) : Prop :=
  ∀ w a w', m w = Ok (a, w') → grows w w'.

Lemma grows_refl w : grows w w.
Proof. split; [done|]. apply union_subseteq_l. Qed.

Lemma grows_frame w w' :
  py2_builtin_vars w' = py2_builtin_vars w → builtin_vars w' = builtin_vars w → grows w w'.
Proof. intros Hp Hb. split; [done|]. rewrite Hb. apply union_subseteq_l. Qed.

Lemma grows_trans w1 w2 w3 : grows w1 w2 → grows w2 w3 → grows w1 w3.
Proof.
  intros [Hp Hb] [Hp' Hb']. split; [congruence|].
  etrans; [exact Hb'|]. apply union_least; [|apply union_subseteq_r].
  exact Hb.
Qed.

Lemma keeps_ret {A} (a : A) : keeps (mret a).
Proof. intros w ?? [= <- <-]. apply grows_refl. Qed.

Lemma keeps_raise {A} e : keeps (raise e : M A).
Proof. by intros w ??. Qed.

Lemma keeps_bind {A B} (m : M A) (k : A → M B) :
  keeps m → (∀ a, keeps (k a)) → keeps (m ≫= k).
Proof.
  intros Hm Hk w b w'. rewrite run_bind.
  destruct (m w) as [[a w1]|e] eqn:Hw; [|done]. intros Hrun.
  eapply grows_trans; [by eapply Hm|by eapply Hk].
Qed.

Lemma keeps_if {A} (b : bool) (m1 m2 : M A) :
  keeps m1 → keeps m2 → keeps (if b then m1 else m2).
Proof. by destruct b. Qed.

Lemma keeps_ext {A} (m1 m2 : M A) : (∀ w, m1 w = m2 w) → keeps m1 → keeps m2.
Proof. intros Heq Hm w a w'. rewrite <-Heq. apply Hm. Qed.

Lemma keeps_get : keeps get.
Proof. intros w a w' [= <- <-]. apply grows_refl. Qed.

Lemma keeps_modify g :
  (∀ w, py2_builtin_vars (g w) = py2_builtin_vars w ∧ builtin_vars (g w) = builtin_vars w) →
  keeps (modify g).
Proof.
  intros Hg w a w' [= <- <-]. destruct (Hg w) as [Hp Hb]. by apply grows_frame.
Qed.

Lemma keeps_write_line line args : keeps (_write_line line args).
Proof. intros w [] w'. rewrite run_write_line. intros [= <-]. by apply grows_frame. Qed.

Lemma keeps_import path name : keeps (_import path name).
Proof. intros w a w'. rewrite run_import. intros [= <- <-]. by apply grows_frame. Qed.

Lemma keeps_assert b msg : keeps (assert b msg).
Proof. destruct b; [apply (keeps_ret tt)|apply keeps_raise]. Qed.

Lemma keeps_getitem {V} (dict : gmap string V) k : keeps (getitem dict k).
Proof. unfold getitem. destruct (dict !! k); [apply keeps_ret|apply keeps_raise]. Qed.

Lemma keeps_index {V} (l : list V) n : keeps (index l n).
Proof. unfold index. destruct (l !! n); [apply keeps_ret|apply keeps_raise]. Qed.

Lemma keeps_builtin name : bool_decide (name ∈ PY3_BUILTINS) = true → keeps (_builtin name).
Proof.
  intros Hname%bool_decide_eq_true w a w'. rewrite run_builtin.
  assert (bool_decide (name ∈ PY2_ONLY_BUILTINS) = false) as ->.
  { unfold PY3_BUILTINS in Hname. apply elem_of_list_to_set in Hname.
    repeat (apply elem_of_cons in Hname as [->|Hname]; [by vm_compute|]).
    by apply elem_of_nil in Hname. }
  intros [= <- <-]. split; [done|]. cbn.
  apply union_mono_l. by apply singleton_subseteq_l.
Qed.

Lemma keeps_for {A} (xs : list A) (body : A → M unit) :
  (∀ x, x ∈ xs → keeps (body x)) → keeps (for_ xs body).
Proof.
  induction xs as [|x xs IH]; intros Hbody; [apply (keeps_ret tt)|].
  change (for_ (x :: xs) body) with (body x ≫= λ _, for_ xs body).
  apply keeps_bind; [apply Hbody; by left|]. intros _. apply IH.
  intros. apply Hbody. by right.
Qed.

Lemma keeps_indent {A} (body : M A) : keeps body → keeps (_indent body).
Proof.
  intros Hbody. unfold _indent.
  apply keeps_bind; [by apply keeps_modify|]. intros _.
  apply keeps_bind; [done|]. intros r.
  apply keeps_bind; [by apply keeps_modify|]. intros _. apply keeps_ret.
Qed.

Ltac keeps_leaf :=
  lazymatch goal with
  | |- keeps (mret _) => apply keeps_ret
  | |- keeps (ret _) => apply keeps_ret
  | |- keeps (raise _) => apply keeps_raise
  | |- keeps get => apply keeps_get
  | |- keeps (modify (set_locals _)) => by apply keeps_modify
  | |- keeps (_write_line _ _) => apply keeps_write_line
  | |- keeps (_import _ _) => apply keeps_import
  | |- keeps (_builtin _) => apply keeps_builtin; vm_compute; reflexivity
  | |- keeps (assert _ _) => apply keeps_assert
  | |- keeps (getitem _ _) => apply keeps_getitem
  | |- keeps (index _ _) => apply keeps_index
  end.

Ltac keeps_steps_with leaf :=
  repeat (cbv beta zeta; lazymatch goal with
    | |- keeps (_ ≫= _) => apply keeps_bind; [|intros ?]
    | |- keeps (_indent _) => apply keeps_indent
    | |- keeps (for_ _ _) => apply keeps_for; intros ? ?
    | |- keeps (if _ then _ else _) => apply keeps_if
    | |- keeps (match ?x with _ => _ end) => destruct x
    | |- keeps _ => first [keeps_leaf | leaf]
    end).

Ltac keeps_steps := keeps_steps_with fail.

Lemma keeps_import_message name : keeps (_import_message name).
Proof. unfold _import_message. keeps_steps. Qed.

Lemma keeps_python_type field : keeps (python_type field).
Proof.
  unfold python_type.
  do 4 (apply keeps_bind; [apply keeps_builtin; vm_compute; reflexivity|]; intros ?).
  destruct (_ !! FieldDescriptorProto.type field) as [thunk|] eqn:Hl;
    [|apply keeps_raise].
  apply elem_of_list_to_map_2 in Hl.
  repeat (apply elem_of_cons in Hl as [[= _ ->]|Hl];
          [first [apply keeps_ret|apply keeps_import|apply keeps_import_message]|]).
  by apply elem_of_nil in Hl.
Qed.

Ltac keeps_calls :=
  lazymatch goal with
  | |- keeps (_import_message _) => apply keeps_import_message
  | |- keeps (python_type _) => apply keeps_python_type
  end.

Lemma keeps_write_enum_values enum enum_full_name :
  keeps (write_enum_values enum enum_full_name).
Proof. unfold write_enum_values. keeps_steps. Qed.

Lemma keeps_write_module_attributes : keeps write_module_attributes.
Proof. unfold write_module_attributes. keeps_steps. Qed.

Lemma keeps_write_enums enums prefix : keeps (write_enums enums prefix).
Proof.
  unfold write_enums. keeps_steps_with ltac:(apply keeps_write_enum_values).
Qed.

Lemma keeps_write_scalar_field field : keeps (write_scalar_field field).
Proof. unfold write_scalar_field. keeps_steps_with ltac:(idtac; keeps_calls). Qed.

Lemma keeps_write_getter field : keeps (write_getter field).
Proof. unfold write_getter. keeps_steps_with ltac:(idtac; keeps_calls). Qed.

Lemma keeps_write_init_arg field : keeps (write_init_arg field).
Proof. unfold write_init_arg. keeps_steps_with ltac:(idtac; keeps_calls). Qed.

Lemma keeps_write_fields fields : keeps (write_fields fields).
Proof.
  unfold write_fields.
  keeps_steps_with ltac:(idtac; lazymatch goal with
                         | |- keeps (write_scalar_field _) => apply keeps_write_scalar_field
                         | |- keeps (write_getter _) => apply keeps_write_getter
                         | |- keeps (write_init_arg _) => apply keeps_write_init_arg
                         end).
Qed.

Lemma keeps_write_extensions extensions : keeps (write_extensions extensions).
Proof. unfold write_extensions. keeps_steps. Qed.

Lemma keeps_write_methods service is_abstract : keeps (write_methods service is_abstract).
Proof. unfold write_methods. keeps_steps_with ltac:(idtac; keeps_calls). Qed.

Lemma keeps_write_services services : keeps (write_services services).
Proof. unfold write_services. keeps_steps_with ltac:(apply keeps_write_methods). Qed.

Lemma keeps_output_type method : keeps (_output_type method).
Proof. unfold _output_type. keeps_steps_with ltac:(idtac; keeps_calls). Qed.

Ltac keeps_grpc_calls :=
  lazymatch goal with
  | |- keeps (_import_message _) => apply keeps_import_message
  | |- keeps (_output_type _) => apply keeps_output_type
  end.

Lemma keeps_write_grpc_methods service : keeps (write_grpc_methods service).
Proof. unfold write_grpc_methods. keeps_steps_with ltac:(idtac; keeps_grpc_calls). Qed.

Lemma keeps_write_grpc_stub_methods service : keeps (write_grpc_stub_methods service).
Proof. unfold write_grpc_stub_methods. keeps_steps_with ltac:(idtac; keeps_grpc_calls). Qed.

Lemma keeps_write_grpc_services services : keeps (write_grpc_services services).
Proof.
  unfold write_grpc_services.
  keeps_steps_with ltac:(idtac; lazymatch goal with
                         | |- keeps (write_grpc_methods _) => apply keeps_write_grpc_methods
                         | |- keeps (write_grpc_stub_methods _) =>
                             apply keeps_write_grpc_stub_methods
                         end).
Qed.

Section builtins.
Context `{HashOrder}.

Lemma keeps_write_stringly_typed_fields desc : keeps (write_stringly_typed_fields desc).
Proof. unfold write_stringly_typed_fields. keeps_steps. Qed.

Lemma keeps_write_message message_class prefix desc :
  keeps (write_message message_class prefix desc).
Proof.
  revert message_class prefix.
  induction desc as [desc IH] using DescriptorProto_nested_ind. intros message_class prefix.
  eapply keeps_ext; [intros w; symmetry; apply write_message_eq|].
  cbv zeta. apply keeps_bind; [by apply keeps_modify|]. intros _.
  apply keeps_bind; [apply keeps_write_line|]. intros _.
  apply keeps_bind; [|intros _; apply keeps_bind; [apply keeps_write_line|]; intros _;
                      apply keeps_write_line].
  apply keeps_indent.
  apply keeps_bind; [apply keeps_import|]. intros Descriptor.
  apply keeps_bind; [apply keeps_write_line|]. intros _.
  apply keeps_bind; [apply keeps_write_enums|]. intros _.
  apply keeps_bind.
  { unfold write_messages. apply keeps_bind; [apply keeps_import|].
    intros mc. apply keeps_for. intros m [_ Hm]%list_elem_of_filter.
    rewrite Forall_forall in IH. by apply IH. }
  intros _. apply keeps_bind; [apply keeps_write_fields|]. intros _.
  apply keeps_write_stringly_typed_fields.
Qed.

Lemma keeps_write_messages messages prefix : keeps (write_messages messages prefix).
Proof.
  unfold write_messages. apply keeps_bind; [apply keeps_import|].
  intros mc. apply keeps_for. intros m _. apply keeps_write_message.
Qed.

Lemma write_py3 w :
  py2_builtin_vars w = ∅ →
  write w =
    Py.join nl
      (import_lines w
       ++ (if bool_decide (Py.sorted (set_iter (builtin_vars w)) = []) then []
           else ((λ var, "builtin___" +:+ var +:+ " = " +:+ var)
                   <$> Py.sorted (set_iter (builtin_vars w))) ++ [nl])
       ++ lines w).
Proof.
  intros Hp. unfold write. cbv zeta.
  rewrite (bool_decide_eq_false_2 (py2_builtin_vars w ≠ ∅)) by (by intros []).
  rewrite (list_fmap_ext (λ var, Py.format "{} = {}" [_mangle_builtin var; var])
             (λ var, "builtin___" +:+ var +:+ " = " +:+ var)).
  2:{ intros _ var _. by rewrite format_alias, mangle_builtin_eq, text_app_assoc. }
  destruct (Py.sorted (set_iter (builtin_vars w))) as [|var vars]; [done|].
  by rewrite bool_decide_eq_true_2.
Qed.

(** What [generate_mypy_stubs] and [generate_mypy_grpc_stubs] run on the
    new writer of a file, before they name and render the output. *)
Definition stub_body (name : string) (fd : FileDescriptorProto.t) : M unit :=
  _ ← write_module_attributes;
  _ ← write_enums (FileDescriptorProto.enum_type fd) EmptyString;
  _ ← write_messages (FileDescriptorProto.message_type fd) EmptyString;
  _ ← write_extensions (FileDescriptorProto.extension fd);
  _ ← (if FileOptions.py_generic_services (FileDescriptorProto.options fd)
       then write_services (FileDescriptorProto.service fd)
       else mret tt);
  _ ← assert (bool_decide (name = FileDescriptorProto.name fd)) EmptyString;
  assert (Py.endswith (FileDescriptorProto.name fd) ".proto") EmptyString.

Definition grpc_stub_body (name : string) (fd : FileDescriptorProto.t) : M unit :=
  _ ← write_grpc_services (FileDescriptorProto.service fd);
  _ ← assert (bool_decide (name = FileDescriptorProto.name fd)) EmptyString;
  assert (Py.endswith (FileDescriptorProto.name fd) ".proto") EmptyString.

Lemma keeps_stub_body name fd : keeps (stub_body name fd).
Proof.
  unfold stub_body.
  keeps_steps_with ltac:(idtac; lazymatch goal with
                         | |- keeps write_module_attributes => apply keeps_write_module_attributes
                         | |- keeps (write_enums _ _) => apply keeps_write_enums
                         | |- keeps (write_messages _ _) => apply keeps_write_messages
                         | |- keeps (write_extensions _) => apply keeps_write_extensions
                         | |- keeps (write_services _) => apply keeps_write_services
                         end).
Qed.

Lemma keeps_grpc_stub_body name fd : keeps (grpc_stub_body name fd).
Proof. unfold grpc_stub_body. keeps_steps_with ltac:(apply keeps_write_grpc_services). Qed.

Lemma grown_vars fd descriptors w :
  grows (PkgWriter.__init__ fd descriptors) w →
  py2_builtin_vars w = ∅
  ∧ NoDup (Py.sorted (set_iter (builtin_vars w)))
  ∧ ∀ var, var ∈ Py.sorted (set_iter (builtin_vars w)) →
           var ∈ ["float"; "int"; "bool"; "bytes"].
Proof.
  intros [Hp Hb]. cbn in Hp. change (builtin_vars w ⊆ ∅ ∪ PY3_BUILTINS) in Hb.
  split_and!; [done|..].
  - unfold Py.sorted. rewrite merge_sort_Permutation, set_iter_perm. apply NoDup_elements.
  - intros var. unfold Py.sorted. rewrite merge_sort_Permutation, set_iter_perm, elem_of_elements.
    intros Hin%Hb. apply elem_of_union in Hin as [Hin|Hin]; [by apply elem_of_empty in Hin|].
    by apply elem_of_list_to_set in Hin.
Qed.

(** A stub is generated from the writer that the body of its generator
    leaves: its content is the marker line followed by what [write]
    renders of that writer. In that writer [py2_builtin_vars] is empty, so
    that [write] renders the import block, one alias per builtin that was
    asked for, and the lines written: the block of aliases kept for
    Python 2 is never written, and the builtins aliased are never others
    than [float], [int], [bool] and [bytes], each once. *)
Theorem python3_aliases (for_grpc : bool) (name : string) (fd : FileDescriptorProto.t)
    (descriptors : Descriptors.t) (output : CodeGeneratorResponse.File.t) :
  (if for_grpc then generate_mypy_grpc_stub name fd descriptors
   else generate_mypy_stub name fd descriptors) = Ok output →
  ∃ w,
    (if for_grpc then grpc_stub_body name fd else stub_body name fd)
      (PkgWriter.__init__ fd descriptors) = Ok (tt, w)
    ∧ CodeGeneratorResponse.File.content output = HEADER +:+ write w
    ∧ py2_builtin_vars w = ∅
    ∧ let vars := Py.sorted (set_iter (builtin_vars w)) in
      write w =
        Py.join nl
          (import_lines w
           ++ (if bool_decide (vars = []) then []
               else ((λ var, "builtin___" +:+ var +:+ " = " +:+ var) <$> vars) ++ [nl])
           ++ lines w)
      ∧ NoDup vars
      ∧ ∀ var, var ∈ vars → var ∈ ["float"; "int"; "bool"; "bytes"].
Proof.
  destruct for_grpc.
  - unfold generate_mypy_grpc_stub. cbv zeta. fold (grpc_stub_body name fd).
    destruct (grpc_stub_body name fd (PkgWriter.__init__ fd descriptors))
      as [[[] w]|e] eqn:Hbody; [|done].
    intros [= <-]. exists w. split; [done|]. split; [done|].
    apply keeps_grpc_stub_body, grown_vars in Hbody as (Hp & Hnd & Hvars).
    split; [done|]. cbv zeta. split_and!; [by apply write_py3|done..].
  - unfold generate_mypy_stub. cbv zeta. fold (stub_body name fd).
    destruct (stub_body name fd (PkgWriter.__init__ fd descriptors))
      as [[[] w]|e] eqn:Hbody; [|done].
    intros [= <-]. exists w. split; [done|]. split; [done|].
    apply keeps_stub_body, grown_vars in Hbody as (Hp & Hnd & Hvars).
    split; [done|]. cbv zeta. split_and!; [by apply write_py3|done..].
Qed.

End builtins.

(** ** A service over two files *)

(** The file [app/api-v1.proto] of the package [app]: a message [Req] with
    a field [id], and a service [Api] whose methods return messages of
    [pkg/nested.proto]; one of them streams, one bears a reserved name. *)
Definition api_message : DescriptorProto.t :=
  DescriptorProto.mk "Req"
    [FieldDescriptorProto.mk "id" FieldDescriptorProto.LABEL_OPTIONAL
       FieldDescriptorProto.TYPE_INT32 EmptyString None;
     FieldDescriptorProto.mk "from" FieldDescriptorProto.LABEL_OPTIONAL
       FieldDescriptorProto.TYPE_STRING EmptyString None]
    [] [] [] (MessageOptions.mk false).
Definition api_get : MethodDescriptorProto.t :=
  MethodDescriptorProto.mk "Get" ".app.Req" ".pkg.Outer" false.
Definition api_watch : MethodDescriptorProto.t :=
  MethodDescriptorProto.mk "Watch" ".app.Req" ".pkg.Outer.Middle" true.
Definition api_pass : MethodDescriptorProto.t :=
  MethodDescriptorProto.mk "pass" ".app.Req" ".app.Req" false.
Definition api_service : ServiceDescriptorProto.t :=
  ServiceDescriptorProto.mk "Api" [api_get; api_watch; api_pass].
Definition api_file : FileDescriptorProto.t :=
  FileDescriptorProto.mk "app/api-v1.proto" "app" [api_message] [] [api_service] []
    (FileOptions.mk true) "proto3".
Definition api_request : CodeGeneratorRequest.t :=
  CodeGeneratorRequest.mk ["app/api-v1.proto"] EmptyString [nested_file; api_file].

Definition api_request_type (method : MethodDescriptorProto.t) : string := "type___Req".
Definition api_response_type (method : MethodDescriptorProto.t) : string :=
  if MethodDescriptorProto.server_streaming method
  then "pkg___nested_pb2___Outer.Middle"
  else "pkg___nested_pb2___Outer".

Lemma api_resolved :
  resolved api_file (descriptors_of api_request) api_request_type api_response_type api_service.
Proof.
  intros method [Hname Hin]%list_elem_of_filter.
  repeat (apply elem_of_cons in Hin as [->|Hin]).
  - split; vm_compute; reflexivity.
  - split; vm_compute; reflexivity.
  - exfalso. apply Hname. apply (bool_decide_unpack _). vm_compute. exact I.
  - by apply elem_of_nil in Hin.
Defined.

Lemma api_services_resolved (service : ServiceDescriptorProto.t) :
  service ∈ [api_service] → ServiceDescriptorProto.name service ∉ PYTHON_RESERVED →
  resolved api_file (descriptors_of api_request) api_request_type api_response_type service.
Proof. intros ->%list_elem_of_singleton _. apply api_resolved. Defined.

Lemma import_message_handle_witness :
  _import_message ".pkg.Outer.Middle" (writer_of api_request api_file)
  = Ok ("pkg___nested_pb2___Outer.Middle",
        set_imports (import_record "pkg/nested_pb2" "Outer") (writer_of api_request api_file)).
Proof.
  destruct (import_message_handle ".pkg.Outer.Middle" "Outer.Middle" nested_file
              (writer_of api_request api_file)) as (_ & _ & Hnested);
    [vm_compute; reflexivity..|].
  apply (Hnested ltac:(done) "Outer" "Middle"); [reflexivity|vm_compute; reflexivity|done].
Defined.

Lemma write_methods_lines_witness :
  ∃ written,
    runs EmptyString api_file (descriptors_of api_request) (write_methods api_service true) tt
      written
    ∧ written =
        ["@abc___abstractmethod";
         "def Get(self,";
         "    rpc_controller: google___protobuf___service___RpcController,";
         "    request: type___Req,";
         "    done: typing___Optional[typing___Callable[[pkg___nested_pb2___Outer], None]],";
         ") -> concurrent___futures___Future[pkg___nested_pb2___Outer]: ...";
         "@abc___abstractmethod";
         "def Watch(self,";
         "    rpc_controller: google___protobuf___service___RpcController,";
         "    request: type___Req,";
         "    done: typing___Optional[typing___Callable[[pkg___nested_pb2___Outer.Middle], None]],";
         ") -> concurrent___futures___Future[pkg___nested_pb2___Outer.Middle]: ..."].
Proof.
  eexists. split.
  - apply (write_methods_lines api_file (descriptors_of api_request)
             api_request_type api_response_type EmptyString api_service true api_resolved).
  - vm_compute. reflexivity.
Defined.

Lemma write_services_lines_witness :
  ∃ written,
    runs EmptyString api_file (descriptors_of api_request) (write_services [api_service]) tt
      written
    ∧ take 2 written =
        ["class Api(google___protobuf___service___Service, metaclass=abc___ABCMeta):";
         "    @abc___abstractmethod"]
    ∧ drop 13 written =
        ["class Api_Stub(Api):";
         "    def __init__(self, rpc_channel: google___protobuf___service___RpcChannel) -> None: ...";
         "    def Get(self,";
         "        rpc_controller: google___protobuf___service___RpcController,";
         "        request: type___Req,";
         "        done: typing___Optional[typing___Callable[[pkg___nested_pb2___Outer], None]],";
         "    ) -> concurrent___futures___Future[pkg___nested_pb2___Outer]: ...";
         "    def Watch(self,";
         "        rpc_controller: google___protobuf___service___RpcController,";
         "        request: type___Req,";
         "        done: typing___Optional[typing___Callable[[pkg___nested_pb2___Outer.Middle], None]],";
         "    ) -> concurrent___futures___Future[pkg___nested_pb2___Outer.Middle]: ..."].
Proof.
  eexists. split.
  - apply (write_services_lines api_file (descriptors_of api_request)
             api_request_type api_response_type EmptyString [api_service]
             api_services_resolved).
  - split; vm_compute; reflexivity.
Defined.

Lemma write_grpc_methods_lines_witness :
  ∃ servicer stub,
    (runs EmptyString api_file (descriptors_of api_request) (write_grpc_methods api_service) tt
       servicer
     ∧ runs EmptyString api_file (descriptors_of api_request)
         (write_grpc_stub_methods api_service) tt stub)
    ∧ servicer =
        ["@abc___abstractmethod";
         "def Get(self,";
         "    request: type___Req,";
         "    context: grpc___ServicerContext,";
         ") -> pkg___nested_pb2___Outer: ...";
         EmptyString;
         "@abc___abstractmethod";
         "def Watch(self,";
         "    request: type___Req,";
         "    context: grpc___ServicerContext,";
         ") -> typing___Generator[pkg___nested_pb2___Outer.Middle, None, None]: ...";
         EmptyString]
    ∧ stub =
        ["def Get(self,";
         "    request: type___Req,";
         ") -> pkg___nested_pb2___Outer: ...";
         EmptyString;
         "def Watch(self,";
         "    request: type___Req,";
         ") -> typing___Generator[pkg___nested_pb2___Outer.Middle, None, None]: ...";
         EmptyString].
Proof.
  eexists _, _. split.
  - apply (write_grpc_methods_lines api_file (descriptors_of api_request)
             api_request_type api_response_type EmptyString api_service api_resolved).
  - split; vm_compute; reflexivity.
Defined.

Lemma write_grpc_services_lines_witness :
  ∃ written,
    runs EmptyString api_file (descriptors_of api_request) (write_grpc_services [api_service]) tt
      written
    ∧ take 3 written =
        ["from .api_v1_pb2 import *";
         "class ApiServicer(metaclass=abc___ABCMeta):";
         "    @abc___abstractmethod"]
    ∧ drop 14 written =
        [EmptyString;
         "class ApiStub:";
         "    def __init__(self, channel: grpc___Channel) -> None: ...";
         "    def Get(self,";
         "        request: type___Req,";
         "    ) -> pkg___nested_pb2___Outer: ...";
         EmptyString;
         "    def Watch(self,";
         "        request: type___Req,";
         "    ) -> typing___Generator[pkg___nested_pb2___Outer.Middle, None, None]: ...";
         EmptyString;
         EmptyString].
Proof.
  eexists. split.
  - apply (write_grpc_services_lines api_file (descriptors_of api_request)
             api_request_type api_response_type EmptyString "app" "api-v1.proto" [api_service]);
      [reflexivity|vm_compute; reflexivity|apply api_services_resolved].
  - split; vm_compute; reflexivity.
Defined.

Definition api_field_type (field : FieldDescriptorProto.t) : string :=
  if bool_decide (FieldDescriptorProto.type field = FieldDescriptorProto.TYPE_INT32)
  then "builtin___int" else "typing___Text".

Lemma api_plain :
  plain api_file (descriptors_of api_request) api_field_type (DescriptorProto.field api_message).
Proof.
  intros field [Hname Hin]%list_elem_of_filter.
  repeat (apply elem_of_cons in Hin as [->|Hin]).
  - split_and!; [reflexivity|done|vm_compute; reflexivity].
  - exfalso. apply Hname. apply (bool_decide_unpack _). vm_compute. exact I.
  - by apply elem_of_nil in Hin.
Defined.

Lemma write_fields_plain_witness :
  ∃ written,
    runs "    " api_file (descriptors_of api_request)
      (write_fields (DescriptorProto.field api_message)) tt written
    ∧ written =
        ["    id: builtin___int = ...";
         EmptyString;
         "    def __init__(self,";
         "        *,";
         "        id : typing___Optional[builtin___int] = None,";
         "        ) -> None: ..."].
Proof.
  eexists. split.
  - apply (write_fields_plain "    " api_file (descriptors_of api_request) api_field_type
             (DescriptorProto.field api_message) api_plain).
  - vm_compute. reflexivity.
Defined.

Lemma index_names_witness :
  Descriptors.__init__ api_request = Ok (descriptors_of api_request)
  ∧ file_type_names nested_file =
      [".pkg.Outer"; ".pkg.Outer.Middle"; ".pkg.Outer.Middle.Inner";
       ".pkg.Outer.Middle.Inner.E"; ".pkg.Outer.Middle.Inner.EValue"]
  ∧ (∀ k, is_Some (Descriptors.messages (descriptors_of api_request) !! k)
          ↔ ∃ fd, fd ∈ CodeGeneratorRequest.proto_file api_request ∧ k ∈ file_message_names fd)
  ∧ (∀ k, is_Some (Descriptors.message_to_fd (descriptors_of api_request) !! k)
          ↔ ∃ fd, fd ∈ CodeGeneratorRequest.proto_file api_request ∧ k ∈ file_type_names fd).
Proof.
  split; [vm_compute; reflexivity|]. split; [vm_compute; reflexivity|].
  apply (index_names api_request (descriptors_of api_request)). vm_compute. reflexivity.
Defined.

Lemma index_entries_witness :
  Descriptors.__init__ api_request = Ok (descriptors_of api_request)
  ∧ (∀ k fd, Descriptors.message_to_fd (descriptors_of api_request) !! k = Some fd →
       fd ∈ CodeGeneratorRequest.proto_file api_request
       ∧ Py.startswith k (package_prefix fd) = true)
  ∧ (∀ k, is_Some (Descriptors.messages (descriptors_of api_request) !! k) →
          is_Some (Descriptors.message_to_fd (descriptors_of api_request) !! k)).
Proof.
  split; [vm_compute; reflexivity|].
  apply (index_entries api_request (descriptors_of api_request)). vm_compute. reflexivity.
Defined.

(** The same file asked for twice. *)
Definition twice_request : CodeGeneratorRequest.t :=
  CodeGeneratorRequest.mk ["app/api-v1.proto"; "pkg/nested.proto"; "app/api-v1.proto"]
    EmptyString [nested_file; api_file].

Lemma to_generate_entries_witness :
  Descriptors.__init__ twice_request = Ok (descriptors_of twice_request)
  ∧ (Descriptors.to_generate (descriptors_of twice_request)).*1
      = ["app/api-v1.proto"; "pkg/nested.proto"]
  ∧ (Descriptors.to_generate (descriptors_of twice_request)).*1
      = reverse (remove_dups (reverse (CodeGeneratorRequest.file_to_generate twice_request)))
  ∧ NoDup (Descriptors.to_generate (descriptors_of twice_request)).*1
  ∧ (∀ name fd, (name, fd) ∈ Descriptors.to_generate (descriptors_of twice_request) →
       Descriptors.files (descriptors_of twice_request) !! name = Some fd
       ∧ fd ∈ CodeGeneratorRequest.proto_file twice_request
       ∧ name = FileDescriptorProto.name fd)
  ∧ (∀ name, is_Some (Descriptors.files (descriptors_of twice_request) !! name)
             ↔ ∃ fd, fd ∈ CodeGeneratorRequest.proto_file twice_request
                     ∧ FileDescriptorProto.name fd = name).
Proof.
  split; [vm_compute; reflexivity|]. split; [vm_compute; reflexivity|].
  apply (to_generate_entries twice_request (descriptors_of twice_request)).
  vm_compute. reflexivity.
Defined.

Lemma python3_aliases_witness :
  ∃ output,
    generate_mypy_stub (H := canonical_order) "app/api-v1.proto" api_file
      (descriptors_of api_request) = Ok output
    ∧ ∃ w,
        stub_body (H := canonical_order) "app/api-v1.proto" api_file
          (PkgWriter.__init__ api_file (descriptors_of api_request)) = Ok (tt, w)
        ∧ CodeGeneratorResponse.File.content output
          = HEADER +:+ write (H := canonical_order) w
        ∧ py2_builtin_vars w = ∅
        ∧ let vars := Py.sorted (set_iter (HashOrder := canonical_order) (builtin_vars w)) in
          write (H := canonical_order) w =
            Py.join nl
              (import_lines (H := canonical_order) w
               ++ (if bool_decide (vars = []) then []
                   else ((λ var, "builtin___" +:+ var +:+ " = " +:+ var) <$> vars) ++ [nl])
               ++ lines w)
          ∧ NoDup vars
          ∧ ∀ var, var ∈ vars → var ∈ ["float"; "int"; "bool"; "bytes"].
Proof.
  destruct (generate_mypy_stub (H := canonical_order) "app/api-v1.proto" api_file
              (descriptors_of api_request)) as [output|e] eqn:Hout;
    [|vm_compute in Hout; discriminate Hout].
  exists output. split; [reflexivity|].
  apply (python3_aliases (H := canonical_order) false "app/api-v1.proto" api_file
           (descriptors_of api_request) output Hout).
Defined.

(** ** The fields of a message: attributes, getters and constructor *)

Section field_lines.
Context (f : FileDescriptorProto.t) (d : Descriptors.t).
Context (ty key_ty val_ty : FieldDescriptorProto.t → string).

Definition is_repeated (field : FieldDescriptorProto.t) : bool :=
  bool_decide (FieldDescriptorProto.label field = FieldDescriptorProto.LABEL_REPEATED).

(** A repeated field whose type is, in the index, a message marked as a
    map entry. *)
Definition is_map_field (field : FieldDescriptorProto.t) : bool :=
  is_repeated field
  && match Descriptors.messages d !! FieldDescriptorProto.type_name field with
     | Some msg => MessageOptions.map_entry (DescriptorProto.options msg)
     | None => false
     end.

(** What the lines of a field need: for a map, a message field whose
    entry has a first and a second field, of types that resolve to
    [key_ty] and [val_ty]; for any other field a type that resolves to
    [ty], and for a repeated message field a message in the index. *)
Definition field_resolves (field : FieldDescriptorProto.t) : Prop :=
  if is_map_field field then
    is_scalar field = false
    ∧ ∃ msg key val rest,
        Descriptors.messages d !! FieldDescriptorProto.type_name field = Some msg
        ∧ DescriptorProto.field msg = key :: val :: rest
        ∧ type_expr f d key = Ok (key_ty field)
        ∧ type_expr f d val = Ok (val_ty field)
  else
    type_expr f d field = Ok (ty field)
    ∧ (is_repeated field = true → is_scalar field = false →
       is_Some (Descriptors.messages d !! FieldDescriptorProto.type_name field)).

(** The attribute of a scalar field. *)
Definition attribute_line (i : string) (field : FieldDescriptorProto.t) : string :=
  if is_repeated field
  then i +:+ FieldDescriptorProto.name field
         +:+ ": google___protobuf___internal___containers___RepeatedScalarFieldContainer["
         +:+ ty field +:+ "] = ..."
  else i +:+ FieldDescriptorProto.name field +:+ ": " +:+ ty field +:+ " = ...".

(** The getter of a message or group field. *)
Definition getter_lines (i : string) (field : FieldDescriptorProto.t) : list string :=
  [i +:+ "@property";
   if is_map_field field
   then i +:+ "def " +:+ FieldDescriptorProto.name field
          +:+ "(self) -> typing___MutableMapping[" +:+ key_ty field +:+ ", " +:+ val_ty field
          +:+ "]: ..."
   else if is_repeated field
   then i +:+ "def " +:+ FieldDescriptorProto.name field
          +:+ "(self) -> google___protobuf___internal___containers___RepeatedCompositeFieldContainer["
          +:+ ty field +:+ "]: ..."
   else i +:+ "def " +:+ FieldDescriptorProto.name field +:+ "(self) -> " +:+ ty field +:+ ": ...";
   EmptyString].

(** The constructor parameter of a field. *)
Definition parameter_line (i : string) (field : FieldDescriptorProto.t) : string :=
  if is_map_field field
  then i +:+ FieldDescriptorProto.name field
         +:+ " : typing___Optional[typing___Mapping[" +:+ key_ty field +:+ ", " +:+ val_ty field
         +:+ "]] = None,"
  else if is_repeated field
  then i +:+ FieldDescriptorProto.name field
         +:+ " : typing___Optional[typing___Iterable[" +:+ ty field +:+ "]] = None,"
  else i +:+ FieldDescriptorProto.name field
         +:+ " : typing___Optional[" +:+ ty field +:+ "] = None,".

(** All that the field part of [write_messages] writes: the lines of the
    fields whose name is not reserved, and of no other. *)
Definition fields_lines (i : string) (desc_field : list FieldDescriptorProto.t) : list string :=
  let fields := filter (λ fl, FieldDescriptorProto.name fl ∉ PYTHON_RESERVED) desc_field in
  (attribute_line i <$> filter (λ fl, is_scalar fl) fields)
  ++ [EmptyString]
  ++ mjoin (getter_lines i <$> filter (λ fl, ¬ is_scalar fl) fields)
  ++ [i +:+ "def __init__(self,"]
  ++ (if bool_decide (fields = []) then [] else [(i +:+ "    ") +:+ "*,"])
  ++ (parameter_line (i +:+ "    ") <$> fields)
  ++ [(i +:+ "    ") +:+ ") -> None: ..."].

Lemma is_map_field_true field :
  is_map_field field = true →
  FieldDescriptorProto.label field = FieldDescriptorProto.LABEL_REPEATED
  ∧ ∀ msg, Descriptors.messages d !! FieldDescriptorProto.type_name field = Some msg →
           MessageOptions.map_entry (DescriptorProto.options msg) = true.
Proof.
  unfold is_map_field, is_repeated. intros [Hr Hm]%andb_true_iff.
  apply bool_decide_eq_true in Hr. split; [done|]. intros msg Hmsg. by rewrite Hmsg in Hm.
Qed.

Lemma is_map_field_false field :
  is_map_field field = false →
  FieldDescriptorProto.label field = FieldDescriptorProto.LABEL_REPEATED →
  ∀ msg, Descriptors.messages d !! FieldDescriptorProto.type_name field = Some msg →
         MessageOptions.map_entry (DescriptorProto.options msg) = false.
Proof.
  unfold is_map_field, is_repeated. intros Hm Hr msg Hmsg.
  by rewrite bool_decide_eq_true_2, Hmsg in Hm.
Qed.

Lemma runs_scalar_field i field :
  is_scalar field = true → field_resolves field →
  runs i f d (write_scalar_field field) tt [attribute_line i field].
Proof.
  intros Hscalar. unfold field_resolves, attribute_line.
  destruct (is_map_field field); [intros [? _]; congruence|]. intros [Hty _].
  unfold is_repeated. case_bool_decide as Hr.
  - by apply runs_scalar_sequence.
  - unfold write_scalar_field. cbv zeta. rewrite bool_decide_eq_false_2 by done.
    eapply (runs_bind _ _ _ _ _ _ _ []); [by apply python_type_runs|]. by apply runs_line.
Qed.

Lemma runs_getter i field :
  is_scalar field = false → field_resolves field →
  runs i f d (write_getter field) tt (getter_lines i field).
Proof.
  intros Hscalar. unfold field_resolves, getter_lines.
  destruct (is_map_field field) eqn:Hmap.
  - apply is_map_field_true in Hmap as [Hr Hentry].
    intros (_ & msg & key & val & rest & Hmsg & Hfields & Hkey & Hval).
    eapply runs_getter_map; eauto.
  - intros [Hty Hmsg]. unfold is_repeated in *. case_bool_decide as Hr.
    + destruct Hmsg as [msg Hmsg]; [done..|].
      eapply runs_getter_sequence; eauto. by eapply is_map_field_false.
    + unfold write_getter. cbv zeta. rewrite bool_decide_eq_false_2 by done.
      eapply (runs_bind _ _ _ _ _ tt _ [_]); [by apply runs_line|].
      eapply (runs_bind _ _ _ _ _ tt _ [_] [_]); [|apply runs_write_line].
      eapply (runs_bind _ _ _ _ _ _ _ []); [by apply python_type_runs|]. by apply runs_line.
Qed.

Lemma runs_init_arg i field :
  field_resolves field → runs i f d (write_init_arg field) tt [parameter_line i field].
Proof.
  unfold field_resolves, parameter_line. destruct (is_map_field field) eqn:Hmap.
  - apply is_map_field_true in Hmap as [Hr Hentry].
    intros (_ & msg & key & val & rest & Hmsg & Hfields & Hkey & Hval).
    eapply runs_init_arg_map; eauto.
  - intros [Hty _]. unfold is_repeated. case_bool_decide as Hr.
    + apply runs_init_arg_sequence; [done| |done]. by apply is_map_field_false.
    + unfold write_init_arg. cbv zeta. rewrite bool_decide_eq_false_2 by done.
      eapply (runs_bind _ _ _ _ _ _ _ []); [apply runs_import|].
      eapply (runs_bind _ _ _ _ _ _ _ []); [by apply python_type_runs|]. by apply runs_line.
Qed.

Lemma runs_write_fields_lines i desc_field :
  (∀ field, field ∈ desc_field → FieldDescriptorProto.name field ∉ PYTHON_RESERVED →
            field_resolves field) →
  runs i f d (write_fields desc_field) tt (fields_lines i desc_field).
Proof.
  intros Hres. unfold write_fields, fields_lines. cbv zeta.
  set (fields := filter (λ fl, FieldDescriptorProto.name fl ∉ PYTHON_RESERVED) desc_field).
  assert (Hfields : ∀ field, field ∈ fields → field_resolves field).
  { intros field [Hname Hin]%list_elem_of_filter. by apply Hres. }
  eapply (runs_bind _ _ _ _ _ tt _ _ (_ :: _)).
  { rewrite <-join_singletons. apply runs_for.
    intros field [Hs Hin]%list_elem_of_filter. apply runs_scalar_field; [|by apply Hfields].
    by destruct (is_scalar field). }
  eapply (runs_bind _ _ _ _ _ tt _ [_]); [apply runs_write_line|].
  eapply (runs_bind _ _ _ _ _ tt _ _ (_ :: _)).
  { apply runs_for. intros field [Hs Hin]%list_elem_of_filter.
    apply runs_getter; [|by apply Hfields]. by destruct (is_scalar field). }
  eapply (runs_bind _ _ _ _ _ tt _ [_]); [by apply runs_line|].
  apply runs_indent.
  eapply (runs_bind _ _ _ _ _ tt _ _).
  { destruct fields as [|field fields'] eqn:Hfs.
    - rewrite bool_decide_eq_false_2 by (cbn; lia). rewrite bool_decide_eq_true_2 by done.
      apply (runs_ret _ _ _ tt).
    - rewrite bool_decide_eq_true_2 by (cbn; lia). rewrite bool_decide_eq_false_2 by done.
      by apply runs_line. }
  eapply (runs_bind _ _ _ _ _ tt _ _ [_]); [|by apply runs_line].
  rewrite <-join_singletons. apply runs_for. intros field Hin.
  by apply runs_init_arg, Hfields.
Qed.

End field_lines.

(** ** Messages, with all that is nested in them *)

Lemma runs_ext {A} i f d (m1 m2 : M A) a new :
  (∀ w, m1 w = m2 w) → runs i f d m1 a new → runs i f d m2 a new.
Proof. intros Heq Hm w Hi Hf Hd. rewrite <-Heq. by apply Hm. Qed.

Lemma runs_lines {A} i f d (m : M A) a new new' :
  new = new' → runs i f d m a new → runs i f d m a new'.
Proof. by intros ->. Qed.

Lemma runs_set_locals i f d g : runs i f d (modify (set_locals g)) tt [].
Proof. intros w ???. eexists. split; [done|]. cbn. by rewrite (right_id_L [] (++)). Qed.

Section message_lines.
Context `{HashOrder}.
Context (f : FileDescriptorProto.t) (d : Descriptors.t).
Context (ty key_ty val_ty : FieldDescriptorProto.t → string).

(** The block of a message: its class line; four spaces deeper its
    descriptor, its enums, the blocks of the messages nested in it, its
    fields and its presence accessors; then its alias. Only what bears no
    reserved name has lines in it. *)
Fixpoint message_lines (i message_class prefix : string) (desc : DescriptorProto.t)
    {struct desc} : list string :=
  let name := DescriptorProto.name desc in
  [i +:+ "class " +:+ name +:+ "(" +:+ message_class +:+ "):";
   (i +:+ "    ") +:+ "DESCRIPTOR: google___protobuf___descriptor___Descriptor = ..."]
  ++ mjoin (enum_lines (i +:+ "    ") ((prefix +:+ name) +:+ ".")
              <$> filter (λ e, EnumDescriptorProto.name e ∉ PYTHON_RESERVED)
                         (DescriptorProto.enum_type desc))
  ++ (fix nested (messages : list DescriptorProto.t) : list string :=
        match messages with
        | [] => []
        | m :: messages' =>
            (if reserved (DescriptorProto.name m) then []
             else message_lines (i +:+ "    ") "google___protobuf___message___Message"
                    ((prefix +:+ name) +:+ ".") m)
            ++ nested messages'
        end) (DescriptorProto.nested_type desc)
  ++ fields_lines d ty key_ty val_ty (i +:+ "    ") (DescriptorProto.field desc)
  ++ stringly_lines (i +:+ "    ") (FileDescriptorProto.syntax f) desc
  ++ [i +:+ ("type___" +:+ name) +:+ " = " +:+ name; EmptyString].

(** The fields of a message resolve, and so do those of the messages
    nested in it; nothing is asked of what bears a reserved name. *)
Fixpoint message_resolves (desc : DescriptorProto.t) {struct desc} : Prop :=
  (∀ field, field ∈ DescriptorProto.field desc →
            FieldDescriptorProto.name field ∉ PYTHON_RESERVED →
            field_resolves f d ty key_ty val_ty field)
  ∧ (fix nested (messages : list DescriptorProto.t) : Prop :=
       match messages with
       | [] => True
       | m :: messages' =>
           (DescriptorProto.name m ∉ PYTHON_RESERVED → message_resolves m) ∧ nested messages'
       end) (DescriptorProto.nested_type desc).

Lemma message_lines_eq i message_class prefix desc :
  message_lines i message_class prefix desc =
    [i +:+ "class " +:+ DescriptorProto.name desc +:+ "(" +:+ message_class +:+ "):";
     (i +:+ "    ") +:+ "DESCRIPTOR: google___protobuf___descriptor___Descriptor = ..."]
    ++ mjoin (enum_lines (i +:+ "    ") ((prefix +:+ DescriptorProto.name desc) +:+ ".")
                <$> filter (λ e, EnumDescriptorProto.name e ∉ PYTHON_RESERVED)
                           (DescriptorProto.enum_type desc))
    ++ mjoin (message_lines (i +:+ "    ") "google___protobuf___message___Message"
                ((prefix +:+ DescriptorProto.name desc) +:+ ".")
                <$> filter (λ m, DescriptorProto.name m ∉ PYTHON_RESERVED)
                           (DescriptorProto.nested_type desc))
    ++ fields_lines d ty key_ty val_ty (i +:+ "    ") (DescriptorProto.field desc)
    ++ stringly_lines (i +:+ "    ") (FileDescriptorProto.syntax f) desc
    ++ [i +:+ ("type___" +:+ DescriptorProto.name desc) +:+ " = " +:+ DescriptorProto.name desc;
        EmptyString].
Proof.
  destruct desc as [name field nested enums oneofs options].
  cbn [message_lines DescriptorProto.name DescriptorProto.nested_type
       DescriptorProto.enum_type DescriptorProto.field]. cbv zeta.
  do 3 f_equal. f_equal.
  induction nested as [|m nested IH]; [done|]. rewrite filter_cons. unfold reserved at 1.
  destruct (decide (DescriptorProto.name m ∉ PYTHON_RESERVED)) as [Hm|Hm].
  - rewrite bool_decide_eq_false_2 by done. rewrite fmap_cons. cbn [mjoin list_join].
    by rewrite IH.
  - rewrite bool_decide_eq_true_2 by (by destruct (decide (DescriptorProto.name m ∈ PYTHON_RESERVED))).
    by rewrite IH.
Qed.

Lemma message_resolves_eq desc :
  message_resolves desc ↔
    (∀ field, field ∈ DescriptorProto.field desc →
              FieldDescriptorProto.name field ∉ PYTHON_RESERVED →
              field_resolves f d ty key_ty val_ty field)
    ∧ Forall (λ m, DescriptorProto.name m ∉ PYTHON_RESERVED → message_resolves m)
             (DescriptorProto.nested_type desc).
Proof.
  destruct desc as [name field nested enums oneofs options].
  cbn [message_resolves DescriptorProto.nested_type DescriptorProto.field].
  apply and_iff_compat_l.
  induction nested as [|m nested IH]; [by split; [constructor|]|].
  rewrite Forall_cons, IH. done.
Qed.

Lemma runs_write_message desc :
  ∀ i message_class prefix,
    message_resolves desc →
    runs i f d (write_message message_class prefix desc) tt
      (message_lines i message_class prefix desc).
Proof.
  induction desc as [desc IH] using DescriptorProto_nested_ind.
  intros i message_class prefix [Hfields Hnested]%message_resolves_eq.
  eapply runs_ext; [intros w; symmetry; apply write_message_eq|].
  rewrite message_lines_eq. cbv zeta.
  eapply runs_lines.
  2:{ eapply (runs_bind _ _ _ _ _ tt _ []); [apply runs_set_locals|].
      eapply (runs_bind _ _ _ _ _ tt _ [_]); [by apply runs_line|].
      eapply (runs_bind _ _ _ _ _ tt _ _ [_; _]).
      { apply runs_indent.
        eapply (runs_bind _ _ _ _ _ _ _ []); [apply runs_import|].
        eapply (runs_bind _ _ _ _ _ tt _ [_]); [by apply runs_line|].
        eapply (runs_bind _ _ _ _ _ tt _ _); [apply runs_write_enums|].
        eapply (runs_bind _ _ _ _ _ tt _ _).
        { unfold write_messages. eapply (runs_bind _ _ _ _ _ _ _ []); [apply runs_import|].
          apply runs_for. intros m [Hname Hin]%list_elem_of_filter.
          rewrite Forall_forall in IH, Hnested. apply (IH m Hin). by apply Hnested. }
        eapply (runs_bind _ _ _ _ _ tt _ _); [by apply runs_write_fields_lines|].
        apply runs_write_stringly_typed_fields. }
      eapply (runs_bind _ _ _ _ _ tt _ [_] [_]); [|apply runs_write_line].
      apply runs_line; [done|]. by rewrite format_alias, mangle_message_eq. }
  cbn. by rewrite <-!(assoc_L (++)).
Qed.

Lemma runs_write_messages i messages prefix :
  (∀ m, m ∈ messages → DescriptorProto.name m ∉ PYTHON_RESERVED → message_resolves m) →
  runs i f d (write_messages messages prefix) tt
    (mjoin (message_lines i "google___protobuf___message___Message" prefix
              <$> filter (λ m, DescriptorProto.name m ∉ PYTHON_RESERVED) messages)).
Proof.
  intros Hres. unfold write_messages.
  eapply (runs_bind _ _ _ _ _ _ _ []); [apply runs_import|].
  apply runs_for. intros m [Hname Hin]%list_elem_of_filter.
  apply runs_write_message. by apply Hres.
Qed.

End message_lines.

(** ** What bears a reserved name is written as if it were not declared *)















Section without_reserved.
Context `{HashOrder}.




End without_reserved.

(** ** A shelf of books, with reserved names *)


Section reserved.
Context `{HashOrder}.






End reserved.

(** ** A catalog: a map, a repeated message and a repeated scalar *)

(** The message [Catalog] with [map<string, int32> tags], the repeated
    message field [items] of type [Item] and the repeated scalar field
    [codes]. *)
Definition catalog_tags : FieldDescriptorProto.t :=
  FieldDescriptorProto.mk "tags" FieldDescriptorProto.LABEL_REPEATED
    FieldDescriptorProto.TYPE_MESSAGE ".pkg.Catalog.TagsEntry" None.
Definition catalog_items : FieldDescriptorProto.t :=
  FieldDescriptorProto.mk "items" FieldDescriptorProto.LABEL_REPEATED
    FieldDescriptorProto.TYPE_MESSAGE ".pkg.Item" None.
Definition catalog_codes : FieldDescriptorProto.t :=
  FieldDescriptorProto.mk "codes" FieldDescriptorProto.LABEL_REPEATED
    FieldDescriptorProto.TYPE_INT32 EmptyString None.
Definition catalog_message : DescriptorProto.t :=
  DescriptorProto.mk "Catalog" [catalog_tags; catalog_items; catalog_codes] [tags_entry] [] []
    (MessageOptions.mk false).
Definition catalog_file : FileDescriptorProto.t :=
  FileDescriptorProto.mk "pkg/catalog.proto" "pkg" [catalog_message; item_message] [] [] []
    (FileOptions.mk false) "proto3".
Definition catalog_request : CodeGeneratorRequest.t :=
  CodeGeneratorRequest.mk ["pkg/catalog.proto"] EmptyString [catalog_file].

Section map_detection.
Context `{HashOrder}.
Context (f : FileDescriptorProto.t) (d : Descriptors.t).
Context (ty key_ty val_ty : FieldDescriptorProto.t → string).

(** C6. In every message that [write_messages] writes, at any depth, a
    repeated field whose type is a map-entry message gets the getter of a
    mapping over the types of the first and the second field of the entry,
    and the constructor parameter of a mapping over them; every other
    repeated field gets one-parameter containers of its own type: the
    attribute of a scalar container, the getter of a composite container,
    and the constructor parameter of an iterable. These lines stand in the
    block of the message, among those of its other fields. *)
Theorem map_detection (i : string) (messages : list DescriptorProto.t) (prefix : string) :
  (∀ m, m ∈ messages → DescriptorProto.name m ∉ PYTHON_RESERVED →
        message_resolves f d ty key_ty val_ty m) →
  runs i f d (write_messages messages prefix) tt
    (mjoin (message_lines f d ty key_ty val_ty i "google___protobuf___message___Message" prefix
              <$> filter (λ m, DescriptorProto.name m ∉ PYTHON_RESERVED) messages))
  ∧ (∀ i message_class prefix desc,
       message_lines f d ty key_ty val_ty i message_class prefix desc =
         [i +:+ "class " +:+ DescriptorProto.name desc +:+ "(" +:+ message_class +:+ "):";
          (i +:+ "    ") +:+ "DESCRIPTOR: google___protobuf___descriptor___Descriptor = ..."]
         ++ mjoin (enum_lines (i +:+ "    ") ((prefix +:+ DescriptorProto.name desc) +:+ ".")
                     <$> filter (λ e, EnumDescriptorProto.name e ∉ PYTHON_RESERVED)
                                (DescriptorProto.enum_type desc))
         ++ mjoin (message_lines f d ty key_ty val_ty (i +:+ "    ")
                     "google___protobuf___message___Message"
                     ((prefix +:+ DescriptorProto.name desc) +:+ ".")
                     <$> filter (λ m, DescriptorProto.name m ∉ PYTHON_RESERVED)
                                (DescriptorProto.nested_type desc))
         ++ fields_lines d ty key_ty val_ty (i +:+ "    ") (DescriptorProto.field desc)
         ++ stringly_lines (i +:+ "    ") (FileDescriptorProto.syntax f) desc
         ++ [i +:+ ("type___" +:+ DescriptorProto.name desc) +:+ " = "
               +:+ DescriptorProto.name desc;
             EmptyString])
  ∧ (∀ i desc_field,
       (∀ field, field ∈ desc_field → FieldDescriptorProto.name field ∉ PYTHON_RESERVED →
                 field_resolves f d ty key_ty val_ty field) →
       let fields :=
         filter (λ fl, FieldDescriptorProto.name fl ∉ PYTHON_RESERVED) desc_field in
       runs i f d (write_fields desc_field) tt
         ((attribute_line ty i <$> filter (λ fl, is_scalar fl) fields)
          ++ [EmptyString]
          ++ mjoin (getter_lines d ty key_ty val_ty i <$> filter (λ fl, ¬ is_scalar fl) fields)
          ++ [i +:+ "def __init__(self,"]
          ++ (if bool_decide (fields = []) then [] else [(i +:+ "    ") +:+ "*,"])
          ++ (parameter_line d ty key_ty val_ty (i +:+ "    ") <$> fields)
          ++ [(i +:+ "    ") +:+ ") -> None: ..."]))
  ∧ ∀ i field,
      FieldDescriptorProto.label field = FieldDescriptorProto.LABEL_REPEATED →
      (∀ msg,
         Descriptors.messages d !! FieldDescriptorProto.type_name field = Some msg →
         MessageOptions.map_entry (DescriptorProto.options msg) = true →
         getter_lines d ty key_ty val_ty i field =
           [i +:+ "@property";
            i +:+ "def " +:+ FieldDescriptorProto.name field
              +:+ "(self) -> typing___MutableMapping[" +:+ key_ty field +:+ ", "
              +:+ val_ty field +:+ "]: ...";
            EmptyString]
         ∧ parameter_line d ty key_ty val_ty i field =
             i +:+ FieldDescriptorProto.name field
               +:+ " : typing___Optional[typing___Mapping[" +:+ key_ty field +:+ ", "
               +:+ val_ty field +:+ "]] = None,")
      ∧ ((∀ msg,
            Descriptors.messages d !! FieldDescriptorProto.type_name field = Some msg →
            MessageOptions.map_entry (DescriptorProto.options msg) = false) →
         attribute_line ty i field =
           i +:+ FieldDescriptorProto.name field
             +:+ ": google___protobuf___internal___containers___RepeatedScalarFieldContainer["
             +:+ ty field +:+ "] = ..."
         ∧ getter_lines d ty key_ty val_ty i field =
             [i +:+ "@property";
              i +:+ "def " +:+ FieldDescriptorProto.name field
                +:+ "(self) -> google___protobuf___internal___containers___RepeatedCompositeFieldContainer["
                +:+ ty field +:+ "]: ...";
              EmptyString]
         ∧ parameter_line d ty key_ty val_ty i field =
             i +:+ FieldDescriptorProto.name field
               +:+ " : typing___Optional[typing___Iterable[" +:+ ty field +:+ "]] = None,").
Proof.
  intros Hres. split_and!.
  - by apply runs_write_messages.
  - apply message_lines_eq.
  - intros i' desc_field Hfields fields. by apply runs_write_fields_lines.
  - intros i' field Hrepeated.
    assert (Hr : is_repeated field = true) by (by apply bool_decide_eq_true_2).
    split.
    + intros msg Hmsg Hmap.
      assert (is_map_field d field = true) as Hm.
      { unfold is_map_field. by rewrite Hr, Hmsg, Hmap. }
      unfold getter_lines, parameter_line. by rewrite Hm.
    + intros Hnot.
      assert (is_map_field d field = false) as Hm.
      { unfold is_map_field. rewrite Hr.
        destruct (_ !! FieldDescriptorProto.type_name field) as [msg|] eqn:Hmsg; [|done].
        by rewrite (Hnot msg). }
      unfold attribute_line, getter_lines, parameter_line. by rewrite Hm, Hr.
Qed.

End map_detection.

(** The types of the fields of the file of [Catalog]. *)
Definition catalog_type (field : FieldDescriptorProto.t) : string :=
  if bool_decide (FieldDescriptorProto.type field = FieldDescriptorProto.TYPE_STRING)
  then "typing___Text"
  else if is_scalar field then "builtin___int" else "type___Item".

Lemma catalog_resolves (m : DescriptorProto.t) :
  m ∈ [catalog_message; item_message] → DescriptorProto.name m ∉ PYTHON_RESERVED →
  message_resolves catalog_file (descriptors_of catalog_request)
    catalog_type (λ _, "typing___Text") (λ _, "builtin___int") m.
Proof.
  intros Hin _. repeat (apply elem_of_cons in Hin as [->|Hin]).
  - split.
    + intros field Hfield _. repeat (apply elem_of_cons in Hfield as [->|Hfield]).
      * unfold field_resolves.
        assert (is_map_field (descriptors_of catalog_request) catalog_tags = true) as ->
          by (vm_compute; reflexivity).
        split; [reflexivity|]. exists tags_entry, tags_key, tags_value, [].
        split_and!; vm_compute; reflexivity.
      * unfold field_resolves.
        assert (is_map_field (descriptors_of catalog_request) catalog_items = false) as ->
          by (vm_compute; reflexivity).
        split; [vm_compute; reflexivity|]. intros _ _. exists item_message.
        vm_compute. reflexivity.
      * unfold field_resolves.
        assert (is_map_field (descriptors_of catalog_request) catalog_codes = false) as ->
          by (vm_compute; reflexivity).
        split; [vm_compute; reflexivity|]. intros _ Hscalar. discriminate Hscalar.
      * by apply elem_of_nil in Hfield.
    + split; [|exact I]. intros _. split; [|exact I].
      intros field Hfield _. repeat (apply elem_of_cons in Hfield as [->|Hfield]).
      * unfold field_resolves.
        assert (is_map_field (descriptors_of catalog_request) tags_key = false) as ->
          by (vm_compute; reflexivity).
        split; [vm_compute; reflexivity|]. intros Hrepeated. discriminate Hrepeated.
      * unfold field_resolves.
        assert (is_map_field (descriptors_of catalog_request) tags_value = false) as ->
          by (vm_compute; reflexivity).
        split; [vm_compute; reflexivity|]. intros Hrepeated. discriminate Hrepeated.
      * by apply elem_of_nil in Hfield.
  - split; [|exact I]. intros field Hfield. by apply elem_of_nil in Hfield.
  - by apply elem_of_nil in Hin.
Defined.

Lemma map_detection_witness :
  ∃ written,
    runs EmptyString catalog_file (descriptors_of catalog_request)
      (write_messages (H := canonical_order) [catalog_message; item_message] EmptyString) tt
      written
    ∧ written =
        ["class Catalog(google___protobuf___message___Message):";
         "    DESCRIPTOR: google___protobuf___descriptor___Descriptor = ...";
         "    class TagsEntry(google___protobuf___message___Message):";
         "        DESCRIPTOR: google___protobuf___descriptor___Descriptor = ...";
         "        key: typing___Text = ...";
         "        value: builtin___int = ...";
         EmptyString;
         "        def __init__(self,";
         "            *,";
         "            key : typing___Optional[typing___Text] = None,";
         "            value : typing___Optional[builtin___int] = None,";
         "            ) -> None: ...";
         "        def ClearField(self, field_name: typing_extensions___Literal["
           +:+ literal_ub "key" +:+ "," +:+ literal_ub "value" +:+ "]) -> None: ...";
         "    type___TagsEntry = TagsEntry";
         EmptyString;
         "    codes: google___protobuf___internal___containers___RepeatedScalarFieldContainer[builtin___int] = ...";
         EmptyString;
         "    @property";
         "    def tags(self) -> typing___MutableMapping[typing___Text, builtin___int]: ...";
         EmptyString;
         "    @property";
         "    def items(self) -> google___protobuf___internal___containers___RepeatedCompositeFieldContainer[type___Item]: ...";
         EmptyString;
         "    def __init__(self,";
         "        *,";
         "        tags : typing___Optional[typing___Mapping[typing___Text, builtin___int]] = None,";
         "        items : typing___Optional[typing___Iterable[type___Item]] = None,";
         "        codes : typing___Optional[typing___Iterable[builtin___int]] = None,";
         "        ) -> None: ...";
         "    def ClearField(self, field_name: typing_extensions___Literal["
           +:+ literal_ub "codes" +:+ "," +:+ literal_ub "items" +:+ ","
           +:+ literal_ub "tags" +:+ "]) -> None: ...";
         "type___Catalog = Catalog";
         EmptyString;
         "class Item(google___protobuf___message___Message):";
         "    DESCRIPTOR: google___protobuf___descriptor___Descriptor = ...";
         EmptyString;
         "    def __init__(self,";
         "        ) -> None: ...";
         "type___Item = Item";
         EmptyString].
Proof.
  eexists. split.
  - apply (proj1 (map_detection (H := canonical_order) catalog_file
                    (descriptors_of catalog_request) catalog_type
                    (λ _, "typing___Text") (λ _, "builtin___int") EmptyString
                    [catalog_message; item_message] EmptyString catalog_resolves)).
  - vm_compute. reflexivity.
Defined.

(** ** Both generators on a file in a directory *)

Lemma response_file_names_witness :
  (∃ response',
     generate_mypy_grpc_stubs (H := canonical_order) (descriptors_of api_request)
       (CodeGeneratorResponse.mk []) false = Ok response'
     ∧ CodeGeneratorResponse.File.name <$> CodeGeneratorResponse.file response'
       = ["app/api_v1_pb2_grpc.pyi"]
     ∧ HEADER = "# @generated by generate_proto_mypy_stubs.py.  Do not edit!" +:+ nl
     ∧ ∃ outputs,
         CodeGeneratorResponse.file response' = [] ++ outputs
         ∧ Forall2 (is_stub_of "_pb2_grpc.pyi")
                   (Descriptors.to_generate (descriptors_of api_request)) outputs)
  ∧ (∃ response',
       generate_mypy_stubs (H := canonical_order) (descriptors_of api_request)
         (CodeGeneratorResponse.mk []) false = Ok response'
       ∧ CodeGeneratorResponse.File.name <$> CodeGeneratorResponse.file response'
         = ["app/api_v1_pb2.pyi"]
       ∧ HEADER = "# @generated by generate_proto_mypy_stubs.py.  Do not edit!" +:+ nl
       ∧ ∃ outputs,
           CodeGeneratorResponse.file response' = [] ++ outputs
           ∧ Forall2 (is_stub_of "_pb2.pyi")
                     (Descriptors.to_generate (descriptors_of api_request)) outputs).
Proof.
  split.
  - eexists. split; [vm_compute; reflexivity|]. split; [vm_compute; reflexivity|].
    apply (response_file_names (H := canonical_order) true (descriptors_of api_request)
             (CodeGeneratorResponse.mk []) _ false).
    vm_compute; reflexivity.
  - eexists. split; [vm_compute; reflexivity|]. split; [vm_compute; reflexivity|].
    apply (response_file_names (H := canonical_order) false (descriptors_of api_request)
             (CodeGeneratorResponse.mk []) _ false).
    vm_compute; reflexivity.
Defined.

Lemma import_idempotent_witness :
  imports_wf (PkgWriter.__init__ root_file (descriptors_of root_request))
  ∧ requests 3 "google/protobuf/message" "Message"
      (PkgWriter.__init__ root_file (descriptors_of root_request))
    = Ok (replicate 3 "google___protobuf___message___Message",
          set_imports (import_record "google/protobuf/message" "Message")
            (PkgWriter.__init__ root_file (descriptors_of root_request)))
  ∧ write (H := canonical_order)
      (set_imports (import_record "google/protobuf/message" "Message")
         (PkgWriter.__init__ root_file (descriptors_of root_request)))
    = "import sys" +:+ nl
      +:+ "from google.protobuf.message import (" +:+ nl
      +:+ "    Message as google___protobuf___message___Message," +:+ nl
      +:+ ")" +:+ nl +:+ nl.
Proof.
  split; [apply imports_wf_init|].
  destruct (import_idempotent (H := canonical_order)
              (PkgWriter.__init__ root_file (descriptors_of root_request))
              "google/protobuf/message" "Message" 2 (imports_wf_init _ _))
    as (Hrequests & _ & _ & _ & _ & _ & Hwrite).
  split; [exact Hrequests|]. by apply Hwrite.
Defined.
